(** * Wallet-evaluation engine: a shallow embedding of the two scraper variants

    The repository ships the same engine twice:
    - [core/playwright_scanner.py]              (class [PlaywrightWalletScanner]),
      embedded below in [Module Scanner];
    - [core/playwright_multi_page_analyzer.py]  (classes [PageWorker] and
      [PlaywrightMultiPageAnalyzer]), embedded in [Module Analyzer].
    The analyzer is driven by [core/orchestrator.py] (class
    [SolanaTokenOrchestrator]), whose holder collection and analysis step are
    embedded in [Module Orchestrator].

    Conventions of the embedding.
    - Python [str] is [string]; [List[str]] is [list string]; [Set[str]] is
      [gset string]; a [dict] with fixed keys is a [Record].
    - Python [float] is a binary64 primitive float; [a >= b] is [fge a b].
    - A Python function that can raise returns a [py_result].
    - The browser page, the clock, the regular-expression engine and the
      [float()] / [repr()] builtins are outside the repository.  The page is an
      oracle giving, for every wallet and attempt, what each page call
      answers; the library functions are the fields of the class [PyLib].
    - Counts and indices ([num_pages], [len], [attempt]) are [nat]; a
      timestamp is a [Z].  [Module AnyPages] has the two distributors for a
      page count that is any [int], a [Z].
    - Files are modelled by their contents and every file operation
      succeeds: the ledger [scanned_wallets.txt] is the list of its lines
      in the machines, and the text of the file in [Module OnText], which
      runs them on what [readlines] makes of the text and appends what they
      wrote; [good_wallets.json] is the list of the records it holds
      ([None] when the file does not exist).
    - The token and holder services are outside the repository: an oracle
      gives what each request is answered.  [max_retries] comes from
      [config.json] and is a [Z].  What [response.json()] and [json.load]
      give is a [json] value, and an exception that no [except] clause
      catches is an [Escaped] outcome.  The dict [holders_data] is a [gmap]
      of records for the address files, and the list of its items, in the
      order of the dict, in the collecting loop.
    - Concurrency is [asyncio]'s: one thread, tasks interleave only at
      [await].  A run is a small-step machine whose step lets one worker take
      its next atomic action; a schedule is the list of worker indices chosen. *)

From Stdlib Require Import ZArith Lia Floats Ascii String.
From stdpp Require Import base list gmap strings sets pretty sorting.

Open Scope string_scope.
Open Scope list_scope.
Open Scope nat_scope.

(** ** Python results and exceptions *)

Inductive pyerr := ZeroDivisionError | IndexError.

Inductive py_result (A : Type) :=
  | Returned (a : A)
  | Raised (e : pyerr).
Arguments Returned {A} a.
Arguments Raised {A} e.

#[global] Instance py_ret : MRet py_result := λ A a, Returned a.
#[global] Instance py_bind : MBind py_result := λ A B f m,
  match m with Returned a => f a | Raised e => Raised e end.

(** ** WorkDistributor: round-robin sharding *)

(** [enumerate(wallets)] *)
Definition enumerate {A} (l : list A) : list (nat * A) := zip (seq 0 (length l)) l.

(** [idx % n] on non-negative integers; [n = 0] raises. *)
Definition py_mod (a b : nat) : py_result nat :=
  if decide (b = 0) then Raised ZeroDivisionError else Returned (a mod b).

(** [chunks[k].append(x)]; an index past the end of [chunks] raises. *)
Definition append_at {A} (chunks : list (list A)) (k : nat) (x : A)
    : py_result (list (list A)) :=
  match chunks !! k with
  | Some c => Returned (<[k := c ++ [x]]> chunks)
  | None => Raised IndexError
  end.

(** The loop shared by both distributors:
<<
    for idx, wallet in enumerate(wallets):
        chunks[idx % n].append(wallet)
>> *)
Fixpoint place {A} (n : nat) (items : list (nat * A)) (chunks : list (list A))
    : py_result (list (list A)) :=
  match items with
  | [] => Returned chunks
  | (idx, wallet) :: rest =>
      k ← py_mod idx n;
      chunks' ← append_at chunks k wallet;
      place n rest chunks'
  end.

(** The elements of [items] whose index is congruent to [k] modulo [n], in the
    order of [items]: what shard [k] is expected to hold. *)
Definition picked {A} (n k : nat) (items : list (nat * A)) : list A :=
  (filter (λ p, p.1 mod n = k) items).*2.

Definition shard_of {A} (n k : nat) (l : list A) : list A :=
  picked n k (enumerate l).

(** Two shards are disjoint when no address occurs in both; a family of shards
    is pairwise disjoint when any two shards at different positions are. *)
Definition pairwise_disjoint {A} (shards : list (list A)) : Prop :=
  ∀ j k sj sk, j ≠ k → shards !! j = Some sj → shards !! k = Some sk → sj ## sk.

(** [if chunk] in the task comprehensions: a non-empty list is truthy. *)
Definition truthy {A} (l : list A) : bool :=
  match l with [] => false | _ => true end.

(** The numbered non-empty chunks: what both task comprehensions select when
    there are at least as many pages as chunks. *)
Definition numbered_from {A} (s : nat) (chunks : list (list A)) : list (nat * list A) :=
  filter (λ t, truthy t.2) (zip (seq s (length chunks)) chunks).

(** The wallets of the round-robin example: two workers, five wallets. *)
Definition five_wallets : list string := ["w0"; "w1"; "w2"; "w3"; "w4"].

(** ** Strings

    A [string] is read as the sequence of the code points of the Python [str],
    all below 256. *)

(** [c.isspace()] on code points below 256. *)
Definition py_isspace (c : ascii) : bool :=
  let n := nat_of_ascii c in
  (((9 <=? n) && (n <=? 13)) || ((28 <=? n) && (n <=? 32)) || (n =? 133) || (n =? 160))%nat.

Fixpoint lstrip (s : string) : string :=
  match s with
  | String c s' => if py_isspace c then lstrip s' else s
  | EmptyString => EmptyString
  end.

Definition is_empty (s : string) : bool :=
  match s with EmptyString => true | _ => false end.

Fixpoint rstrip (s : string) : string :=
  match s with
  | String c s' =>
      let r := rstrip s' in
      if is_empty r && py_isspace c then EmptyString else String c r
  | EmptyString => EmptyString
  end.

(** [s.strip()] *)
Definition strip (s : string) : string := rstrip (lstrip s).

(** [c in s] for a one-character [c] *)
Fixpoint has_char (c : ascii) (s : string) : bool :=
  match s with
  | String a s' => if decide (a = c) then true else has_char c s'
  | EmptyString => false
  end.

(** [s.split(c)[0]]: the part of [s] before the first [c]. *)
Fixpoint before_char (c : ascii) (s : string) : string :=
  match s with
  | String a s' => if decide (a = c) then EmptyString else String a (before_char c s')
  | EmptyString => EmptyString
  end.

(** [s.replace(c, '')] for a one-character [c] *)
Fixpoint remove_char (c : ascii) (s : string) : string :=
  match s with
  | String a s' => if decide (a = c) then remove_char c s' else String a (remove_char c s')
  | EmptyString => EmptyString
  end.

(** [needle in hay] *)
Fixpoint contains (needle hay : string) : bool :=
  String.prefix needle hay ||
  match hay with
  | String _ hay' => contains needle hay'
  | EmptyString => false
  end.

Definition lower_char (c : ascii) : ascii :=
  let n := nat_of_ascii c in
  if (((65 <=? n) && (n <=? 90)) || ((192 <=? n) && (n <=? 222) && negb (n =? 215)))%nat
  then ascii_of_nat (n + 32) else c.

(** [s.lower()] *)
Fixpoint lower (s : string) : string :=
  match s with
  | String c s' => String (lower_char c) (lower s')
  | EmptyString => EmptyString
  end.

(** ** Floats *)

(** Python's [a >= b] on floats. *)
Definition fge (a b : float) : bool := PrimFloat.leb b a.

(** Python's [0 <= value <= 100]. *)
Definition in_0_100 (value : float) : bool :=
  PrimFloat.leb 0 value && PrimFloat.leb value 100.

(** ** Library functions used by the scrapers *)

Class PyLib := {
  (** [re.search(pattern, text, re.IGNORECASE if ignorecase else 0)]: the text
      of group 1 of the leftmost match, [None] when nothing matches. *)
  re_search : string → bool → string → option string;
  (** [float(s)]; [None] stands for [ValueError]. *)
  py_float : string → option float;
  (** [f"{x}"] for a float [x]. *)
  py_repr : float → string;
}.

(** ** The rendered page, as the scrapers observe it

    What the calls made during one attempt on one wallet answer.  [None]
    stands for a raised exception (for [text_content] also for a [None]
    result, on which [re.search] raises). *)

Inductive wait_result := Found | TimedOut | WaitFailed.

Record view := {
  goto_ok : bool;                      (* page.goto returned *)
  selector : nat → wait_result;        (* wait_for_selector, by timeout (s) *)
  content_wait : option string;        (* page.content() after a timeout *)
  wr_text : option string;             (* Win Rate locator text_content *)
  content_wr : option string;          (* page.content() in the win-rate extractor *)
  pnl_text : option string;            (* Realized locator text_content *)
  content_pnl : option string;         (* page.content() in the PnL extractor *)
  now_iso : string;                    (* datetime.now().isoformat() *)
}.

(** A page answers by wallet and attempt number. *)
Definition page := string → nat → view.

(** ** Observable events of a run, oldest first *)

Inductive event :=
  | EvSkip (page_id : nat) (wallet : string)        (* counted as skipped *)
  | EvClaim (page_id : nat) (wallet : string)       (* added to the in-run set *)
  | EvLedger (wallet : string)                      (* save_scanned_wallet *)
  | EvGoto (wallet : string) (attempt : nat)        (* page.goto *)
  | EvSleep (seconds : nat)                         (* asyncio.sleep *)
  | EvReturn (wallet : string) (found : bool)       (* analyze_wallet returned *)
  | EvRecord (page_id : nat) (wallet : string) (passed : bool)
  | EvCheckpoint (stored : nat).                    (* good_wallets.json rewritten *)

Definition max_retries : nat := 3.

(** [_wait_for_data_with_timeout], identical in both modules: both branches
    taken after a timeout return [False]. *)
Definition _wait_for_data_with_timeout (v : view) (timeout_seconds : nat) : bool :=
  match selector v timeout_seconds with
  | Found => true
  | TimedOut =>
      match content_wait v with
      | Some page_text =>
          if contains "no data for this wallet" (lower page_text)
             || contains "not a wallet address" (lower page_text)
          then false   (* Valid "no data" response, don't retry *)
          else false   (* Timeout without data, should retry *)
      | None => false
      end
  | WaitFailed => false
  end.

(** The "no data" / "invalid address" marker test of the function above. *)
Definition shows_marker (v : view) : bool :=
  match content_wait v with
  | Some page_text =>
      contains "no data for this wallet" (lower page_text)
      || contains "not a wallet address" (lower page_text)
  | None => false
  end.

(** ** ScanLedger: scanned_wallets.txt *)

(** The line [f"{wallet_address}|{timestamp}"] appended by [save_scanned_wallet]. *)
Definition ledger_line (wallet_address : string) (timestamp : Z) : string :=
  wallet_address +:+ "|" +:+ pretty timestamp.

Definition save_scanned_wallet (wallet_address : string) (timestamp : Z)
    (file : list string) : list string :=
  file ++ [ledger_line wallet_address timestamp].

(** The wallet a ledger line stands for, if any: the loop body of
    [load_scanned_wallets]. *)
Definition ledger_entry (line : string) : option string :=
  let line := strip line in
  if negb (is_empty line) && has_char "|" line
  then Some (before_char "|" line)
  else None.

(** [load_scanned_wallets]:
<<
    for line in f:
        line = line.strip()
        if line and '|' in line:
            wallets.add(line.split('|')[0])
>> *)
Definition load_scanned_wallets (file : list string) : gset string :=
  foldl (λ wallets line,
           let line := strip line in
           if negb (is_empty line) && has_char "|" line
           then wallets ∪ {[ before_char "|" line ]}
           else wallets)
        ∅ file.

(** An address that survives the ledger's [wallet|timestamp] line format: no
    separator and no white space in it. *)
Definition wallet_ok (w : string) : bool :=
  negb (has_char "|" w) &&
  (fix go s := match s with
               | String c s' => negb (py_isspace c) && go s'
               | EmptyString => true
               end) w.

(** ** Reading a trace *)

(** The wallets whose evaluation ([analyze_wallet]) has returned, in order. *)
Definition evaluated (tr : list event) : list string :=
  omap (λ e, match e with EvReturn w _ => Some w | _ => None end) tr.

(** The wallets claimed (inserted into the in-run scanned set), in order. *)
Definition claimed (tr : list event) : list string :=
  omap (λ e, match e with EvClaim _ w => Some w | _ => None end) tr.

(** The wallets counted as skipped, in order. *)
Definition skips (tr : list event) : list string :=
  omap (λ e, match e with EvSkip _ w => Some w | _ => None end) tr.

(** The wallets for which a ledger line was written, in order. *)
Definition ledgered (tr : list event) : list string :=
  omap (λ e, match e with EvLedger w => Some w | _ => None end) tr.

(** The wallets whose outcome was counted, in order, and those among them
    counted as passed. *)
Definition records (tr : list event) : list string :=
  omap (λ e, match e with EvRecord _ w _ => Some w | _ => None end) tr.

Definition passes (tr : list event) : list string :=
  omap (λ e, match e with EvRecord _ w true => Some w | _ => None end) tr.

(** The attempt numbers of the navigations, in order, and the seconds paused
    in all. *)
Definition navigations (tr : list event) : list nat :=
  omap (λ e, match e with EvGoto _ attempt => Some attempt | _ => None end) tr.

Definition paused (tr : list event) : nat :=
  sum_list (omap (λ e, match e with EvSleep seconds => Some seconds | _ => None end) tr).

(** [P pre e] holds of every event [e] of the trace, [pre] being the events
    before it. *)
Definition always_before (P : list event → event → Prop) (tr : list event) : Prop :=
  ∀ pre e post, tr = pre ++ e :: post → P pre e.

(** The events [analyze_wallet] emits for a wallet: navigations to its page
    and pauses. *)
Definition navigation (w : string) (e : event) : Prop :=
  match e with
  | EvGoto w' _ => w' = w
  | EvSleep _ => True
  | _ => False
  end.

(** Orders between the events about one wallet. *)
Definition ledger_before_goto (pre : list event) (e : event) : Prop :=
  ∀ w t, e = EvGoto w t → EvLedger w ∈ pre.

Definition claim_before_ledger (pre : list event) (e : event) : Prop :=
  ∀ w, e = EvLedger w → ∃ i, EvClaim i w ∈ pre.

Definition return_before_ledger (pre : list event) (e : event) : Prop :=
  ∀ w, e = EvLedger w → ∃ b, EvReturn w b ∈ pre.

Definition goto_before_return (pre : list event) (e : event) : Prop :=
  ∀ w b, e = EvReturn w b → EvGoto w 0 ∈ pre.

(** ** Text files

    A text file is the string of its characters.  The files are opened in
    text mode with the default [newline=None]: what is written is stored as
    it is (the line separator of the system being the line feed), and on
    reading a carriage return, alone or followed by a line feed, is read as a
    line feed. *)

Definition LF : ascii := "010".
Definition CR : ascii := "013".
Definition newline : string := String LF "".

Definition cons_line (c : ascii) (lines : list string) : list string :=
  match lines with
  | [] => [String c ""]
  | line :: lines => String c line :: lines
  end.

(** [for line in f]: the lines of the text, each with its line feed (the last
    one without, when the text does not end in a line break).  [cr] tells
    that the character before was a carriage return, already read as a line
    feed. *)
Fixpoint lines_after (cr : bool) (s : string) : list string :=
  match s with
  | EmptyString => []
  | String c s' =>
      if decide (c = LF) then
        if cr then lines_after false s' else newline :: lines_after false s'
      else if decide (c = CR) then newline :: lines_after true s'
      else cons_line c (lines_after false s')
  end.

Definition readlines (s : string) : list string := lines_after false s.

(** No white space in it. *)
Fixpoint spaceless (s : string) : bool :=
  match s with
  | String c s' => negb (py_isspace c) && spaceless s'
  | EmptyString => true
  end.

Fixpoint ends_with_lf (s : string) : bool :=
  match s with
  | EmptyString => false
  | String c s' =>
      match s' with
      | EmptyString => bool_decide (c = LF)
      | String _ _ => ends_with_lf s'
      end
  end.

(** The text is empty or ends in a line feed: its last line is complete. *)
Definition line_complete (s : string) : bool := is_empty s || ends_with_lf s.

(** [save_scanned_wallet] on the text of the ledger:
<<
    with open(scanned_file, 'a') as f:
        f.write(f"{wallet_address}|{timestamp}\n")
>> *)
Definition append_scanned_wallet (wallet_address : string) (timestamp : Z)
    (content : string) : string :=
  content +:+ ledger_line wallet_address timestamp +:+ newline.

(** * playwright_scanner.py *)

Module Scanner.

(** The dict returned by [analyze_wallet] for a wallet that meets the criteria. *)
Record result := {
  wallet : string;
  winrate : string;
  realizedPnL : string;
  timestamp : string;
}.

(** [PlaywrightWalletScanner.distribute_wallets] *)
Definition distribute_wallets {A} (num_pages : nat) (wallets : list A)
    : py_result (list (list A)) :=
  place num_pages (enumerate wallets) (replicate num_pages []).

(** The task comprehension of [run]:
<<
    [self.page_worker(page, chunk, i)
     for i, (page, chunk) in enumerate(zip(pages, wallet_chunks)) if chunk]
>>
    with the pages numbered in creation order. *)
Definition tasks {A} (num_pages : nat) (wallet_chunks : list (list A))
    : list (nat * list A) :=
  (λ t, (t.1, t.2.2)) <$>
    filter (λ t, truthy t.2.2) (enumerate (zip (seq 0 num_pages) wallet_chunks)).

Section with_lib.
Context `{PyLib}.

(** The [except Exception] branch of [extract_winrate]. *)
Definition winrate_fallback (v : view) : option float :=
  match content_wr v with
  | Some html =>
      match re_search "Win Rate\s*</h3>\s*<p[^>]*>\s*([\d\.,]+)\s*%?" true html with
      | Some g =>
          match py_float (remove_char "," g) with
          | Some value => if in_0_100 value then Some value else None
          | None => None
          end
      | None => None
      end
  | None => None
  end.

(** [PlaywrightWalletScanner.extract_winrate] *)
Definition extract_winrate (v : view) : option float :=
  match wr_text v with
  | Some text =>
      match re_search "([\d\.,]+)" false text with
      | Some g =>
          match py_float (remove_char "," g) with
          | Some value => if in_0_100 value then Some value else None
          | None => winrate_fallback v
          end
      | None => None
      end
  | None => winrate_fallback v
  end.

(** The [except Exception] branch of [extract_realized_pnl]. *)
Definition realized_pnl_fallback (v : view) : option float :=
  match content_pnl v with
  | Some html =>
      match re_search "Realized\s*</p>\s*<p[^>]*>\s*\$[\d\.,]+\s*\(([\d\.,]+)%\)" true html with
      | Some g => py_float (remove_char "," g)
      | None => None
      end
  | None => None
  end.

(** [PlaywrightWalletScanner.extract_realized_pnl] *)
Definition extract_realized_pnl (v : view) : option float :=
  match pnl_text v with
  | Some text =>
      match re_search "\(([\d\.,]+)%\)" false text with
      | Some g =>
          match py_float (remove_char "," g) with
          | Some percentage => Some percentage
          | None => realized_pnl_fallback v
          end
      | None =>
          match re_search "([\d\.,]+)%" false text with
          | Some g =>
              match py_float (remove_char "," g) with
              | Some percentage => Some percentage
              | None => realized_pnl_fallback v
              end
          | None => None
          end
      end
  | None => realized_pnl_fallback v
  end.

(** What one attempt reads off the page: both metrics, when the navigation
    and the wait succeed and both extractors find a value. *)
Definition readings (v : view) : option (float * float) :=
  if goto_ok v && _wait_for_data_with_timeout v 8 then
    match extract_winrate v, extract_realized_pnl v with
    | Some winrate, Some realized_pnl => Some (winrate, realized_pnl)
    | _, _ => None
    end
  else None.

Section engine.
Variables (pg : page) (min_winrate min_pnl : float) (clock : nat → Z).

(** [if attempt < max_retries - 1: sleep(2); continue  else: return None] *)
Definition retry_or_stop (attempt : nat) (again : option result * list event)
    : option result * list event :=
  if (attempt <? max_retries - 1)%nat then (again.1, EvSleep 2 :: again.2)
  else (None, []).

(** The body of [for attempt in range(max_retries)] in [analyze_wallet]; the
    second component lists the navigations and pauses made. *)
Fixpoint analyze_attempts (wallet : string) (attempts : list nat)
    : option result * list event :=
  match attempts with
  | [] => (None, [])
  | attempt :: rest =>
      let v := pg wallet attempt in
      let again := analyze_attempts wallet rest in
      let '(r, evs) :=
        if negb (goto_ok v) then retry_or_stop attempt again
        else if negb (_wait_for_data_with_timeout v 8) then retry_or_stop attempt again
        else
          match extract_winrate v, extract_realized_pnl v with
          | Some winrate, Some realized_pnl =>
              if fge winrate min_winrate && fge realized_pnl min_pnl
              then (Some {| wallet := wallet;
                            winrate := py_repr winrate +:+ "%";
                            realizedPnL := py_repr realized_pnl +:+ "%";
                            timestamp := now_iso v |}, [])
              else (None, [])
          | _, _ => retry_or_stop attempt again
          end in
      (r, EvGoto wallet attempt :: evs)
  end.

(** [PlaywrightWalletScanner.analyze_wallet] *)
Definition analyze_wallet (wallet : string) : option result * list event :=
  analyze_attempts wallet (seq 0 max_retries).

(** *** The worker loop [page_worker] and the shared scanner object *)

(** Where a worker stands in the body of [for wallet in wallet_chunk]. *)
Inductive phase :=
  | AtLoopHead
  | Claimed (wallet : string)        (* left the [scanned_lock] block *)
  | Tracked (wallet : string)        (* [save_scanned_wallet] done *)
  | Analyzed (wallet : string) (r : option result).

Record worker := {
  page_id : nat;
  chunk : list string;               (* wallets not yet taken from the chunk *)
  at_ : phase;
}.

Record state := {
  scanned_wallets : gset string;     (* self.scanned_wallets *)
  ledger : list string;              (* scanned_wallets.txt *)
  results : list result;             (* self.results *)
  total_processed : nat;
  total_passed : nat;
  total_skipped : nat;
  trace : list event;
  workers : list worker;
}.

(** One atomic action of the worker at position [i]; a worker that has left
    its loop stays where it is. *)
Definition step (i : nat) (st : state) : state :=
  match workers st !! i with
  | None => st
  | Some wk =>
      match at_ wk, chunk wk with
      | AtLoopHead, [] => st
      | AtLoopHead, w :: rest =>
          if decide (w ∈ scanned_wallets st) then
            {| scanned_wallets := scanned_wallets st;
               ledger := ledger st;
               results := results st;
               total_processed := total_processed st;
               total_passed := total_passed st;
               total_skipped := S (total_skipped st);
               trace := trace st ++ [EvSkip (page_id wk) w];
               workers := <[i := {| page_id := page_id wk; chunk := rest;
                                    at_ := AtLoopHead |}]> (workers st) |}
          else
            {| scanned_wallets := scanned_wallets st ∪ {[w]};
               ledger := ledger st;
               results := results st;
               total_processed := total_processed st;
               total_passed := total_passed st;
               total_skipped := total_skipped st;
               trace := trace st ++ [EvClaim (page_id wk) w];
               workers := <[i := {| page_id := page_id wk; chunk := rest;
                                    at_ := Claimed w |}]> (workers st) |}
      | Claimed w, _ =>
          {| scanned_wallets := scanned_wallets st;
             ledger := save_scanned_wallet w (clock (length (trace st))) (ledger st);
             results := results st;
             total_processed := total_processed st;
             total_passed := total_passed st;
             total_skipped := total_skipped st;
             trace := trace st ++ [EvLedger w];
             workers := <[i := {| page_id := page_id wk; chunk := chunk wk;
                                  at_ := Tracked w |}]> (workers st) |}
      | Tracked w, _ =>
          let '(r, evs) := analyze_wallet w in
          {| scanned_wallets := scanned_wallets st;
             ledger := ledger st;
             results := results st;
             total_processed := total_processed st;
             total_passed := total_passed st;
             total_skipped := total_skipped st;
             trace := trace st ++ evs ++ [EvReturn w (bool_decide (is_Some r))];
             workers := <[i := {| page_id := page_id wk; chunk := chunk wk;
                                  at_ := Analyzed w r |}]> (workers st) |}
      | Analyzed w r, _ =>
          {| scanned_wallets := scanned_wallets st;
             ledger := ledger st;
             results := results st ++ option_list r;
             total_processed := S (total_processed st);
             total_passed := if r is Some _ then S (total_passed st) else total_passed st;
             total_skipped := total_skipped st;
             trace := trace st ++ [EvRecord (page_id wk) w (bool_decide (is_Some r)); EvSleep 1];
             workers := <[i := {| page_id := page_id wk; chunk := chunk wk;
                                  at_ := AtLoopHead |}]> (workers st) |}
      end
  end.

(** The tasks awaited by [asyncio.gather], run under a schedule. *)
Definition exec (sched : list nat) (st : state) : state :=
  foldl (λ st i, step i st) st sched.

Definition worker_done (wk : worker) : bool :=
  match at_ wk, chunk wk with AtLoopHead, [] => true | _, _ => false end.

(** Every task has returned. *)
Definition finished (st : state) : bool := forallb worker_done (workers st).

(** The wallet a worker holds before its ledger line is written, and the one
    it holds before the counters are updated. *)
Definition awaiting_ledger (wk : worker) : list string :=
  match at_ wk with Claimed w => [w] | _ => [] end.

Definition awaiting_count (wk : worker) : list string :=
  match at_ wk with Analyzed w _ => [w] | _ => [] end.

(** The books of a run started with the ledger [ledger0] and the wallets
    [handed] to the tasks: each wallet handed is claimed or skipped, a ledger
    line follows each claim, the counters follow the evaluations, and the
    results are the outcomes counted as passed, in the order they were
    counted. *)
Record books (ledger0 : list string) (handed : list string) (st : state) : Prop := {
  books_handed :
    claimed (trace st) ++ skips (trace st) ++ concat (chunk <$> workers st) ≡ₚ handed;
  books_ledgered :
    ledgered (trace st) ++ concat (awaiting_ledger <$> workers st)
      ≡ₚ claimed (trace st);
  books_ledger :
    ∃ timestamps, length timestamps = length (ledgered (trace st)) ∧
      ledger st = ledger0 ++ zip_with ledger_line (ledgered (trace st)) timestamps;
  books_records :
    records (trace st) ++ concat (awaiting_count <$> workers st)
      ≡ₚ evaluated (trace st);
  books_processed : total_processed st = length (records (trace st));
  books_passed : total_passed st = length (results st);
  books_results : wallet <$> results st = passes (trace st);
  books_holding :
    ∀ i wk w d, workers st !! i = Some wk → at_ wk = Analyzed w (Some d) →
      wallet d = w;
}.

(** A bound on the number of steps a worker takes before its task returns
    (a wallet that is skipped takes one step, any other four). *)
Definition steps_left (wk : worker) : nat :=
  match at_ wk with
  | AtLoopHead => 0
  | Claimed _ => 3
  | Tracked _ => 2
  | Analyzed _ _ => 1
  end + 4 * length (chunk wk).

(** The schedule that lets each task run to its end, one after the other. *)
Definition one_by_one (wks : list worker) : list nat :=
  concat (imap (λ i wk, replicate (steps_left wk) i) wks).

(** The wallet a worker holds between its claim and the return of
    [analyze_wallet]. *)
Definition pending (wk : worker) : list string :=
  match at_ wk with
  | Claimed w | Tracked w => [w]
  | AtLoopHead | Analyzed _ _ => []
  end.

(** The wallet a worker holds between its claim and the update of the
    counters. *)
Definition in_flight (wk : worker) : list string :=
  match at_ wk with
  | Claimed w | Tracked w | Analyzed w _ => [w]
  | AtLoopHead => []
  end.

(** What holds of the scanner object after any number of steps of a run
    started with the in-run set [scanned0] and [total] wallets handed to the
    tasks. *)
Record invariant (scanned0 : gset string) (total : nat) (st : state) : Prop := {
  inv_scanned :
    scanned_wallets st = scanned0 ∪ list_to_set (claimed (trace st));
  inv_nodup : NoDup (claimed (trace st));
  inv_fresh : ∀ w, w ∈ claimed (trace st) → w ∉ scanned0;
  inv_pending :
    evaluated (trace st) ++ concat (pending <$> workers st) ≡ₚ claimed (trace st);
  inv_skipped : total_skipped st = length (skips (trace st));
  inv_processed :
    total_processed st + length (concat (in_flight <$> workers st))
      = length (claimed (trace st));
  inv_total :
    length (claimed (trace st)) + length (skips (trace st))
      + length (concat (chunk <$> workers st)) = total;
  inv_skip_seen :
    always_before (λ pre e, ∀ i w, e = EvSkip i w → w ∈ scanned0 ∨ w ∈ claimed pre)
      (trace st);
}.

(** A wallet handed to the tasks is still to be taken by a worker, or is in
    the in-run set. *)
Definition covered (w : string) (st : state) : Prop :=
  (∃ j wk, workers st !! j = Some wk ∧ w ∈ chunk wk) ∨ w ∈ scanned_wallets st.

(** A wallet of the in-run set was there from the start, or is held by the
    worker that has just claimed it, or is in the ledger. *)
Definition recorded (scanned0 : gset string) (st : state) : Prop :=
  ∀ w, w ∈ scanned_wallets st →
    w ∈ scanned0
    ∨ (∃ j wk, workers st !! j = Some wk ∧ at_ wk = Claimed w)
    ∨ ∃ timestamp, ledger_line w timestamp ∈ ledger st.

(** *** The files and [run] *)

Record files := {
  input_file : option (list string);     (* owner_addresses.txt, by line *)
  ledger_file : list string;             (* scanned_wallets.txt, by line *)
  output_file : option (list result);    (* good_wallets.json *)
}.

(** [load_wallets] *)
Definition load_wallets (fs : files) : list string :=
  match input_file fs with
  | None => []
  | Some lines => strip <$> filter (λ line, is_empty (strip line) = false) lines
  end.

(** [load_existing_results] *)
Definition load_existing_results (fs : files) : gset string :=
  match output_file fs with
  | None => ∅
  | Some existing => list_to_set (wallet <$> existing)
  end.

(** [save_results] *)
Definition save_results (results : list result) (fs : files) : files :=
  match results with
  | [] => fs
  | _ =>
      let existing := default [] (output_file fs) in
      {| input_file := input_file fs;
         ledger_file := ledger_file fs;
         output_file := Some (existing ++ results) |}
  end.

(** What [run] leaves behind: the files and the scanner's counters. *)
Record summary := {
  processed : nat;
  passed : nat;
  skipped : nat;
}.

(** The state in which the tasks start, when [run] gets that far. *)
Definition start (num_pages : nat) (scanned : gset string)
    (wallet_chunks : list (list string)) (fs : files) : state :=
  {| scanned_wallets := scanned;
     ledger := ledger_file fs;
     results := [];
     total_processed := 0;
     total_passed := 0;
     total_skipped := 0;
     trace := [];
     workers := (λ t, {| page_id := t.1; chunk := t.2; at_ := AtLoopHead |})
                  <$> tasks num_pages wallet_chunks |}.

(** [PlaywrightWalletScanner.run] under a schedule for its tasks.  [None]:
    the schedule ends before every task has returned, so it is not a run. *)
Definition run (num_pages : nat) (sched : list nat) (fs : files)
    : option (py_result (files * summary)) :=
  let all_wallets := load_wallets fs in
  let nothing := Some (Returned (fs, {| processed := 0; passed := 0; skipped := 0 |})) in
  if negb (truthy all_wallets) then nothing else
  let scanned := load_existing_results fs ∪ load_scanned_wallets (ledger_file fs) in
  let unscanned := filter (λ w, w ∉ scanned) all_wallets in
  if negb (truthy unscanned) then nothing else
  match distribute_wallets num_pages unscanned with
  | Raised e => Some (Raised e)
  | Returned wallet_chunks =>
      let st := exec sched (start num_pages scanned wallet_chunks fs) in
      if finished st then
        let fs' := {| input_file := input_file fs;
                      ledger_file := ledger st;
                      output_file := output_file fs |} in
        Some (Returned (save_results (results st) fs',
                        {| processed := total_processed st;
                           passed := total_passed st;
                           skipped := total_skipped st |}))
      else None
  end.

End engine.
End with_lib.
End Scanner.

(** * playwright_multi_page_analyzer.py *)

Module Analyzer.

(** The dict returned by [PageWorker.analyze_wallet]. *)
Record result := {
  wallet : string;
  winrate : string;
  realizedPnL : string;
  status : string;
}.

(** [PlaywrightAnalyzerConfig] (the fields the engine reads) *)
Record config := {
  num_pages : nat;
  wallets : list string;
  min_winrate : float;
  min_realized_pnl : float;
}.

(** [PlaywrightMultiPageAnalyzer._distribute_wallets] *)
Definition _distribute_wallets {A} (wallets : list A) (num_pages : nat)
    : py_result (list (list A)) :=
  match wallets with
  | [] => Returned []
  | _ =>
      let actual_pages := num_pages `min` length wallets in
      place actual_pages (enumerate wallets) (replicate actual_pages [])
  end.

(** The task comprehension of [run]:
<<
    [self._page_worker_task(worker, chunk, progress_callback)
     for worker, chunk in zip(workers, wallet_chunks) if chunk]
>>
    with the workers numbered by [worker_id]. *)
Definition tasks {A} (num_workers : nat) (wallet_chunks : list (list A))
    : list (nat * list A) :=
  filter (λ t, truthy t.2) (zip (seq 0 num_workers) wallet_chunks).

Section with_lib.
Context `{PyLib}.

(** [PageWorker._extract_winrate] *)
Definition _extract_winrate (v : view) : option float :=
  match content_wr v with
  | Some html =>
      let fallback :=
        match re_search "Win Rate[^<]*<[^>]*>([\d\.]+)%" true html with
        | Some g =>
            match py_float g with
            | Some value => if in_0_100 value then Some value else None
            | None => None
            end
        | None => None
        end in
      match re_search "Win Rate</h3><p[^>]*text-2xl[^>]*>([\d\.]+)%" true html with
      | Some g =>
          match py_float g with
          | Some value => if in_0_100 value then Some value else fallback
          | None => None
          end
      | None => fallback
      end
  | None => None
  end.

(** [PageWorker._extract_realized_pnl] *)
Definition _extract_realized_pnl (v : view) : option float :=
  match content_pnl v with
  | Some html =>
      match re_search "Realized</p><p[^>]*>\$[\d,\.]+\s*<span[^>]*>\(([\d\.]+)%\)</span>" true html with
      | Some g => py_float g
      | None =>
          match re_search "Realized[^\$]*\$[\d,\.]+[^\(]*\(([\d\.]+)%\)" true html with
          | Some g => py_float g
          | None => None
          end
      end
  | None => None
  end.

(** What one attempt reads off the page: both metrics, when the navigation
    and the wait succeed and both extractors find a value. *)
Definition readings (v : view) : option (float * float) :=
  if goto_ok v && _wait_for_data_with_timeout v 30 then
    match _extract_winrate v, _extract_realized_pnl v with
    | Some winrate, Some realized_pnl => Some (winrate, realized_pnl)
    | _, _ => None
    end
  else None.

(** The dict built by [analyze_wallet] from two extracted values: status
    [passed] when both thresholds are met, [failed_criteria] otherwise. *)
Definition verdict (cfg : config) (w : string) (a b : float) : result :=
  {| wallet := w;
     winrate := py_repr a +:+ "%";
     realizedPnL := py_repr b +:+ "%";
     status := if fge a (min_winrate cfg) && fge b (min_realized_pnl cfg)
               then "passed" else "failed_criteria" |}.

(** The attempts after which [analyze_wallet] pauses and tries again: the
    navigation raised, or the data region appeared and a metric was not read. *)
Definition retried (v : view) : bool :=
  negb (goto_ok v) ||
  (_wait_for_data_with_timeout v 30 &&
   negb (bool_decide (is_Some (_extract_winrate v)) &&
         bool_decide (is_Some (_extract_realized_pnl v)))).




Section engine.
Variables (pg : page) (cfg : config) (clock : nat → Z).

(** [if attempt < max_retries - 1: sleep(2); continue  else: return None] *)
Definition retry_or_stop (attempt : nat) (again : option result * list event)
    : option result * list event :=
  if (attempt <? max_retries - 1)%nat then (again.1, EvSleep 2 :: again.2)
  else (None, []).

(** The body of [for attempt in range(max_retries)] in
    [PageWorker.analyze_wallet]; the second component lists the navigations
    and pauses made. *)
Fixpoint analyze_attempts (wallet_address : string) (attempts : list nat)
    : option result * list event :=
  match attempts with
  | [] => (None, [])
  | attempt :: rest =>
      let v := pg wallet_address attempt in
      let again := analyze_attempts wallet_address rest in
      let '(r, evs) :=
        if negb (goto_ok v) then retry_or_stop attempt again
        else if negb (_wait_for_data_with_timeout v 30) then (None, [])
        else
          let winrate := _extract_winrate v in
          let realized_pnl := _extract_realized_pnl v in
          let '(r, evs) :=
            match winrate, realized_pnl with
            | Some winrate, Some realized_pnl =>
                if fge winrate (min_winrate cfg) && fge realized_pnl (min_realized_pnl cfg)
                then (Some {| wallet := wallet_address;
                              winrate := py_repr winrate +:+ "%";
                              realizedPnL := py_repr realized_pnl +:+ "%";
                              status := "passed" |}, [])
                else (Some {| wallet := wallet_address;
                              winrate := py_repr winrate +:+ "%";
                              realizedPnL := py_repr realized_pnl +:+ "%";
                              status := "failed_criteria" |}, [])
            | _, _ =>
                (* an exception in the debug dump of the first attempt takes
                   the same way out: pause and next attempt *)
                retry_or_stop attempt again
            end in
          (r, EvSleep 10 :: evs) in
      (r, EvGoto wallet_address attempt :: evs)
  end.

(** [PageWorker.analyze_wallet] *)
Definition analyze_wallet (wallet_address : string) : option result * list event :=
  analyze_attempts wallet_address (seq 0 max_retries).

(** [result and result.get("status") == "passed"] *)
Definition is_passed (r : option result) : bool :=
  match r with
  | Some d => bool_decide (status d = "passed")
  | None => false
  end.

(** *** The worker loop [_page_worker_task] and the shared analyzer object *)

(** Where a worker stands in the body of [for wallet_address in wallet_chunk]. *)
Inductive phase :=
  | AtLoopHead
  | Analyzed (wallet : string) (r : option result)   (* [analyze_wallet] returned *)
  | Marked (wallet : string) (r : option result)     (* [save_scanned_wallet] done *)
  | Counted (wallet : string) (r : option result).   (* set and counters updated *)

Record worker := {
  worker_id : nat;
  chunk : list string;               (* wallets not yet taken from the chunk *)
  at_ : phase;
}.

Record state := {
  scanned_wallets_set : gset string; (* self.scanned_wallets_set *)
  ledger : list string;              (* scanned_wallets.txt *)
  results : list result;             (* self.results *)
  good_wallets : option (list result); (* good_wallets.json *)
  processed_total : nat;
  passed_total : nat;
  trace : list event;
  workers : list worker;
}.

(** One atomic action of the worker at position [i]; a worker that has left
    its loop stays where it is. *)
Definition step (i : nat) (st : state) : state :=
  match workers st !! i with
  | None => st
  | Some wk =>
      match at_ wk, chunk wk with
      | AtLoopHead, [] => st
      | AtLoopHead, w :: rest =>
          let '(r, evs) := analyze_wallet w in
          {| scanned_wallets_set := scanned_wallets_set st;
             ledger := ledger st;
             results := results st;
             good_wallets := good_wallets st;
             processed_total := processed_total st;
             passed_total := passed_total st;
             trace := trace st ++ evs ++ [EvReturn w (bool_decide (is_Some r))];
             workers := <[i := {| worker_id := worker_id wk; chunk := rest;
                                  at_ := Analyzed w r |}]> (workers st) |}
      | Analyzed w r, _ =>
          {| scanned_wallets_set := scanned_wallets_set st;
             ledger := save_scanned_wallet w (clock (length (trace st))) (ledger st);
             results := results st;
             good_wallets := good_wallets st;
             processed_total := processed_total st;
             passed_total := passed_total st;
             trace := trace st ++ [EvLedger w];
             workers := <[i := {| worker_id := worker_id wk; chunk := chunk wk;
                                  at_ := Marked w r |}]> (workers st) |}
      | Marked w r, _ =>
          {| scanned_wallets_set := scanned_wallets_set st ∪ {[w]};
             ledger := ledger st;
             results := results st;
             good_wallets := good_wallets st;
             processed_total := S (processed_total st);
             passed_total := if is_passed r then S (passed_total st) else passed_total st;
             trace := trace st;
             workers := <[i := {| worker_id := worker_id wk; chunk := chunk wk;
                                  at_ := Counted w r |}]> (workers st) |}
      | Counted w r, _ =>
          match r with
          | Some d =>
              if is_passed r then
                (* self.results.append(result); self._save_results() *)
                {| scanned_wallets_set := scanned_wallets_set st;
                   ledger := ledger st;
                   results := results st ++ [d];
                   good_wallets := Some (results st ++ [d]);
                   processed_total := processed_total st;
                   passed_total := passed_total st;
                   trace := trace st ++ [EvRecord (worker_id wk) w true;
                                         EvCheckpoint (length (results st ++ [d]));
                                         EvSleep 1];
                   workers := <[i := {| worker_id := worker_id wk; chunk := chunk wk;
                                        at_ := AtLoopHead |}]> (workers st) |}
              else
                {| scanned_wallets_set := scanned_wallets_set st;
                   ledger := ledger st;
                   results := results st;
                   good_wallets := good_wallets st;
                   processed_total := processed_total st;
                   passed_total := passed_total st;
                   trace := trace st ++ [EvRecord (worker_id wk) w false; EvSleep 1];
                   workers := <[i := {| worker_id := worker_id wk; chunk := chunk wk;
                                        at_ := AtLoopHead |}]> (workers st) |}
          | None =>
              {| scanned_wallets_set := scanned_wallets_set st;
                 ledger := ledger st;
                 results := results st;
                 good_wallets := good_wallets st;
                 processed_total := processed_total st;
                 passed_total := passed_total st;
                 trace := trace st ++ [EvRecord (worker_id wk) w false; EvSleep 1];
                 workers := <[i := {| worker_id := worker_id wk; chunk := chunk wk;
                                      at_ := AtLoopHead |}]> (workers st) |}
          end
      end
  end.

(** The tasks awaited by [asyncio.gather], run under a schedule. *)
Definition exec (sched : list nat) (st : state) : state :=
  foldl (λ st i, step i st) st sched.

Definition worker_done (wk : worker) : bool :=
  match at_ wk, chunk wk with AtLoopHead, [] => true | _, _ => false end.

(** Every task has returned. *)
Definition finished (st : state) : bool := forallb worker_done (workers st).

(** The wallet a worker holds after [analyze_wallet] has returned: before the
    ledger line is written, before the counters are updated, and, for a passed
    outcome, before it is appended to the results. *)
Definition awaiting_ledger (wk : worker) : list string :=
  match at_ wk with Analyzed w _ => [w] | _ => [] end.

Definition awaiting_count (wk : worker) : list string :=
  match at_ wk with Marked w _ => [w] | _ => [] end.

Definition awaiting_record (wk : worker) : list result :=
  match at_ wk with
  | Counted _ (Some d) => if is_passed (Some d) then [d] else []
  | _ => []
  end.

(** The wallet and outcome a worker holds between two wallets of its chunk. *)
Definition holding (wk : worker) : option (string * option result) :=
  match at_ wk with
  | AtLoopHead => None
  | Analyzed w r | Marked w r | Counted w r => Some (w, r)
  end.

(** The books of a run started with the ledger [ledger0] and the wallets
    [handed] to the tasks: each wallet is evaluated once per time it was
    handed, a ledger line follows each evaluation, the counters follow the
    ledger, and the results are the outcomes counted as passed. *)
Record books (ledger0 : list string) (handed : list string) (st : state) : Prop := {
  books_evaluated :
    evaluated (trace st) ++ concat (chunk <$> workers st) ≡ₚ handed;
  books_ledgered :
    ledgered (trace st) ++ concat (awaiting_ledger <$> workers st)
      ≡ₚ evaluated (trace st);
  books_ledger :
    ∃ timestamps, length timestamps = length (ledgered (trace st)) ∧
      ledger st = ledger0 ++ zip_with ledger_line (ledgered (trace st)) timestamps;
  books_processed :
    processed_total st + length (concat (awaiting_count <$> workers st))
      = length (ledgered (trace st));
  books_passed :
    passed_total st
      = length (results st) + length (concat (awaiting_record <$> workers st));
  books_le : passed_total st ≤ processed_total st;
  books_results :
    Forall (λ d, status d = "passed" ∧ wallet d ∈ evaluated (trace st)) (results st);
  books_holding :
    ∀ i wk w r, workers st !! i = Some wk → holding wk = Some (w, r) →
      w ∈ evaluated (trace st) ∧ ∀ d, r = Some d → wallet d = w;
}.

(** The number of steps a worker takes before its task returns. *)
Definition steps_left (wk : worker) : nat :=
  match at_ wk with
  | AtLoopHead => 0
  | Analyzed _ _ => 3
  | Marked _ _ => 2
  | Counted _ _ => 1
  end + 4 * length (chunk wk).

(** The schedule that lets each task run to its end, one after the other. *)
Definition one_by_one (wks : list worker) : list nat :=
  concat (imap (λ i wk, replicate (steps_left wk) i) wks).


(** A wallet handed to the tasks is still to be taken by a worker, or is
    held by a worker that has analyzed it, or is in the ledger. *)
Definition covered (w : string) (st : state) : Prop :=
  (∃ j wk, workers st !! j = Some wk ∧ (w ∈ chunk wk ∨ ∃ r, at_ wk = Analyzed w r))
  ∨ ∃ timestamp, ledger_line w timestamp ∈ ledger st.

(** *** The files and [run] *)

Record files := {
  ledger_file : list string;             (* scanned_wallets.txt, by line *)
  output_file : option (list result);    (* <output_dir>/good_wallets.json *)
}.

(** [_load_unscanned_wallets] *)
Definition _load_unscanned_wallets (fs : files) : gset string * list string :=
  let scanned := load_scanned_wallets (ledger_file fs) in
  (scanned, filter (λ w, w ∉ scanned) (wallets cfg)).

(** The dict returned by [run]. *)
Record summary := {
  success : bool;
  total_scanned : nat;
  total_passed : nat;
  good_wallets_found : list result;
}.

(** The state in which the tasks start, when [run] gets that far. *)
Definition start (scanned : gset string) (wallet_chunks : list (list string))
    (fs : files) : state :=
  {| scanned_wallets_set := scanned;
     ledger := ledger_file fs;
     results := [];
     good_wallets := output_file fs;
     processed_total := 0;
     passed_total := 0;
     trace := [];
     workers := (λ t, {| worker_id := t.1; chunk := t.2; at_ := AtLoopHead |})
                  <$> tasks (num_pages cfg) wallet_chunks |}.

(** [PlaywrightMultiPageAnalyzer.run] under a schedule for its tasks.  [None]:
    the schedule ends before every task has returned, so it is not a run. *)
Definition run (sched : list nat) (fs : files) : option (files * summary) :=
  let '(scanned, unscanned_wallets) := _load_unscanned_wallets fs in
  if negb (truthy unscanned_wallets) then
    Some (fs, {| success := true; total_scanned := 0; total_passed := 0;
                 good_wallets_found := [] |})
  else
    match _distribute_wallets unscanned_wallets (num_pages cfg) with
    | Raised e =>
        (* except Exception: the counters are still at their initial values *)
        Some (fs, {| success := false; total_scanned := 0; total_passed := 0;
                     good_wallets_found := [] |})
    | Returned wallet_chunks =>
        let st := exec sched (start scanned wallet_chunks fs) in
        if finished st then
          (* self._save_results() *)
          Some ({| ledger_file := ledger st; output_file := Some (results st) |},
                {| success := true;
                   total_scanned := processed_total st;
                   total_passed := passed_total st;
                   good_wallets_found := results st |})
        else None
    end.

End engine.
End with_lib.
End Analyzer.

(** ** The distributors for any [int] page count

    [Scanner.distribute_wallets] and [Analyzer._distribute_wallets] above
    take the page count as a natural number.  Nothing in the two methods
    keeps it from being negative: here they are for any [int]. *)

Module AnyPages.

(** [idx % n] for ints: the result has the sign of [n]; [n = 0] raises. *)
Definition py_mod (a b : Z) : py_result Z :=
  if decide (b = 0%Z) then Raised ZeroDivisionError else Returned (a `mod` b)%Z.

(** The position that the int index [k] names in a list of [len] elements:
    a negative index counts from the end, an index outside
    [-len .. len - 1] raises. *)
Definition position (len : nat) (k : Z) : py_result nat :=
  if decide (0 ≤ k < Z.of_nat len)%Z then Returned (Z.to_nat k)
  else if decide (- Z.of_nat len ≤ k < 0)%Z then Returned (Z.to_nat (Z.of_nat len + k))
  else Raised IndexError.

(** The loop shared by both distributors:
<<
    for idx, wallet in enumerate(wallets):
        chunks[idx % n].append(wallet)
>> *)
Fixpoint place {A} (n : Z) (items : list (nat * A)) (chunks : list (list A))
    : py_result (list (list A)) :=
  match items with
  | [] => Returned chunks
  | (idx, wallet) :: rest =>
      k ← py_mod (Z.of_nat idx) n;
      p ← position (length chunks) k;
      chunks' ← append_at chunks p wallet;
      place n rest chunks'
  end.

(** [[[] for _ in range(n)]]: no chunk when [n] is negative. *)
Definition empty_chunks {A} (n : Z) : list (list A) := replicate (Z.to_nat n) [].

(** [PlaywrightWalletScanner.distribute_wallets] *)
Definition distribute_wallets {A} (num_pages : Z) (wallets : list A)
    : py_result (list (list A)) :=
  place num_pages (enumerate wallets) (empty_chunks num_pages).

(** [PlaywrightMultiPageAnalyzer._distribute_wallets] *)
Definition _distribute_wallets {A} (wallets : list A) (num_pages : Z)
    : py_result (list (list A)) :=
  match wallets with
  | [] => Returned []
  | _ =>
      let actual_pages := (num_pages `min` Z.of_nat (length wallets))%Z in
      place actual_pages (enumerate wallets) (empty_chunks actual_pages)
  end.

End AnyPages.

(** ** Runs on the text of the ledger

    The worker loops above keep [scanned_wallets.txt] by line.  On the file
    itself a run reads the lines of the text, as [for line in f] gives them,
    and each call of [save_scanned_wallet] appends its line and a line feed
    to the text, whatever the text ends with. *)

(** The last character is a line break: a line feed, or a carriage return,
    which is read as one. *)
Fixpoint ends_with_break (s : string) : bool :=
  match s with
  | EmptyString => false
  | String c s' =>
      match s' with
      | EmptyString => bool_decide (c = LF ∨ c = CR)
      | String _ _ => ends_with_break s'
      end
  end.

(** The text is empty or ends in a line break: what is appended starts a
    line of its own. *)
Definition last_line_complete (s : string) : bool := is_empty s || ends_with_break s.

(** An address that its ledger line gives back: no separator and no line
    break in it, and no white space in front of it. *)
Definition ledger_safe (w : string) : bool :=
  negb (has_char "|" w) && negb (has_char LF w) && negb (has_char CR w)
  && bool_decide (lstrip w = w).

(** What the calls of [save_scanned_wallet] that added [lines] wrote. *)
Definition written (lines : list string) : string :=
  foldr (λ line text, line +:+ newline +:+ text) "" lines.

Module OnText.
Section with_lib.
Context `{PyLib} (pg : page) (clock : nat → Z).

(** [PlaywrightMultiPageAnalyzer.run] on the text of the ledger: what it
    returns, with the text of the ledger and the result file it leaves. *)
Definition analyzer_run (cfg : Analyzer.config) (sched : list nat)
    (ledger_text : string) (output : option (list Analyzer.result))
    : option (string * option (list Analyzer.result) * Analyzer.summary) :=
  let before := readlines ledger_text in
  match Analyzer.run pg cfg clock sched
          {| Analyzer.ledger_file := before; Analyzer.output_file := output |} with
  | Some (fs', s) =>
      Some (ledger_text +:+ written (drop (length before) (Analyzer.ledger_file fs')),
            Analyzer.output_file fs', s)
  | None => None
  end.

(** [PlaywrightWalletScanner.run] on the text of the ledger. *)
Definition scanner_run (min_winrate min_pnl : float) (num_pages : nat)
    (sched : list nat) (input : option (list string)) (ledger_text : string)
    (output : option (list Scanner.result))
    : option (py_result (string * option (list Scanner.result) * Scanner.summary)) :=
  let before := readlines ledger_text in
  match Scanner.run pg min_winrate min_pnl clock num_pages sched
          {| Scanner.input_file := input; Scanner.ledger_file := before;
             Scanner.output_file := output |} with
  | Some (Returned (fs', s)) =>
      Some (Returned
              (ledger_text +:+ written (drop (length before) (Scanner.ledger_file fs')),
               Scanner.output_file fs', s))
  | Some (Raised e) => Some (Raised e)
  | None => None
  end.

End with_lib.
End OnText.

(** * Example pages

    The library functions tabulated on the texts of the example pages: each
    entry is what Python's [re.search(...).group(1)], [float] and [f"{x}"]
    give on that text. *)

Module Demo.

Fixpoint assoc {K V} `{EqDecision K} (k : K) (table : list (K * V)) : option V :=
  match table with
  | [] => None
  | (k', v) :: table' => if decide (k = k') then Some v else assoc k table'
  end.

Fixpoint numeral_of (x : float) (table : list (string * float)) : string :=
  match table with
  | [] => ""
  | (s, y) :: table' => if PrimFloat.eqb x y then s else numeral_of x table'
  end.

Definition searches : list (string * string * string) :=
  [ (* scanner, locator texts *)
    ("([\d\.,]+)", "75.0%", "75.0");
    ("([\d\.,]+)", "60.0%", "60.0");
    ("([\d\.,]+)", "70.0%", "70.0");
    ("\(([\d\.,]+)%\)", "$1,200 (120.0%)", "120.0");
    ("\(([\d\.,]+)%\)", "$1,500 (150.0%)", "150.0");
    ("\(([\d\.,]+)%\)", "$1,000 (100.0%)", "100.0");
    (* analyzer, page source *)
    ("Win Rate</h3><p[^>]*text-2xl[^>]*>([\d\.]+)%",
     "<h3>Win Rate</h3><p class='text-2xl'>75.0%</p><p>Realized</p><p>$1,200 <span>(120.0%)</span></p>",
     "75.0");
    ("Realized</p><p[^>]*>\$[\d,\.]+\s*<span[^>]*>\(([\d\.]+)%\)</span>",
     "<h3>Win Rate</h3><p class='text-2xl'>75.0%</p><p>Realized</p><p>$1,200 <span>(120.0%)</span></p>",
     "120.0");
    ("Win Rate</h3><p[^>]*text-2xl[^>]*>([\d\.]+)%",
     "<h3>Win Rate</h3><p class='text-2xl'>60.0%</p><p>Realized</p><p>$1,500 <span>(150.0%)</span></p>",
     "60.0");
    ("Realized</p><p[^>]*>\$[\d,\.]+\s*<span[^>]*>\(([\d\.]+)%\)</span>",
     "<h3>Win Rate</h3><p class='text-2xl'>60.0%</p><p>Realized</p><p>$1,500 <span>(150.0%)</span></p>",
     "150.0");
    ("Win Rate</h3><p[^>]*text-2xl[^>]*>([\d\.]+)%",
     "<h3>Win Rate</h3><p class='text-2xl'>70.0%</p><p>Realized</p><p>$1,000 <span>(100.0%)</span></p>",
     "70.0");
    ("Realized</p><p[^>]*>\$[\d,\.]+\s*<span[^>]*>\(([\d\.]+)%\)</span>",
     "<h3>Win Rate</h3><p class='text-2xl'>70.0%</p><p>Realized</p><p>$1,000 <span>(100.0%)</span></p>",
     "100.0") ].

Definition numerals : list (string * float) :=
  [ ("60.0", 60%float); ("70.0", 70%float); ("75.0", 75%float);
    ("100.0", 100%float); ("120.0", 120%float); ("150.0", 150%float) ].

#[global] Instance lib : PyLib := {|
  re_search pattern ignorecase text := assoc (pattern, text) searches;
  py_float s := assoc s numerals;
  py_repr x := numeral_of x numerals;
|}.

(** A page on which every attempt renders the metrics region showing the
    given win rate and realized PnL. *)
Definition showing (wr pnl dollars : string) : page := λ wallet attempt,
  let html := "<h3>Win Rate</h3><p class='text-2xl'>" +:+ wr +:+
              "%</p><p>Realized</p><p>$" +:+ dollars +:+ " <span>(" +:+ pnl +:+
              "%)</span></p>" in
  {| goto_ok := true;
     selector := λ _, Found;
     content_wait := Some html;
     wr_text := Some (wr +:+ "%");
     content_wr := Some html;
     pnl_text := Some ("$" +:+ dollars +:+ " (" +:+ pnl +:+ "%)");
     content_pnl := Some html;
     now_iso := "2025-10-02T12:00:00" |}.

(** Scenario A: win rate 75.0, realized PnL 120.0. *)
Definition scenario_a : page := showing "75.0" "120.0" "1,200".
(** Scenario B: win rate 60.0, realized PnL 150.0. *)
Definition scenario_b : page := showing "60.0" "150.0" "1,500".
(** Both metrics exactly on the default thresholds 70 and 100. *)
Definition on_threshold : page := showing "70.0" "100.0" "1,000".

(** Scenario D: the wait times out on every attempt and the page shows the
    "no data" marker. *)
Definition no_data : page := λ wallet attempt,
  {| goto_ok := true;
     selector := λ _, TimedOut;
     content_wait := Some "<div>No data for this wallet</div>";
     wr_text := None; content_wr := None;
     pnl_text := None; content_pnl := None;
     now_iso := "2025-10-02T12:00:00" |}.

(** A slow page: the first wait times out with neither the metrics region nor
    the marker, later attempts render scenario A. *)
Definition slow : page := λ wallet attempt,
  match attempt with
  | 0 => {| goto_ok := true;
            selector := λ _, TimedOut;
            content_wait := Some "<div>Loading...</div>";
            wr_text := None; content_wr := None;
            pnl_text := None; content_pnl := None;
            now_iso := "2025-10-02T12:00:00" |}
  | _ => scenario_a wallet attempt
  end.

(** The default thresholds: [MIN_WINRATE = 70.0], [MIN_REALIZED_PNL_USD = 100.0]. *)
Definition defaults (num_pages : nat) (wallets : list string) : Analyzer.config :=
  {| Analyzer.num_pages := num_pages; Analyzer.wallets := wallets;
     Analyzer.min_winrate := 70; Analyzer.min_realized_pnl := 100 |}.

Definition clock : nat → Z := λ n, (1759406400 + Z.of_nat n)%Z.


Definition split_html : string :=
  "<h3>Win Rate</h3><p>50%</p><p class='font-cousine text-2xl'>150%</p>".




Definition split : view :=
  {| goto_ok := true; selector := λ _, Found; content_wait := Some split_html;
     wr_text := Some "150%"; content_wr := Some split_html;
     pnl_text := None; content_pnl := Some split_html;
     now_iso := "2025-10-02T12:00:00" |}.



(** No ledger and no result file yet. *)
(** A candidate file that names [a] twice, with a padded and a blank line. *)
Definition twice_listed : Scanner.files :=
  {| Scanner.input_file := Some ["a"; "b "; ""; "a"];
     Scanner.ledger_file := []; Scanner.output_file := None |}.

Definition fresh : Analyzer.files :=
  {| Analyzer.ledger_file := []; Analyzer.output_file := None |}.

End Demo.

(** * orchestrator.py *)

Module Orchestrator.

(** ** Holders of a token

    A holder as the holders service lists it and as [holders.json] stores it:
    a JSON object whose [ownerAddress], when present and not null, is a
    string.  The other fields are passed on as they come; [V] is the type of
    their values and [None] stands for a missing field or [null]. *)

Section holders.
Context {V : Type}.

Record holder := {
  ownerAddress : option string;
  balance : option V;
  balanceFormatted : option V;
  usdValue : option V;
  percentageRelativeToTotalSupply : option V;
}.

(** [x.get('ownerAddress')] when it is truthy. *)
Definition owner_of (h : holder) : option string :=
  match ownerAddress h with
  | Some owner_address => if is_empty owner_address then None else Some owner_address
  | None => None
  end.

(** The loop of [get_token_holders] over [data['result']]:
<<
    for holder in holders_data:
        owner_address = holder.get('ownerAddress')
        if owner_address and owner_address not in seen_holders:
            processed_holders.append({...})
            seen_holders.add(owner_address)
>> *)
Fixpoint process_holders (seen_holders : gset string) (holders_data : list holder)
    : list holder :=
  match holders_data with
  | [] => []
  | h :: rest =>
      match ownerAddress h with
      | Some owner_address =>
          if negb (is_empty owner_address) && bool_decide (owner_address ∉ seen_holders)
          then {| ownerAddress := Some owner_address;
                  balance := balance h;
                  balanceFormatted := balanceFormatted h;
                  usdValue := usdValue h;
                  percentageRelativeToTotalSupply := percentageRelativeToTotalSupply h |}
               :: process_holders (seen_holders ∪ {[ owner_address ]}) rest
          else process_holders seen_holders rest
      | None => process_holders seen_holders rest
      end
  end.

(** ** The address files *)

(** [holders_data]: the holders stored for each token address.  The order of
    the keys of the dict, which only shows in the layout of [holders.json],
    is not modelled. *)
Definition holders_of : Type := gmap string (list holder).

(** [all_holder_addresses] of [save_holders]. *)
Definition all_holder_addresses (holders_data : holders_of) : gset string :=
  list_to_set (omap owner_of (concat (map_to_list holders_data).*2)).

End holders.

Arguments holder : clear implicits.
Arguments holders_of : clear implicits.

(** ** JSON values

    What [response.json()] and [json.load] give: [None], a [bool], a number
    ([int] or [float]), a [str], a [list], or a [dict] with [str] keys, here
    by its items.  [N] is the type of Python's numbers, which are outside the
    repository: [PyNumber] gives what the code asks of them. *)

Inductive json {N : Type} :=
  | JNull
  | JBool (b : bool)
  | JNumber (x : N)
  | JString (s : string)
  | JArray (items : list json)
  | JObject (fields : list (string * json)).
Arguments json : clear implicits.

Class PyNumber (N : Type) := {
  num_truthy : N → bool;            (* bool(x) *)
  num_same : N → N → bool;          (* x and y are one element of a set *)
  num_of_bool : bool → N;           (* int(b) *)
}.

(** The exceptions that no [except] clause of the orchestrator catches. *)
Inductive exn := TypeError | AttributeError | KeyError.

Inductive outcome (A : Type) :=
  | Done (a : A)
  | Escaped (e : exn).
Arguments Done {A} a.
Arguments Escaped {A} e.

#[global] Instance outcome_ret : MRet outcome := λ A a, Done a.
#[global] Instance outcome_bind : MBind outcome := λ A B f m,
  match m with Done a => f a | Escaped e => Escaped e end.

Section json.
Context {N : Type} `{PyNumber N}.
Implicit Types (v : json N) (fields : list (string * json N)).

(** [key in d] for a dict. *)
Definition has_key (key : string) fields : bool :=
  existsb (λ item, bool_decide (item.1 = key)) fields.

(** [d.get(key)]: [None] for a missing key. *)
Fixpoint get (key : string) fields : json N :=
  match fields with
  | [] => JNull
  | (k, v) :: rest => if decide (k = key) then v else get key rest
  end.

(** [bool(v)] *)
Definition json_truthy v : bool :=
  match v with
  | JNull => false
  | JBool b => b
  | JNumber x => num_truthy x
  | JString s => negb (is_empty s)
  | JArray items => truthy items
  | JObject fields => truthy fields
  end.

(** [hash(v)] does not raise. *)
Definition hashable v : bool :=
  match v with
  | JArray _ | JObject _ => false
  | _ => true
  end.

(** Two hashable values are one element of a set: equal strings, or numbers
    that are the same, a [bool] counting as the number it is. *)
Definition same_key v1 v2 : bool :=
  match v1, v2 with
  | JNull, JNull => true
  | JString s1, JString s2 => bool_decide (s1 = s2)
  | JBool b1, JBool b2 => bool_decide (b1 = b2)
  | JBool b, JNumber x | JNumber x, JBool b => num_same (num_of_bool b) x
  | JNumber x, JNumber y => num_same x y
  | _, _ => false
  end.

(** [text in v] for the [str] [text]: a key of a dict, an element of a list,
    a part of a [str]; the other values raise. *)
Definition contains_text (text : string) v : outcome bool :=
  match v with
  | JObject fields => Done (has_key text fields)
  | JArray items => Done (existsb (same_key (JString text)) items)
  | JString s => Done (contains text s)
  | JNull | JBool _ | JNumber _ => Escaped TypeError
  end.

(** [v[text]] for the [str] [text]: only a dict can be asked, and raises
    [KeyError] for a missing key. *)
Definition subscript (text : string) v : outcome (json N) :=
  match v with
  | JObject fields => if has_key text fields then Done (get text fields) else Escaped KeyError
  | _ => Escaped TypeError
  end.

(** What [for x in v] goes through: the elements of a list, the keys of a
    dict, the characters of a [str]; the other values raise. *)
Definition iterate v : outcome (list (json N)) :=
  match v with
  | JArray items => Done items
  | JObject fields => Done (JString <$> fields.*1)
  | JString s => Done ((λ c, JString (String c "")) <$> list_ascii_of_string s)
  | JNull | JBool _ | JNumber _ => Escaped TypeError
  end.

(** The dict appended to [processed_holders]. *)
Definition processed fields (owner_address : json N) : json N :=
  JObject [("ownerAddress", owner_address);
           ("balance", get "balance" fields);
           ("balanceFormatted", get "balanceFormatted" fields);
           ("usdValue", get "usdValue" fields);
           ("percentageRelativeToTotalSupply",
            get "percentageRelativeToTotalSupply" fields)].

(** The loop of [get_token_holders] over the items of [data['result']]:
<<
    for holder in holders_data:
        owner_address = holder.get('ownerAddress')
        if owner_address and owner_address not in seen_holders:
            processed_holders.append({...})
            seen_holders.add(owner_address)
>>
    Only a dict has [get], and asking a set for a list or a dict raises. *)
Fixpoint process_items (seen_holders : list (json N)) (items : list (json N))
    : outcome (list (json N)) :=
  match items with
  | [] => Done []
  | JObject fields :: rest =>
      let owner_address := get "ownerAddress" fields in
      if json_truthy owner_address then
        if hashable owner_address then
          if existsb (same_key owner_address) seen_holders
          then process_items seen_holders rest
          else later ← process_items (owner_address :: seen_holders) rest;
               Done (processed fields owner_address :: later)
        else Escaped TypeError
      else process_items seen_holders rest
  | _ :: rest => Escaped AttributeError
  end.

(** What [get_token_holders] does with the decoded body:
<<
    if 'result' not in data: return None
    holders_data = data['result']
    ... for holder in holders_data: ...
    return processed_holders
>> *)
Definition read_body (data : json N) : outcome (option (list (json N))) :=
  match contains_text "result" data with
  | Escaped e => Escaped e
  | Done false => Done None
  | Done true =>
      holders_data ← subscript "result" data;
      items ← iterate holders_data;
      processed_holders ← process_items [] items;
      Done (Some processed_holders)
  end.

(** ** Requests to the holders service *)

(** What one [requests.get] and the reading of its answer come to, by the
    branch of the [try] statement that handles it.  [RequestFailed] is any
    [RequestException] other than a timeout, such as the one raised by
    [raise_for_status]; [NotJson] is a [json.JSONDecodeError] that is not a
    [RequestException]; [Body] is a body that [response.json()] decodes. *)
Inductive answer :=
  | RateLimited                  (* status code 429 *)
  | Timeout                      (* except requests.exceptions.Timeout *)
  | RequestFailed                (* except requests.exceptions.RequestException *)
  | NotJson                      (* except json.JSONDecodeError *)
  | Body (data : json N).

Inductive call :=
  | Request (attempt : nat)
  | Backoff (attempt : nat).      (* time.sleep(2 ** attempt + random.uniform(0, 1)) *)

(** What a call of [get_token_holders] comes to: the list it returns, or
    [None], or the exception that leaves it; and the calls it made. *)
Definition fetched : Type := outcome (option (list (json N))) * list call.

(** [if attempt < self.max_retries: time.sleep(wait_time)  else: return None] *)
Definition wait_or_give_up (max_retries : Z) (attempt : nat) (again : fetched)
    : fetched :=
  if (Z.of_nat attempt <? max_retries)%Z then (again.1, Backoff attempt :: again.2)
  else (Done None, []).

(** The body of [for attempt in range(self.max_retries + 1)] in
    [get_token_holders]; after the loop comes [return None]. *)
Fixpoint holders_attempts (answers : nat → answer) (max_retries : Z)
    (attempts : list nat) : fetched :=
  match attempts with
  | [] => (Done None, [])
  | attempt :: rest =>
      let again := holders_attempts answers max_retries rest in
      let '(r, calls) :=
        match answers attempt with
        | RateLimited => (again.1, Backoff attempt :: again.2)
        | Timeout | RequestFailed => wait_or_give_up max_retries attempt again
        | NotJson => (Done None, [])
        | Body data => (read_body data, [])
        end in
      (r, Request attempt :: calls)
  end.

(** [SolanaTokenOrchestrator.get_token_holders] for one token, [answers]
    giving the answer to each attempt. *)
Definition get_token_holders (answers : nat → answer) (max_retries : Z) : fetched :=
  holders_attempts answers max_retries (seq 0 (Z.to_nat (max_retries + 1))).

(** The answers after which [get_token_holders] asks again, when it has an
    attempt left. *)
Definition asks_again (a : answer) : bool :=
  match a with
  | RateLimited | Timeout | RequestFailed => true
  | NotJson | Body _ => false
  end.

Definition requests (calls : list call) : list nat :=
  omap (λ c, match c with Request attempt => Some attempt | _ => None end) calls.

Definition backoffs (calls : list call) : list nat :=
  omap (λ c, match c with Backoff attempt => Some attempt | _ => None end) calls.

(** *** Holders as records

    A holder of a decoded body as the record [holder] above, and back: a
    field that is missing or [null] is [None]. *)
Definition as_field v : option (json N) :=
  match v with JNull => None | _ => Some v end.

Definition of_field (f : option (json N)) : json N := default JNull f.

Definition holder_of_json fields : holder (json N) :=
  {| ownerAddress := match get "ownerAddress" fields with
                     | JString s => Some s
                     | _ => None
                     end;
     balance := as_field (get "balance" fields);
     balanceFormatted := as_field (get "balanceFormatted" fields);
     usdValue := as_field (get "usdValue" fields);
     percentageRelativeToTotalSupply :=
       as_field (get "percentageRelativeToTotalSupply" fields) |}.

Definition json_of_holder (h : holder (json N)) : json N :=
  JObject [("ownerAddress", match ownerAddress h with
                            | Some s => JString s
                            | None => JNull
                            end);
           ("balance", of_field (balance h));
           ("balanceFormatted", of_field (balanceFormatted h));
           ("usdValue", of_field (usdValue h));
           ("percentageRelativeToTotalSupply",
            of_field (percentageRelativeToTotalSupply h))].

(** The owner address of the item is a [str], or [null], or missing. *)
Definition textual_owner fields : bool :=
  match get "ownerAddress" fields with
  | JString _ | JNull => true
  | _ => false
  end.

(** ** Collecting the holders of the tokens

    Steps 2 and 3 of [run_complete_workflow].  [holders_data] is the dict
    that [holders.json] holds, by its items in the order of the dict: each
    key once, a new key at the end.  Its values are any values, and so are
    the tokens of the list [tokens].  A [holders.json] that holds another
    value than a dict is not covered. *)

(** [owners.add(v)] for the set [owners], kept by its elements. *)
Definition add_to (owners : list (json N)) v : outcome (list (json N)) :=
  if hashable v
  then Done (if existsb (same_key v) owners then owners else owners ++ [v])
  else Escaped TypeError.

(** The inner loop of [save_holders] over the holders of one token:
<<
    for holder in token_holders:
        if 'ownerAddress' in holder and holder['ownerAddress']:
            all_holder_addresses.add(holder['ownerAddress'])
>> *)
Fixpoint addresses_of_token (all_holder_addresses : list (json N))
    (token_holders : list (json N)) : outcome (list (json N)) :=
  match token_holders with
  | [] => Done all_holder_addresses
  | holder :: rest =>
      found ← contains_text "ownerAddress" holder;
      if (found : bool) then
        owner_address ← subscript "ownerAddress" holder;
        if json_truthy owner_address then
          all_holder_addresses ← add_to all_holder_addresses owner_address;
          addresses_of_token all_holder_addresses rest
        else addresses_of_token all_holder_addresses rest
      else addresses_of_token all_holder_addresses rest
  end.

(** The outer loop, [for token_holders in holders_data.values()]. *)
Fixpoint addresses_of_all (all_holder_addresses : list (json N))
    (values : list (json N)) : outcome (list (json N)) :=
  match values with
  | [] => Done all_holder_addresses
  | token_holders :: rest =>
      holders ← iterate token_holders;
      all_holder_addresses ← addresses_of_token all_holder_addresses holders;
      addresses_of_all all_holder_addresses rest
  end.

Definition is_text (v : json N) : bool :=
  match v with JString _ => true | _ => false end.

Definition is_number (v : json N) : bool :=
  match v with JNumber _ | JBool _ => true | _ => false end.

(** [sorted(all_holder_addresses)] does not raise: the addresses are all
    [str], or all numbers, a [str] not being compared with a number. *)
Definition sortable (all_holder_addresses : list (json N)) : bool :=
  forallb is_text all_holder_addresses || forallb is_number all_holder_addresses.

(** The generator of the progress lines:
<<
    set(h['ownerAddress'] for t in holders_data.values() for h in t)
>> *)
Fixpoint owners_of_token (owners : list (json N)) (token_holders : list (json N))
    : outcome (list (json N)) :=
  match token_holders with
  | [] => Done owners
  | h :: rest =>
      owner_address ← subscript "ownerAddress" h;
      owners ← add_to owners owner_address;
      owners_of_token owners rest
  end.

Fixpoint owners_of_all (owners : list (json N)) (values : list (json N))
    : outcome (list (json N)) :=
  match values with
  | [] => Done owners
  | t :: rest =>
      holders ← iterate t;
      owners ← owners_of_token owners holders;
      owners_of_all owners rest
  end.

(** The number of wallets that a progress line prints. *)
Definition total_wallets (holders_data : list (string * json N)) : outcome nat :=
  owners ← owners_of_all [] holders_data.*2;
  Done (length owners).

(** What the collecting steps do that can be seen from outside: a call of
    [get_token_holders] for the token at an index; [json.dump] of
    [holders_data] to [holders.json] in [save_holders]; and the return of
    [save_holders], with the address files written. *)
Inductive collected :=
  | Fetched (i : nat) (token_address : string)
  | Dumped (holders_data : list (string * json N))
  | Saved (holders_data : list (string * json N)).

(** What the collecting steps come to: the dict at their end, or the
    exception that leaves them; and what they did. *)
Definition collecting : Type := outcome (list (string * json N)) * list collected.

(** [save_holders] on the dict: the dump comes first, then the addresses
    are gathered and sorted. *)
Definition save_json_holders (holders_data : list (string * json N))
    : outcome unit * list collected :=
  match addresses_of_all [] holders_data.*2 with
  | Done all_holder_addresses =>
      if sortable all_holder_addresses
      then (Done (), [Dumped holders_data; Saved holders_data])
      else (Escaped TypeError, [Dumped holders_data])
  | Escaped e => (Escaped e, [Dumped holders_data])
  end.

(** [save_holders] and the progress line that follows it. *)
Definition save_and_count (holders_data : list (string * json N))
    : outcome unit * list collected :=
  let '(saved, events) := save_json_holders holders_data in
  match saved with
  | Done _ =>
      match total_wallets holders_data with
      | Done _ => (Done (), events)
      | Escaped e => (Escaped e, events)
      end
  | Escaped e => (Escaped e, events)
  end.

(** The loop of [run_complete_workflow] over the tokens from index [i] on:
<<
    for i in range(start_index, len(tokens)):
        token = tokens[i]
        token_address = token.get('tokenAddress')
        if not token_address: continue
        if token_address in holders_data:
            print(... token_address[:8] ...)
            continue
        print(... token_address[:8] ...)
        holders = self.get_token_holders(token_address)
        if holders is not None:
            holders_data[token_address] = holders
            self.save_holders(holders_data)
            print(... len(set(h['ownerAddress'] ...)) ...)
>>
    Only a dict has [get].  An address that is a non-empty list or dict
    cannot be looked up in a dict, and one that is a number is in no dict of
    [str] keys and has no slice: both are a [TypeError] before any request.
    [answers i] gives the answers to the attempts made for the token at
    index [i]. *)
Fixpoint collect_from (answers : nat → nat → answer) (max_retries : Z)
    (i : nat) (tokens : list (json N)) (holders_data : list (string * json N))
    : collecting :=
  match tokens with
  | [] => (Done holders_data, [])
  | JObject token_fields :: rest =>
      let token_address := get "tokenAddress" token_fields in
      if json_truthy token_address then
        match token_address with
        | JString token_address =>
            if has_key token_address holders_data
            then collect_from answers max_retries (S i) rest holders_data
            else
              match (get_token_holders (answers i) max_retries).1 with
              | Done (Some holders) =>
                  let holders_data := holders_data ++ [(token_address, JArray holders)] in
                  let '(saved, events) := save_and_count holders_data in
                  match saved with
                  | Done _ =>
                      let later :=
                        collect_from answers max_retries (S i) rest holders_data in
                      (later.1, Fetched i token_address :: events ++ later.2)
                  | Escaped e => (Escaped e, Fetched i token_address :: events)
                  end
              | Done None =>
                  let later := collect_from answers max_retries (S i) rest holders_data in
                  (later.1, Fetched i token_address :: later.2)
              | Escaped e => (Escaped e, [Fetched i token_address])
              end
        | _ => (Escaped TypeError, [])
        end
      else collect_from answers max_retries (S i) rest holders_data
  | _ :: rest => (Escaped AttributeError, [])
  end.

(** [start_index] of [run_complete_workflow]. *)
Definition start_index (resume_from : Z) : nat :=
  if (0 <? resume_from)%Z then Z.to_nat (resume_from - 1) else 0.

(** Steps 2 and 3 of [run_complete_workflow]: the loop from [start_index],
    the final [save_holders] and the line that reports the totals. *)
Definition collect_holders (answers : nat → nat → answer) (max_retries : Z)
    (resume_from : Z) (tokens : list (json N))
    (holders_data : list (string * json N)) : collecting :=
  let start_index := start_index resume_from in
  let '(looped, events) :=
    collect_from answers max_retries start_index (drop start_index tokens)
      holders_data in
  match looped with
  | Done holders_data =>
      let '(saved, saving) := save_and_count holders_data in
      match saved with
      | Done _ => (Done holders_data, events ++ saving)
      | Escaped e => (Escaped e, events ++ saving)
      end
  | Escaped e => (Escaped e, events)
  end.

(** The dict shows in a dump, in a finished save, or as the dict at the
    end. *)
Definition shown (out : collecting) (saved : list (string * json N)) : Prop :=
  Dumped saved ∈ out.2 ∨ Saved saved ∈ out.2 ∨ out.1 = Done saved.

(** A stored value that no save and no progress line stumbles over: a list
    of dicts, each with an owner address that is a [str] or [null]. *)
Definition kept_holder (h : json N) : bool :=
  match h with
  | JObject fields => has_key "ownerAddress" fields && textual_owner fields
  | _ => false
  end.

Definition kept_holders (t : json N) : bool :=
  match t with
  | JArray holders => forallb kept_holder holders
  | _ => false
  end.

(** A token that the loop can read: a dict whose address is a [str], or
    [null], or missing. *)
Definition readable_token (token : json N) : bool :=
  match token with
  | JObject fields =>
      match get "tokenAddress" fields with
      | JString _ | JNull => true
      | _ => false
      end
  | _ => false
  end.

End json.
Arguments answer : clear implicits.
Arguments fetched : clear implicits.
Arguments collected : clear implicits.
Arguments collecting : clear implicits.

(** Python's order on [str]: by code point, a proper prefix first. *)
Definition str_le (s1 s2 : string) : Prop := String.leb s1 s2 = true.

#[global] Instance str_le_dec s1 s2 : Decision (str_le s1 s2) :=
  decide (String.leb s1 s2 = true).

(** [sorted(addresses)] for a set of strings. *)
Definition sorted (addresses : gset string) : list string :=
  merge_sort str_le (elements addresses).

(** [for address in addresses: f.write(f"{address}\n")] *)
Definition address_lines (addresses : list string) : string :=
  foldr (λ address text, address +:+ newline +:+ text) "" addresses.

(** [load_text_file]; [None] is a file that does not exist. *)
Definition load_text_file (file : option string) : list string :=
  match file with
  | Some content =>
      strip <$> filter (λ line, is_empty (strip line) = false) (readlines content)
  | None => []
  end.

(** What [save_holders] writes: [holders.json], and the same text to
    [holders.txt] and to [owner_addresses.txt]. *)
Record holder_files {V : Type} := {
  holders_file : option (holders_of V);
  holders_txt : option string;
  owner_addresses_file : option string;
}.
Arguments holder_files : clear implicits.

Definition save_holders {V} (holders_data : holders_of V) : holder_files V :=
  let all_holder_addresses := all_holder_addresses holders_data in
  {| holders_file := Some holders_data;
     holders_txt := Some (address_lines (sorted all_holder_addresses));
     owner_addresses_file := Some (address_lines (sorted all_holder_addresses)) |}.

(** ** The analysis step *)

(** The settings of [SolanaTokenOrchestrator] the analysis reads. *)
Record settings := {
  num_pages : nat;
  min_winrate : float;
  min_realized_pnl : float;
}.

(** The files the analysis reads and writes. *)
Record data := {
  owner_addresses_txt : option string;      (* data/owner_addresses.txt *)
  scanned_wallets_txt : list string;        (* data/scanned_wallets.txt, by line *)
  results_json : option (list Analyzer.result);       (* results/good_wallets.json *)
  results_txt : option string;                        (* results/good_wallets.txt *)
  good_wallets_file : option (list Analyzer.result);  (* data/good_wallets.json *)
  good_wallets_txt : option string;                   (* data/good_wallets.txt *)
}.

(** [_copy_analysis_results]: each of the two result files that exists is
    copied over its counterpart in [data/]; then, when [data/good_wallets.json]
    exists and holds a non-empty list, [data/good_wallets.txt] is rewritten
    with the [wallet] of each entry. *)
Definition _copy_analysis_results (fs : data) : data :=
  let json := match results_json fs with
              | Some copied => Some copied
              | None => good_wallets_file fs
              end in
  let txt := match results_txt fs with
             | Some copied => Some copied
             | None => good_wallets_txt fs
             end in
  {| owner_addresses_txt := owner_addresses_txt fs;
     scanned_wallets_txt := scanned_wallets_txt fs;
     results_json := results_json fs;
     results_txt := results_txt fs;
     good_wallets_file := json;
     good_wallets_txt :=
       match json with
       | Some good_wallets =>
           if truthy good_wallets
           then Some (address_lines (Analyzer.wallet <$> good_wallets))
           else txt
       | None => txt
       end |}.

(** The configuration [create_playwright_analyzer] builds: the thresholds
    travel through the environment as [str(x)] and come back as [float(...)]
    of it, which gives [x] again. *)
Definition analyzer_config (self : settings) (wallets : list string) : Analyzer.config :=
  {| Analyzer.num_pages := num_pages self;
     Analyzer.wallets := wallets;
     Analyzer.min_winrate := min_winrate self;
     Analyzer.min_realized_pnl := min_realized_pnl self |}.

(** [run_dexcheck_analysis], under a schedule for the analyzer's tasks
    ([None]: the schedule ends before every task has returned). *)
Definition run_dexcheck_analysis `{PyLib} (self : settings) (pg : page)
    (clock : nat → Z) (sched : list nat) (fs : data) : option data :=
  let wallets := load_text_file (owner_addresses_txt fs) in
  if negb (truthy wallets) then Some fs
  else
    match Analyzer.run pg (analyzer_config self wallets) clock sched
            {| Analyzer.ledger_file := scanned_wallets_txt fs;
               Analyzer.output_file := results_json fs |} with
    | None => None
    | Some (files, results) =>
        let fs' := {| owner_addresses_txt := owner_addresses_txt fs;
                      scanned_wallets_txt := Analyzer.ledger_file files;
                      results_json := Analyzer.output_file files;
                      results_txt := results_txt fs;
                      good_wallets_file := good_wallets_file fs;
                      good_wallets_txt := good_wallets_txt fs |} in
        if Analyzer.success results then Some (_copy_analysis_results fs') else Some fs'
    end.

End Orchestrator.

(** * Example holders *)

Module Holdings.

Definition held_by (owner : string) : Orchestrator.holder unit :=
  {| Orchestrator.ownerAddress := Some owner;
     Orchestrator.balance := None;
     Orchestrator.balanceFormatted := None;
     Orchestrator.usdValue := None;
     Orchestrator.percentageRelativeToTotalSupply := None |}.

(** Two tokens, with one wallet holding both. *)
Definition two_tokens : gmap string (list (Orchestrator.holder unit)) :=
  <[ "T2" := [held_by "w2"; held_by "w3"] ]> {[ "T1" := [held_by "w2"; held_by "w1"] ]}.

(** Two pages and the default thresholds. *)
Definition two_pages : Orchestrator.settings :=
  {| Orchestrator.num_pages := 2;
     Orchestrator.min_winrate := 70;
     Orchestrator.min_realized_pnl := 100 |}.

(** The files once the holders of [two_tokens] are saved, before any
    analysis. *)
Definition collected : Orchestrator.data :=
  {| Orchestrator.owner_addresses_txt :=
       Orchestrator.owner_addresses_file (Orchestrator.save_holders two_tokens);
     Orchestrator.scanned_wallets_txt := [];
     Orchestrator.results_json := None;
     Orchestrator.results_txt := None;
     Orchestrator.good_wallets_file := None;
     Orchestrator.good_wallets_txt := None |}.

(** The first task (two wallets) run to its end, then the second (one
    wallet). *)
Definition in_turn : list nat := [0; 0; 0; 0; 0; 0; 0; 0; 1; 1; 1; 1].

End Holdings.

(** * Properties of the work distributor *)

Section place_facts.
Context {A : Type}.
Implicit Types (items : list (nat * A)) (chunks : list (list A)) (l : list A).

Lemma picked_nil n k : picked n k (@nil (nat * A)) = [].
Proof. done. Qed.

Lemma picked_cons n k idx (x : A) items :
  picked n k ((idx, x) :: items) =
    if decide (idx mod n = k) then x :: picked n k items else picked n k items.
Proof. unfold picked. rewrite filter_cons. simpl. by case_decide. Qed.

(** With a positive number of chunks the loop never raises, and chunk [k]
    receives, in order, the items whose index is [k] modulo [n]. *)
Lemma place_returns n items : ∀ chunks,
  0 < n → length chunks = n →
  place n items chunks = Returned (imap (λ k c, c ++ picked n k items) chunks).
Proof.
  induction items as [|[idx x] items IH]; intros chunks Hn Hlen; simpl.
  - f_equal. apply list_eq; intros i. rewrite list_lookup_imap.
    destruct (chunks !! i); simpl; [|done]. by rewrite picked_nil, app_nil_r.
  - unfold py_mod. case_decide; [lia|]. simpl.
    assert (Hk : idx mod n < length chunks)
      by (rewrite Hlen; apply Nat.mod_upper_bound; lia).
    unfold append_at. destruct (lookup_lt_is_Some_2 _ _ Hk) as [c Hc].
    rewrite Hc. simpl.
    rewrite IH; [|done|by rewrite length_insert]. f_equal.
    apply list_eq; intros i. rewrite !list_lookup_imap, picked_cons.
    destruct (decide (idx mod n = i)) as [<-|Hne].
    + rewrite list_lookup_insert_eq by done. rewrite Hc. simpl.
      by rewrite <- app_assoc.
    + by rewrite list_lookup_insert_ne.
Qed.

Lemma place_zero idx (x : A) items chunks :
  place 0 ((idx, x) :: items) chunks = Raised ZeroDivisionError.
Proof. done. Qed.

Lemma place_fresh n items :
  0 < n →
  place n items (replicate n []) = Returned ((λ k, picked n k items) <$> seq 0 n).
Proof.
  intros Hn. rewrite place_returns by (done || by rewrite length_replicate).
  f_equal. apply list_eq; intros i.
  rewrite list_lookup_imap, list_lookup_fmap.
  destruct (decide (i < n)) as [Hi|Hi].
  - rewrite lookup_replicate_2, lookup_seq_lt by done. done.
  - rewrite (proj1 (lookup_replicate_None _ _ _)), lookup_seq_ge by lia. done.
Qed.

Lemma scanner_distribute_returns n l :
  0 < n →
  Scanner.distribute_wallets n l = Returned ((λ k, shard_of n k l) <$> seq 0 n).
Proof. intros. by apply place_fresh. Qed.

Lemma analyzer_distribute_returns n l :
  l ≠ [] →
  0 < n →
  Analyzer._distribute_wallets l n =
    Returned ((λ k, shard_of (n `min` length l) k l) <$> seq 0 (n `min` length l)).
Proof.
  intros Hl Hn. destruct l as [|x l]; [done|].
  unfold Analyzer._distribute_wallets. apply place_fresh. simpl. lia.
Qed.

(** *** What a shard holds *)

Lemma elem_of_enumerate l i (x : A) : (i, x) ∈ enumerate l ↔ l !! i = Some x.
Proof.
  unfold enumerate. rewrite list_elem_of_lookup. split.
  - intros [j Hj]. apply lookup_zip_with_Some in Hj as (a & b & Heq & Ha & Hb).
    apply lookup_seq in Ha as [-> _]. by simplify_eq.
  - intros Hx. exists i. apply lookup_zip_with_Some. exists i, x.
    split_and!; [done| |done]. apply lookup_seq. split; [done|].
    by eapply lookup_lt_Some.
Qed.

Lemma elem_of_picked n k items (x : A) :
  x ∈ picked n k items ↔ ∃ i, i mod n = k ∧ (i, x) ∈ items.
Proof.
  unfold picked. rewrite list_elem_of_fmap. split.
  - intros [[i y] [-> Hin]]. apply list_elem_of_filter in Hin as [Hmod Hin].
    by exists i.
  - intros (i & Hmod & Hin). exists (i, x). split; [done|].
    by apply list_elem_of_filter.
Qed.

(** Shard [k] holds exactly the wallets whose input index is [k] modulo [n]. *)
Lemma elem_of_shard_of n k l (x : A) :
  x ∈ shard_of n k l ↔ ∃ i, i mod n = k ∧ l !! i = Some x.
Proof.
  unfold shard_of. rewrite elem_of_picked.
  by setoid_rewrite elem_of_enumerate.
Qed.

Lemma snd_enumerate l : (enumerate l).*2 = l.
Proof. unfold enumerate. apply snd_zip. by rewrite length_seq. Qed.

(** A shard keeps the relative order of the input. *)
Lemma shard_of_sublist n k l : shard_of n k l `sublist_of` l.
Proof.
  unfold shard_of, picked. rewrite <- (snd_enumerate l) at 2.
  apply fmap_sublist, sublist_filter.
Qed.

(** *** Partition *)

Lemma concat_insert_app chunks k c (x : A) :
  chunks !! k = Some c →
  concat (<[k := c ++ [x]]> chunks) ≡ₚ concat chunks ++ [x].
Proof.
  revert k. induction chunks as [|c0 chunks IH]; intros [|k] Hk; simplify_eq/=.
  - rewrite <- !app_assoc. apply Permutation_app_head, Permutation_app_comm.
  - rewrite IH by done. by rewrite app_assoc.
Qed.

Lemma place_permutation n items : ∀ chunks chunks',
  place n items chunks = Returned chunks' →
  concat chunks' ≡ₚ concat chunks ++ items.*2.
Proof.
  induction items as [|[idx x] items IH]; intros chunks chunks' Hp; simpl in *.
  - simplify_eq. by rewrite app_nil_r.
  - unfold py_mod in Hp. case_decide; [done|]. simpl in Hp.
    unfold append_at in Hp. destruct (chunks !! (idx mod n)) as [c|] eqn:Hc; [|done].
    simpl in Hp. apply IH in Hp. rewrite Hp, concat_insert_app by done.
    by rewrite <- app_assoc.
Qed.

Lemma concat_replicate_nil n : concat (replicate n (@nil A)) = [].
Proof. induction n; simpl; auto. Qed.

Lemma elem_of_concat (x : A) (shards : list (list A)) :
  x ∈ concat shards ↔ ∃ s, x ∈ s ∧ s ∈ shards.
Proof.
  induction shards as [|s0 shards IH]; simpl.
  - split; [by intros ?%elem_of_nil|by intros (? & _ & ?%elem_of_nil)].
  - rewrite elem_of_app, IH. split.
    + intros [Hx|(s & Hx & Hs)]; [exists s0|exists s]; split; try done.
      * apply list_elem_of_here.
      * by apply list_elem_of_further.
    + intros (s & Hx & Hs). apply elem_of_cons in Hs as [->|Hs]; [by left|].
      right. by exists s.
Qed.

Lemma NoDup_concat_disjoint (shards : list (list A)) :
  NoDup (concat shards) → pairwise_disjoint shards.
Proof.
  induction shards as [|s shards IH]; intros Hnd j k sj sk Hjk Hj Hk; [done|].
  simpl in Hnd. apply NoDup_app in Hnd as (_ & Hdisj & Hnd).
  destruct j as [|j], k as [|k]; simplify_eq/=.
  - intros x Hx Hx'. apply (Hdisj x Hx). apply elem_of_concat.
    exists sk. split; [done|]. by eapply list_elem_of_lookup_2.
  - intros x Hx Hx'. apply (Hdisj x Hx'). apply elem_of_concat.
    exists sj. split; [done|]. by eapply list_elem_of_lookup_2.
  - eapply IH; [done| |done..]. congruence.
Qed.

(** *** More pages than wallets *)

Lemma picked_short n k s l :
  s + length l ≤ n →
  picked n k (zip (seq s (length l)) l) =
    if decide (s ≤ k) then option_list (l !! (k - s)) else [].
Proof.
  revert s. induction l as [|x l IH]; intros s Hs; simpl in *.
  - rewrite picked_nil. by case_decide.
  - rewrite picked_cons, Nat.mod_small, IH by lia.
    destruct (decide (s = k)) as [->|Hne].
    + rewrite Nat.sub_diag. repeat case_decide; try lia. done.
    + repeat case_decide; try lia; [|done].
      replace (k - s) with (S (k - S s)) by lia. done.
Qed.

Lemma shard_of_short n k l :
  length l ≤ n → shard_of n k l = option_list (l !! k).
Proof.
  intros Hn. unfold shard_of, enumerate. rewrite picked_short by (simpl; lia).
  rewrite decide_True by lia. by rewrite Nat.sub_0_r.
Qed.

Lemma shards_short n l :
  length l ≤ n →
  (λ k, shard_of n k l) <$> seq 0 n = ((λ x, [x]) <$> l) ++ replicate (n - length l) [].
Proof.
  intros Hn. apply list_eq; intros i. rewrite list_lookup_fmap.
  destruct (decide (i < n)) as [Hi|Hi].
  - rewrite lookup_seq_lt by done. simpl. rewrite shard_of_short by done.
    destruct (decide (i < length l)) as [Hil|Hil].
    + rewrite lookup_app_l by (by rewrite length_fmap).
      rewrite list_lookup_fmap. destruct (lookup_lt_is_Some_2 _ _ Hil) as [x ->]. done.
    + rewrite lookup_app_r by (rewrite length_fmap; lia).
      rewrite length_fmap.
      rewrite lookup_replicate_2 by lia.
      rewrite (proj2 (lookup_ge_None _ _)) by lia. done.
  - rewrite lookup_seq_ge by lia. symmetry. apply lookup_ge_None.
    rewrite length_app, length_fmap, length_replicate. lia.
Qed.
End place_facts.
(** *** The tasks that are started *)

Section task_facts.
Context {A : Type}.
Implicit Types (chunks : list (list A)) (l : list A).

Lemma scanner_tasks_from s n chunks :
  length chunks ≤ n →
  (λ t : nat * (nat * list A), (t.1, t.2.2)) <$>
    filter (λ t, truthy t.2.2)
      (zip (seq s (length (zip (seq s n) chunks))) (zip (seq s n) chunks))
  = numbered_from s chunks.
Proof.
  revert s n. induction chunks as [|c chunks IH]; intros s n Hn.
  - by destruct n.
  - destruct n as [|n]; simpl in Hn; [lia|].
    unfold numbered_from. simpl. rewrite !filter_cons. simpl.
    specialize (IH (S s) n ltac:(lia)). unfold numbered_from in IH.
    case_decide; [rewrite fmap_cons|]; by rewrite IH.
Qed.

Lemma scanner_tasks_numbered n chunks :
  length chunks ≤ n → Scanner.tasks n chunks = numbered_from 0 chunks.
Proof. intros. unfold Scanner.tasks, enumerate. by apply scanner_tasks_from. Qed.

Lemma zip_seq_longer s n chunks :
  length chunks ≤ n → zip (seq s n) chunks = zip (seq s (length chunks)) chunks.
Proof.
  revert s n. induction chunks as [|c chunks IH]; intros s n Hn.
  - by destruct n.
  - destruct n as [|n]; simpl in *; [lia|]. f_equal. apply IH. lia.
Qed.

Lemma analyzer_tasks_numbered n chunks :
  length chunks ≤ n → Analyzer.tasks n chunks = numbered_from 0 chunks.
Proof. intros. unfold Analyzer.tasks, numbered_from. by rewrite zip_seq_longer. Qed.

Lemma numbered_from_empties s m :
  numbered_from s (replicate m (@nil A)) = [].
Proof.
  revert s. induction m as [|m IH]; intros s; [done|].
  unfold numbered_from in *. simpl. rewrite filter_cons. simpl.
  rewrite length_replicate in IH. rewrite length_replicate. apply IH.
Qed.

Lemma numbered_from_singletons s l m :
  numbered_from s (((λ x, [x]) <$> l) ++ replicate m []) =
    zip (seq s (length l)) ((λ x, [x]) <$> l).
Proof.
  revert s. induction l as [|x l IH]; intros s; simpl.
  - apply numbered_from_empties.
  - unfold numbered_from in *. simpl. rewrite filter_cons. simpl.
    f_equal. apply IH.
Qed.

Lemma numbered_from_truthy s chunks :
  Forall (λ t, t.2 ≠ []) (numbered_from s chunks).
Proof.
  apply Forall_forall. intros [i c] Hin.
  apply list_elem_of_filter in Hin as [Ht _]. simpl in *. by destruct c.
Qed.
End task_facts.
(** *** Where each wallet lands inside its shard *)

Section position_facts.
Context {A : Type}.
Implicit Types (l : list A).

Lemma picked_app n k (items1 items2 : list (nat * A)) :
  picked n k (items1 ++ items2) = picked n k items1 ++ picked n k items2.
Proof. unfold picked. by rewrite filter_app, fmap_app. Qed.

Lemma picked_shift n k s l :
  picked n k (zip (seq (s + n) (length l)) l) = picked n k (zip (seq s (length l)) l).
Proof.
  revert s. induction l as [|x l IH]; intros s; [done|]. simpl.
  rewrite !picked_cons. replace (S (s + n)) with (S s + n) by lia. rewrite IH.
  replace ((s + n) mod n) with (s mod n); [done|].
  replace (s + n) with (s + 1 * n) by lia. by rewrite Nat.Div0.mod_add.
Qed.

Lemma enumerate_from_app s (l1 l2 : list A) :
  zip (seq s (length (l1 ++ l2))) (l1 ++ l2) =
    zip (seq s (length l1)) l1 ++ zip (seq (s + length l1) (length l2)) l2.
Proof.
  rewrite length_app, seq_app. apply zip_with_app. by rewrite length_seq.
Qed.

Lemma shard_of_nil n k : shard_of n k (@nil A) = [].
Proof. done. Qed.

(** The first [n] wallets give every shard its head; the rest is sharded
    the same way. *)
Lemma shard_of_unfold n k l :
  k < n → shard_of n k l = option_list (l !! k) ++ shard_of n k (drop n l).
Proof.
  intros Hk. destruct (decide (length l ≤ n)) as [Hl|Hl].
  - rewrite drop_ge, shard_of_nil, app_nil_r by done. by apply shard_of_short.
  - rewrite <- (take_drop n l) at 1. unfold shard_of at 1. unfold enumerate.
    rewrite enumerate_from_app, picked_app. f_equal.
    + change (shard_of n k (take n l) = option_list (l !! k)).
      rewrite shard_of_short by (rewrite length_take; lia).
      by rewrite lookup_take_lt.
    + rewrite length_take, Nat.min_l by lia. apply (picked_shift n k 0).
Qed.

(** Shard [k] is the input read at positions [k], [k + n], [k + 2n], ... *)
Lemma shard_of_lookup n k l j :
  k < n → shard_of n k l !! j = l !! (k + j * n).
Proof.
  intros Hk. revert l.
  induction j as [|j IH]; intros l; rewrite shard_of_unfold by done.
  - rewrite Nat.add_0_r. destruct (l !! k) eqn:Hlk; [done|]. simpl.
    apply lookup_ge_None in Hlk. by rewrite drop_ge by lia.
  - destruct (l !! k) eqn:Hlk; simpl.
    + rewrite IH, lookup_drop. f_equal. lia.
    + apply lookup_ge_None in Hlk. rewrite drop_ge, shard_of_nil by lia.
      symmetry. apply lookup_ge_None. lia.
Qed.

Lemma shard_of_holds n l i (x : A) :
  0 < n → l !! i = Some x → shard_of n (i mod n) l !! (i / n) = Some x.
Proof.
  intros Hn Hx. rewrite shard_of_lookup by (apply Nat.mod_upper_bound; lia).
  rewrite <- Hx. f_equal. rewrite (Nat.div_mod i n) at 3 by lia. lia.
Qed.
End position_facts.
(** ** Claims about the work distributor *)

(** C1, as stated, fails on two inputs.  A candidate list that repeats an
    address is sharded by position, so both copies of the address land in
    different shards and the shards overlap; and with zero pages the index
    computation [idx % 0] raises instead of producing shards. *)
Lemma distribute_duplicates_overlap :
  (∃ shards,
     Scanner.distribute_wallets 2 ["a"; "a"] = Returned shards ∧
     Analyzer._distribute_wallets ["a"; "a"] 2 = Returned shards ∧
     2 ≤ length ["a"; "a"] ∧
     ¬ pairwise_disjoint shards) ∧
  Scanner.distribute_wallets 0 ["a"] = Raised ZeroDivisionError ∧
  Analyzer._distribute_wallets ["a"] 0 = Raised ZeroDivisionError.
Proof.
  split; [|done]. exists [["a"]; ["a"]]. split_and!; [done..|].
  intros Hd. apply (Hd 0 1 ["a"] ["a"] ltac:(done) eq_refl eq_refl "a");
    apply list_elem_of_here.
Qed.

(** C1 (amended).  For every ordered candidate wallet list [W] and worker
    count [N] with [1 <= N <= |W|], both distributors return the same [N]
    shards; shard [k] is the subsequence of [W] at the input indices [i] with
    [i mod N = k], so the wallet at index [i] is in shard [i mod N] (at
    position [i / N]) and every shard keeps the input order; the shards
    together are a rearrangement of [W]; they are pairwise disjoint when [W]
    repeats no address; and two workers on five wallets get [w0,w2,w4] and
    [w1,w3]. *)
Theorem distribute_round_robin (W : list string) (N : nat) :
  0 < N → N ≤ length W →
  ∃ shards,
    Scanner.distribute_wallets N W = Returned shards ∧
    Analyzer._distribute_wallets W N = Returned shards ∧
    length shards = N ∧
    (∀ k, k < N → shards !! k = Some (shard_of N k W)) ∧
    (∀ i w, W !! i = Some w →
       ∃ s, shards !! (i mod N) = Some s ∧ s !! (i / N) = Some w) ∧
    (∀ k s j, shards !! k = Some s → s !! j = W !! (k + j * N)) ∧
    Forall (λ s, s `sublist_of` W) shards ∧
    concat shards ≡ₚ W ∧
    (NoDup W → pairwise_disjoint shards) ∧
    (∀ w0 w1 w2 w3 w4, N = 2 → W = [w0; w1; w2; w3; w4] →
       shards = [[w0; w2; w4]; [w1; w3]]).
Proof.
  intros HN HW. exists ((λ k, shard_of N k W) <$> seq 0 N).
  assert (Hsc := scanner_distribute_returns N W HN).
  assert (Hlk : ∀ k, k < N →
            ((λ k, shard_of N k W) <$> seq 0 N) !! k = Some (shard_of N k W)).
  { intros k Hk. by rewrite list_lookup_fmap, lookup_seq_lt. }
  assert (Hperm : concat ((λ k, shard_of N k W) <$> seq 0 N) ≡ₚ W).
  { rewrite (place_permutation _ _ _ _ Hsc).
    by rewrite concat_replicate_nil, snd_enumerate. }
  split_and!.
  - done.
  - rewrite analyzer_distribute_returns by (done || by intros ->; simpl in HW; lia).
    by rewrite Nat.min_l.
  - by rewrite length_fmap, length_seq.
  - done.
  - intros i w Hw. exists (shard_of N (i mod N) W). split.
    + apply Hlk, Nat.mod_upper_bound. lia.
    + by apply shard_of_holds.
  - intros k s j Hs. apply list_lookup_fmap_Some in Hs as (k' & -> & Hk').
    apply lookup_seq in Hk' as [-> Hk]. simpl. by apply shard_of_lookup.
  - apply Forall_fmap, Forall_forall. intros k _. apply shard_of_sublist.
  - done.
  - intros Hnd. apply NoDup_concat_disjoint. by rewrite Hperm.
  - intros w0 w1 w2 w3 w4 -> ->. reflexivity.
Qed.

Lemma distribute_round_robin_witness :
  ∃ shards,
    Scanner.distribute_wallets 2 five_wallets = Returned shards ∧
    Analyzer._distribute_wallets five_wallets 2 = Returned shards ∧
    shards = [["w0"; "w2"; "w4"]; ["w1"; "w3"]].
Proof.
  destruct (distribute_round_robin five_wallets 2)
    as (shards & Hs & Ha & _ & _ & _ & _ & _ & _ & _ & He).
  - lia.
  - simpl. lia.
  - exists shards. split_and!; [done..|]. by eapply He.
Defined.

(** C6.  For every candidate list [W] and requested worker count [N] with
    [N > |W|], the effective worker count is [|W|] and no worker is handed an
    empty shard: the analyzer's distributor returns one single-wallet shard
    per wallet, and the scanner, whose distributor pads with empty shards,
    starts tasks only for the [|W|] single-wallet shards. *)
Theorem no_idle_workers (W : list string) (N : nat) :
  length W < N →
  let singles := (λ w, [w]) <$> W in
  Analyzer._distribute_wallets W N = Returned singles ∧
  Analyzer.tasks N singles = zip (seq 0 (length W)) singles ∧
  (∃ chunks,
     Scanner.distribute_wallets N W = Returned chunks ∧
     Scanner.tasks N chunks = zip (seq 0 (length W)) singles) ∧
  length (zip (seq 0 (length W)) singles) = length W ∧
  Forall (λ t, t.2 ≠ []) (zip (seq 0 (length W)) singles).
Proof.
  intros HN singles.
  assert (Hnum : numbered_from 0 singles = zip (seq 0 (length W)) singles).
  { unfold singles. rewrite <- (numbered_from_singletons 0 W 0). simpl.
    by rewrite app_nil_r. }
  assert (Hlen : length singles = length W) by apply length_fmap.
  split_and!.
  - destruct W as [|w W'] eqn:HW; [done|]. rewrite <- HW in *.
    rewrite analyzer_distribute_returns by (lia || by rewrite HW).
    rewrite Nat.min_r by lia. rewrite shards_short by done.
    rewrite Nat.sub_diag, app_nil_r. by rewrite HW.
  - by rewrite analyzer_tasks_numbered by lia.
  - exists (singles ++ replicate (N - length W) []). split.
    + rewrite scanner_distribute_returns by lia. f_equal. apply shards_short. lia.
    + rewrite scanner_tasks_numbered.
      * apply numbered_from_singletons.
      * rewrite length_app, length_replicate. lia.
  - rewrite length_zip_with, length_seq. lia.
  - rewrite <- Hnum. apply numbered_from_truthy.
Qed.

Lemma no_idle_workers_witness :
  Analyzer._distribute_wallets ["w0"; "w1"] 5 = Returned [["w0"]; ["w1"]] ∧
  Scanner.distribute_wallets 5 ["w0"; "w1"] = Returned [["w0"]; ["w1"]; []; []; []] ∧
  Scanner.tasks 5 [["w0"]; ["w1"]; []; []; []] = [(0, ["w0"]); (1, ["w1"])].
Proof.
  destruct (no_idle_workers ["w0"; "w1"] 5) as (Ha & _ & (chunks & Hc & Ht) & _).
  - simpl. lia.
  - split_and!; [exact Ha|reflexivity|reflexivity].
Defined.
(** * Properties of the per-wallet evaluation *)

(** ** Float comparison at the boundary *)

Lemma SFcompare_Eq_sym f1 f2 :
  SFcompare f1 f2 = Some Eq → SFcompare f2 f1 = Some Eq.
Proof.
  destruct f1 as [s1|s1| |s1 m1 e1], f2 as [s2|s2| |s2 m2 e2]; simpl;
    try destruct s1; try destruct s2; try done.
  - intros [= Hc]. destruct (e1 ?= e2)%Z eqn:He; try done.
    apply Z.compare_eq in He as ->.
    destruct (Pos.compare_cont Eq m1 m2) eqn:Hm; try done.
    apply Pos.compare_eq in Hm as ->.
    by rewrite Z.compare_refl, Pos.compare_cont_refl.
  - intros [= Hc]. destruct (e1 ?= e2)%Z eqn:He; try done.
    apply Z.compare_eq in He as ->.
    apply Pos.compare_eq in Hc as ->.
    by rewrite Z.compare_refl, Pos.compare_cont_refl.
Qed.

(** Python's [a == b] implies [a >= b]. *)
Lemma fge_of_eqb (a b : float) : PrimFloat.eqb a b = true → fge a b = true.
Proof.
  unfold fge. rewrite FloatAxioms.eqb_spec, FloatAxioms.leb_spec. unfold SFeqb, SFleb.
  destruct (SFcompare (Prim2SF a) (Prim2SF b)) as [[]|] eqn:Hc; try done.
  intros _. by rewrite (SFcompare_Eq_sym _ _ Hc).
Qed.

Section analysis_facts.
Context `{PyLib} (pg : page).

(** ** One attempt of the scanner *)

Lemma scanner_attempt_reads min_winrate min_pnl w t rest a b :
  Scanner.readings (pg w t) = Some (a, b) →
  Scanner.analyze_attempts pg min_winrate min_pnl w (t :: rest) =
    (if fge a min_winrate && fge b min_pnl
     then Some {| Scanner.wallet := w;
                  Scanner.winrate := py_repr a +:+ "%";
                  Scanner.realizedPnL := py_repr b +:+ "%";
                  Scanner.timestamp := now_iso (pg w t) |}
     else None,
     [EvGoto w t]).
Proof.
  unfold Scanner.readings. simpl.
  destruct (goto_ok (pg w t)); simpl; [|done].
  destruct (_wait_for_data_with_timeout (pg w t) 8); simpl; [|done].
  destruct (Scanner.extract_winrate (pg w t)); [|done].
  destruct (Scanner.extract_realized_pnl (pg w t)); [|done].
  intros [= -> ->]. by destruct (fge a min_winrate && fge b min_pnl).
Qed.

Lemma scanner_attempt_retries min_winrate min_pnl w t rest :
  Scanner.readings (pg w t) = None →
  Scanner.analyze_attempts pg min_winrate min_pnl w (t :: rest) =
    ((Scanner.retry_or_stop t
        (Scanner.analyze_attempts pg min_winrate min_pnl w rest)).1,
     EvGoto w t ::
       (Scanner.retry_or_stop t
          (Scanner.analyze_attempts pg min_winrate min_pnl w rest)).2).
Proof.
  unfold Scanner.readings. simpl.
  destruct (goto_ok (pg w t)); simpl; [|by destruct (Scanner.retry_or_stop _ _)].
  destruct (_wait_for_data_with_timeout (pg w t) 8); simpl;
    [|by destruct (Scanner.retry_or_stop _ _)].
  destruct (Scanner.extract_winrate (pg w t));
    [|by destruct (Scanner.retry_or_stop _ _)].
  destruct (Scanner.extract_realized_pnl (pg w t));
    [done|by destruct (Scanner.retry_or_stop _ _)].
Qed.

(** The scanner classifies at the first attempt that reads both metrics. *)
Lemma scanner_analyze_at min_winrate min_pnl w k a b :
  k < max_retries →
  (∀ j, j < k → Scanner.readings (pg w j) = None) →
  Scanner.readings (pg w k) = Some (a, b) →
  (Scanner.analyze_wallet pg min_winrate min_pnl w).1 =
    if fge a min_winrate && fge b min_pnl
    then Some {| Scanner.wallet := w;
                 Scanner.winrate := py_repr a +:+ "%";
                 Scanner.realizedPnL := py_repr b +:+ "%";
                 Scanner.timestamp := now_iso (pg w k) |}
    else None.
Proof.
  unfold Scanner.analyze_wallet, max_retries. intros Hk Hretry Hread.
  destruct k as [|[|[|k]]]; [| | |lia]; simpl seq.
  - by rewrite (scanner_attempt_reads _ _ _ _ _ _ _ Hread).
  - rewrite scanner_attempt_retries by (apply Hretry; lia).
    by rewrite (scanner_attempt_reads _ _ _ _ _ _ _ Hread).
  - rewrite scanner_attempt_retries by (apply Hretry; lia).
    rewrite scanner_attempt_retries by (apply Hretry; lia).
    by rewrite (scanner_attempt_reads _ _ _ _ _ _ _ Hread).
Qed.

(** ** One attempt of the analyzer *)

Lemma analyzer_attempt_reads cfg w t rest a b :
  Analyzer.readings (pg w t) = Some (a, b) →
  Analyzer.analyze_attempts pg cfg w (t :: rest) =
    (Some (Analyzer.verdict cfg w a b), [EvGoto w t; EvSleep 10]).
Proof.
  unfold Analyzer.readings, Analyzer.verdict. simpl.
  destruct (goto_ok (pg w t)); simpl; [|done].
  destruct (_wait_for_data_with_timeout (pg w t) 30); simpl; [|done].
  destruct (Analyzer._extract_winrate (pg w t)); [|done].
  destruct (Analyzer._extract_realized_pnl (pg w t)); [|done].
  intros [= -> ->].
  by destruct (fge a (Analyzer.min_winrate cfg) && fge b (Analyzer.min_realized_pnl cfg)).
Qed.

Lemma analyzer_retry_fst t (again : option Analyzer.result * list event) :
  t < max_retries - 1 → (Analyzer.retry_or_stop t again).1 = again.1.
Proof.
  intros Ht. unfold Analyzer.retry_or_stop.
  by rewrite (proj2 (Nat.ltb_lt _ _) Ht).
Qed.

Lemma analyzer_attempt_retries cfg w t rest :
  Analyzer.retried (pg w t) = true →
  (Analyzer.analyze_attempts pg cfg w (t :: rest)).1 =
    (Analyzer.retry_or_stop t (Analyzer.analyze_attempts pg cfg w rest)).1.
Proof.
  unfold Analyzer.retried. simpl.
  destruct (goto_ok (pg w t)); simpl; [|by destruct (Analyzer.retry_or_stop _ _)].
  destruct (_wait_for_data_with_timeout (pg w t) 30); simpl; [|done].
  destruct (Analyzer._extract_winrate (pg w t)) as [a|];
    [|by destruct (Analyzer.retry_or_stop _ _)].
  destruct (Analyzer._extract_realized_pnl (pg w t)) as [b|];
    [|by destruct (Analyzer.retry_or_stop _ _)].
  rewrite !bool_decide_eq_true_2 by eauto. done.
Qed.

(** The analyzer classifies at the first attempt that reads both metrics. *)
Lemma analyzer_analyze_at cfg w k a b :
  k < max_retries →
  (∀ j, j < k → Analyzer.retried (pg w j) = true) →
  Analyzer.readings (pg w k) = Some (a, b) →
  (Analyzer.analyze_wallet pg cfg w).1 = Some (Analyzer.verdict cfg w a b).
Proof.
  unfold Analyzer.analyze_wallet, max_retries. intros Hk Hretry Hread.
  destruct k as [|[|[|k]]]; [| | |lia]; simpl seq.
  - by rewrite (analyzer_attempt_reads _ _ _ _ _ _ Hread).
  - rewrite analyzer_attempt_retries by (apply Hretry; lia).
    rewrite analyzer_retry_fst by (unfold max_retries; lia).
    by rewrite (analyzer_attempt_reads _ _ _ _ _ _ Hread).
  - rewrite analyzer_attempt_retries by (apply Hretry; lia).
    rewrite analyzer_retry_fst by (unfold max_retries; lia).
    rewrite analyzer_attempt_retries by (apply Hretry; lia).
    rewrite analyzer_retry_fst by (unfold max_retries; lia).
    by rewrite (analyzer_attempt_reads _ _ _ _ _ _ Hread).
Qed.

End analysis_facts.
(** ** The metric extractors *)


Section extractor_facts.
Context `{PyLib}.










End extractor_facts.

(** Whether the marker is shown makes no difference to the wait. *)
Lemma wait_ignores_marker (v : view) (timeout_seconds : nat) :
  _wait_for_data_with_timeout v timeout_seconds =
    match selector v timeout_seconds with Found => true | _ => false end.
Proof.
  unfold _wait_for_data_with_timeout.
  destruct (selector v timeout_seconds); [done| |done].
  by repeat case_match.
Qed.
(** ** Claims about the per-wallet evaluation *)

(** C2.  For every wallet whose win rate and realized PnL were both extracted
    (at attempt [k], the earlier attempts having been retried), the wallet is
    classified as passed if and only if [winrate >= min_winrate] and
    [realized_pnl >= min_pnl], and as failed otherwise; the bounds are
    inclusive: values equal to both thresholds pass.  The scanner returns the
    result dict exactly for a passed wallet; the analyzer returns a dict whose
    status is [passed] or [failed_criteria]. *)
Theorem classification_inclusive `{PyLib} (pg : page) (wallet : string) (k : nat) :
  k < max_retries →
  (∀ min_winrate min_pnl winrate realized_pnl,
     (∀ j, j < k → Scanner.readings (pg wallet j) = None) →
     Scanner.readings (pg wallet k) = Some (winrate, realized_pnl) →
     let r := (Scanner.analyze_wallet pg min_winrate min_pnl wallet).1 in
     (is_Some r ↔ fge winrate min_winrate = true ∧ fge realized_pnl min_pnl = true) ∧
     (PrimFloat.eqb winrate min_winrate = true →
      PrimFloat.eqb realized_pnl min_pnl = true → is_Some r)) ∧
  (∀ cfg winrate realized_pnl,
     (∀ j, j < k → Analyzer.retried (pg wallet j) = true) →
     Analyzer.readings (pg wallet k) = Some (winrate, realized_pnl) →
     ∃ d, (Analyzer.analyze_wallet pg cfg wallet).1 = Some d ∧
          (Analyzer.status d = "passed" ∨ Analyzer.status d = "failed_criteria") ∧
          (Analyzer.status d = "passed" ↔
             fge winrate (Analyzer.min_winrate cfg) = true ∧
             fge realized_pnl (Analyzer.min_realized_pnl cfg) = true) ∧
          (PrimFloat.eqb winrate (Analyzer.min_winrate cfg) = true →
           PrimFloat.eqb realized_pnl (Analyzer.min_realized_pnl cfg) = true →
           Analyzer.status d = "passed")).
Proof.
  intros Hk. split.
  - intros min_winrate min_pnl a b Hretry Hread r.
    assert (Hiff : is_Some r ↔ fge a min_winrate = true ∧ fge b min_pnl = true).
    { unfold r. rewrite (scanner_analyze_at pg _ _ _ k a b) by done.
      destruct (fge a min_winrate), (fge b min_pnl); simpl;
        (split; [intros [? [=]] || intros _; done | intros [? ?]; by eauto]). }
    split; [done|]. intros Ha Hb. apply Hiff. by split; apply fge_of_eqb.
  - intros cfg a b Hretry Hread. exists (Analyzer.verdict cfg wallet a b).
    assert (Hiff : Analyzer.status (Analyzer.verdict cfg wallet a b) = "passed" ↔
              fge a (Analyzer.min_winrate cfg) = true ∧
              fge b (Analyzer.min_realized_pnl cfg) = true).
    { unfold Analyzer.verdict. simpl.
      destruct (fge a _), (fge b _); simpl; split; try done; by intros []. }
    split_and!.
    + by apply analyzer_analyze_at with k.
    + unfold Analyzer.verdict. simpl. destruct (_ && _); auto.
    + done.
    + intros Ha Hb. apply Hiff. by split; apply fge_of_eqb.
Qed.

Lemma classification_inclusive_witness :
  is_Some (Scanner.analyze_wallet Demo.on_threshold 70 100 "w").1 ∧
  ∃ d, (Analyzer.analyze_wallet Demo.on_threshold (Demo.defaults 1 ["w"]) "w").1 = Some d ∧
       Analyzer.status d = "passed".
Proof.
  destruct (classification_inclusive Demo.on_threshold "w" 0) as [Hs Ha].
  - unfold max_retries. lia.
  - split.
    + apply (Hs 70%float 100%float 70%float 100%float);
        [intros j Hj; lia|reflexivity..].
    + destruct (Ha (Demo.defaults 1 ["w"]) 70%float 100%float)
        as (d & Hd & _ & _ & Hp); [intros j Hj; lia|reflexivity|].
      exists d. split; [exact Hd|]. apply Hp; reflexivity.
Defined.

(** C3 fails on the code.  [_wait_for_data_with_timeout] answers [False] both
    when the wait timed out on a page showing the no-data marker and when it
    timed out with nothing to show, so its callers cannot tell the two apart:
    the scanner retries a page that shows the marker until [max_retries]
    navigations are spent, and the analyzer gives up on a page that is only
    slow after one navigation, although the next attempt would have read
    both metrics. *)
Theorem no_data_marker_is_retried :
  (∀ v timeout_seconds,
     _wait_for_data_with_timeout v timeout_seconds =
       match selector v timeout_seconds with Found => true | _ => false end) ∧
  shows_marker (Demo.no_data "w" 0) = true ∧
  Scanner.analyze_wallet Demo.no_data 70 100 "w" =
    (None, [EvGoto "w" 0; EvSleep 2; EvGoto "w" 1; EvSleep 2; EvGoto "w" 2]) ∧
  Analyzer.analyze_wallet Demo.no_data (Demo.defaults 1 ["w"]) "w" =
    (None, [EvGoto "w" 0]) ∧
  shows_marker (Demo.slow "w" 0) = false ∧
  Scanner.analyze_wallet Demo.slow 70 100 "w" =
    (Some {| Scanner.wallet := "w"; Scanner.winrate := "75.0%";
             Scanner.realizedPnL := "120.0%";
             Scanner.timestamp := "2025-10-02T12:00:00" |},
     [EvGoto "w" 0; EvSleep 2; EvGoto "w" 1]) ∧
  Analyzer.analyze_wallet Demo.slow (Demo.defaults 1 ["w"]) "w" =
    (None, [EvGoto "w" 0]) ∧
  Analyzer.readings (Demo.slow "w" 1) = Some (75%float, 120%float).
Proof.
  split; [exact wait_ignores_marker|]. by vm_compute.
Qed.





(** C9 fails on the scanner: on the page of scenario B (win rate 60.0 below
    the threshold 70, realized PnL 150.0) both metrics are extracted and
    [analyze_wallet] returns [None], the same empty result as for a page
    without data. *)
Lemma scanner_drops_failed_values :
  Scanner.readings (Demo.scenario_b "w" 0) = Some (60%float, 150%float) ∧
  fge 60 70 && fge 150 100 = false ∧
  Scanner.analyze_wallet Demo.scenario_b 70 100 "w" = (None, [EvGoto "w" 0]).
Proof. by vm_compute. Qed.

(** C9 (amended).  In the analyzer, for every wallet whose metrics are
    extracted (at attempt [k], the earlier attempts having been retried) but
    which fails the thresholds, [analyze_wallet] returns a dict with status
    [failed_criteria] that carries the extracted win rate and realized PnL;
    in the scanner the same wallet yields the empty result [None]. *)
Theorem failed_criteria_carries_values `{PyLib} (pg : page) (wallet : string) (k : nat) :
  k < max_retries →
  (∀ cfg winrate realized_pnl,
     (∀ j, j < k → Analyzer.retried (pg wallet j) = true) →
     Analyzer.readings (pg wallet k) = Some (winrate, realized_pnl) →
     fge winrate (Analyzer.min_winrate cfg) &&
       fge realized_pnl (Analyzer.min_realized_pnl cfg) = false →
     (Analyzer.analyze_wallet pg cfg wallet).1 =
       Some {| Analyzer.wallet := wallet;
               Analyzer.winrate := py_repr winrate +:+ "%";
               Analyzer.realizedPnL := py_repr realized_pnl +:+ "%";
               Analyzer.status := "failed_criteria" |}) ∧
  (∀ min_winrate min_pnl winrate realized_pnl,
     (∀ j, j < k → Scanner.readings (pg wallet j) = None) →
     Scanner.readings (pg wallet k) = Some (winrate, realized_pnl) →
     fge winrate min_winrate && fge realized_pnl min_pnl = false →
     (Scanner.analyze_wallet pg min_winrate min_pnl wallet).1 = None).
Proof.
  intros Hk. split.
  - intros cfg a b Hretry Hread Hfail.
    rewrite (analyzer_analyze_at pg cfg wallet k a b) by done.
    unfold Analyzer.verdict. by rewrite Hfail.
  - intros min_winrate min_pnl a b Hretry Hread Hfail.
    rewrite (scanner_analyze_at pg _ _ wallet k a b) by done. by rewrite Hfail.
Qed.

Lemma failed_criteria_carries_values_witness :
  (Analyzer.analyze_wallet Demo.scenario_b (Demo.defaults 1 ["w"]) "w").1 =
    Some {| Analyzer.wallet := "w"; Analyzer.winrate := "60.0%";
            Analyzer.realizedPnL := "150.0%"; Analyzer.status := "failed_criteria" |}.
Proof.
  destruct (failed_criteria_carries_values Demo.scenario_b "w" 0) as [Ha _].
  - unfold max_retries. lia.
  - apply (Ha (Demo.defaults 1 ["w"]) 60%float 150%float);
      [intros j Hj; lia|reflexivity..].
Defined.
(** * Properties of the worker pool *)

(** ** Lists of workers and traces *)

Lemma concat_fmap_insert {A B} (f : A → list B) (ws : list A) i x y :
  ws !! i = Some x →
  concat (f <$> <[i := y]> ws) ++ f x ≡ₚ concat (f <$> ws) ++ f y.
Proof.
  revert i. induction ws as [|a ws IH]; intros [|i] Hi; simplify_eq/=.
  - solve_Permutation.
  - rewrite <- !app_assoc. apply Permutation_app_head. by apply IH.
Qed.

Lemma concat_fmap_insert_as {A B} (f : A → list B) (ws : list A) i x y lx ly :
  ws !! i = Some x → f x = lx → f y = ly →
  concat (f <$> <[i := y]> ws) ++ lx ≡ₚ concat (f <$> ws) ++ ly.
Proof. intros Hi <- <-. by apply concat_fmap_insert. Qed.

Lemma concat_fmap_insert_same {A B} (f : A → list B) (ws : list A) i x y :
  ws !! i = Some x → f y = f x →
  concat (f <$> <[i := y]> ws) ≡ₚ concat (f <$> ws).
Proof.
  intros Hi Hf. apply (Permutation_app_inv_r (f x)).
  rewrite (concat_fmap_insert f ws i x y Hi). by rewrite Hf.
Qed.

Lemma omap_snoc {A B} (f : A → option B) (l : list A) (x : A) :
  omap f (l ++ [x]) = omap f l ++ option_list (f x).
Proof. rewrite omap_app. simpl. by destruct (f x). Qed.

Lemma always_before_nil P : always_before P [].
Proof. intros pre e post Heq. by destruct pre. Qed.

Lemma always_before_app P tr new :
  always_before P tr →
  (∀ new1 e new2, new = new1 ++ e :: new2 → P (tr ++ new1) e) →
  always_before P (tr ++ new).
Proof.
  intros Htr Hnew pre e post Heq.
  apply app_eq_app in Heq as [tl [[Htl Heq]|[Htl Heq]]].
  - destruct tl as [|e' tl]; simpl in Heq.
    + rewrite app_nil_r in Htl. subst pre.
      rewrite <- (app_nil_r tr). by apply (Hnew [] e post).
    + simplify_eq. by eapply Htr.
  - subst pre. by eapply Hnew.
Qed.

Lemma concat_fmap_nil {A B} (f : A → list B) (l : list A) :
  (∀ x, f x = []) → concat (f <$> l) = [].
Proof.
  intros Hf. induction l as [|x l IH]; [done|].
  by rewrite fmap_cons, concat_cons, Hf, IH.
Qed.
(** ** The scanner's worker pool *)

Lemma always_before_quiet P tr new :
  always_before P tr →
  (∀ e, e ∈ new → ∀ pre, P pre e) →
  always_before P (tr ++ new).
Proof.
  intros Htr Hnew. apply always_before_app; [done|].
  intros new1 e new2 ->. apply Hnew, elem_of_app. right. apply list_elem_of_here.
Qed.

(** Navigations and pauses are neither claims, nor skips, nor returns. *)
Lemma navigation_quiet w evs :
  Forall (navigation w) evs →
  claimed evs = [] ∧ skips evs = [] ∧ evaluated evs = [].
Proof.
  induction 1 as [|e evs He _ (IH1 & IH2 & IH3)]; [done|].
  unfold claimed, skips, evaluated in *. simpl.
  destruct e; simpl in *; try done.
Qed.

Lemma claimed_app tr1 tr2 : claimed (tr1 ++ tr2) = claimed tr1 ++ claimed tr2.
Proof. apply omap_app. Qed.
Lemma skips_app tr1 tr2 : skips (tr1 ++ tr2) = skips tr1 ++ skips tr2.
Proof. apply omap_app. Qed.
Lemma evaluated_app tr1 tr2 : evaluated (tr1 ++ tr2) = evaluated tr1 ++ evaluated tr2.
Proof. apply omap_app. Qed.

(** Rewriting the readings of a trace extended by a few events. *)
Ltac trace_simpl :=
  rewrite ?claimed_app, ?skips_app, ?evaluated_app;
  repeat match goal with
  | |- context [claimed (?e :: ?l)] => change (claimed (e :: l)) with (omap (λ e, match e with EvClaim _ w => Some w | _ => None end) (e :: l)); simpl omap
  | |- context [skips (?e :: ?l)] => change (skips (e :: l)) with (omap (λ e, match e with EvSkip _ w => Some w | _ => None end) (e :: l)); simpl omap
  | |- context [evaluated (?e :: ?l)] => change (evaluated (e :: l)) with (omap (λ e, match e with EvReturn w _ => Some w | _ => None end) (e :: l)); simpl omap
  end;
  rewrite ?app_nil_r, ?length_app; simpl length.

(** The effect on the per-worker lists of replacing the worker at [i]. *)
Ltac scanner_update Hwk Hat :=
  match goal with
  | |- context [<[_ := ?wk']> _] =>
      match type of Hwk with
      | _ !! _ = Some ?wk =>
          let lp := eval cbn in (Scanner.pending wk') in
          let lf := eval cbn in (Scanner.in_flight wk') in
          let lc := eval cbn in (Scanner.chunk wk') in
          pose proof (eq_refl (Scanner.pending wk)) as Hp;
          unfold Scanner.pending at 2 in Hp; rewrite Hat in Hp;
          pose proof (eq_refl (Scanner.in_flight wk)) as Hf;
          unfold Scanner.in_flight at 2 in Hf; rewrite Hat in Hf;
          pose proof (concat_fmap_insert_as Scanner.pending _ _ _ wk' _ lp
                        Hwk Hp eq_refl) as Hpend;
          pose proof (Permutation_length
                        (concat_fmap_insert_as Scanner.in_flight _ _ _ wk' _ lf
                           Hwk Hf eq_refl)) as Hfly;
          pose proof (Permutation_length
                        (concat_fmap_insert_as Scanner.chunk _ _ _ wk'
                           (Scanner.chunk wk) lc Hwk eq_refl eq_refl)) as Hchunk;
          rewrite ?length_app in Hfly, Hchunk; simpl length in Hfly, Hchunk;
          rewrite ?app_nil_r in Hpend; clear Hp Hf
      end
  end.

Section scanner_machine.
Context `{PyLib} (pg : page) (min_winrate min_pnl : float) (clock : nat → Z).

Local Abbreviation step := (Scanner.step pg min_winrate min_pnl clock).
Local Abbreviation exec := (Scanner.exec pg min_winrate min_pnl clock).
Local Abbreviation analyze_wallet := (Scanner.analyze_wallet pg min_winrate min_pnl).

Lemma scanner_exec_app sched1 sched2 st :
  exec (sched1 ++ sched2) st = exec sched2 (exec sched1 st).
Proof. apply foldl_app. Qed.

(** A property kept by every step holds after every schedule. *)
Lemma scanner_exec_invariant (Inv : Scanner.state → Prop) :
  (∀ i st, Inv st → Inv (step i st)) →
  ∀ sched st, Inv st → Inv (exec sched st).
Proof.
  intros Hstep sched. induction sched as [|i sched IH]; intros st Hst; [done|].
  simpl. apply IH, Hstep, Hst.
Qed.

Lemma scanner_attempts_navigate w attempts :
  Forall (navigation w) (Scanner.analyze_attempts pg min_winrate min_pnl w attempts).2.
Proof.
  induction attempts as [|t rest IH]; simpl; [constructor|].
  assert (Hretry : Forall (navigation w)
            (Scanner.retry_or_stop t
               (Scanner.analyze_attempts pg min_winrate min_pnl w rest)).2).
  { unfold Scanner.retry_or_stop. case_match; simpl; [|constructor].
    by constructor. }
  destruct (Scanner.retry_or_stop t _) as [r0 evs0]. simpl in Hretry.
  repeat case_match; simplify_eq/=; constructor; try done; try constructor.
Qed.

Lemma scanner_analyze_navigates w : Forall (navigation w) (analyze_wallet w).2.
Proof. apply scanner_attempts_navigate. Qed.

Lemma scanner_step_invariant scanned0 total i st :
  Scanner.invariant scanned0 total st → Scanner.invariant scanned0 total (step i st).
Proof.
  intros [Hsc Hnd Hfr Hpe Hsk Hpr Hto Hss]. unfold Scanner.step.
  destruct (Scanner.workers st !! i) as [wk|] eqn:Hwk; [|by constructor].
  destruct (Scanner.at_ wk) as [|w|w|w r] eqn:Hat.
  - destruct (Scanner.chunk wk) as [|w rest] eqn:Hch; [by constructor|].
    case_decide as Hin.
    + (* already in the in-run set: skipped *)
      scanner_update Hwk Hat. rewrite Hch in Hchunk. simpl in Hchunk.
      constructor; simpl; trace_simpl; try done; try lia.
      * by rewrite Hpend.
      * apply always_before_app; [done|]. intros new1 e new2 Hnew j w' ->.
        destruct new1 as [|? [|? ?]]; simplify_eq/=. rewrite app_nil_r.
        rewrite Hsc in Hin. apply elem_of_union in Hin as [?|Hin]; [by left|].
        right. by apply elem_of_list_to_set in Hin.
    + (* fresh: claimed *)
      scanner_update Hwk Hat. rewrite Hch in Hchunk. simpl in Hchunk.
      assert (Hnew : (w ∉ scanned0) ∧ (w ∉ claimed (Scanner.trace st))).
      { rewrite Hsc in Hin. split; intros ?; apply Hin.
        - by apply elem_of_union_l.
        - by apply elem_of_union_r, elem_of_list_to_set. }
      destruct Hnew as [Hnew0 Hnew1].
      constructor; simpl; trace_simpl; try done; try lia.
      * rewrite Hsc, list_to_set_app_L. simpl. set_solver.
      * apply NoDup_app. split_and!; [done| |apply NoDup_singleton].
        intros x Hx Hx'. apply list_elem_of_singleton in Hx'. by subst.
      * intros x Hx. apply elem_of_app in Hx as [Hx|Hx]; [by apply Hfr|].
        apply list_elem_of_singleton in Hx. by subst.
      * by rewrite Hpend, app_assoc, Hpe.
      * apply always_before_quiet; [done|].
        intros e He pre j w'. apply list_elem_of_singleton in He. by subst.
  - (* the ledger line is written *)
    scanner_update Hwk Hat.
    constructor; simpl; trace_simpl; try done; try lia.
    + apply Permutation_app_inv_r in Hpend. by rewrite Hpend.
    + apply always_before_quiet; [done|].
      intros e He pre j w'. apply list_elem_of_singleton in He. by subst.
  - (* the wallet is analyzed *)
    destruct (analyze_wallet w) as [r evs] eqn:Han.
    pose proof (scanner_analyze_navigates w) as Hnav. rewrite Han in Hnav. simpl in Hnav.
    destruct (navigation_quiet _ _ Hnav) as (Hq1 & Hq2 & Hq3).
    scanner_update Hwk Hat.
    constructor; simpl; trace_simpl; rewrite ?Hq1, ?Hq2, ?Hq3; simpl;
      rewrite ?app_nil_r, ?Nat.add_0_r; try done; try lia.
    + rewrite <- Hpe, <- Hpend, <- app_assoc.
      apply Permutation_app_head, Permutation_app_comm.
    + apply always_before_quiet; [done|].
      intros e He pre j w' ->. apply elem_of_app in He as [He|He].
      * by apply (proj1 (Forall_forall _ _) Hnav) in He.
      * by apply list_elem_of_singleton in He.
  - (* the counters are updated *)
    scanner_update Hwk Hat.
    constructor; simpl; trace_simpl; try done; try lia.
    + by rewrite Hpend.
    + apply always_before_quiet; [done|].
      intros e He pre j w' ->. set_solver.
Qed.

Lemma scanner_start_invariant num_pages scanned0 wallet_chunks fs :
  Scanner.invariant scanned0
    (length (concat ((Scanner.tasks num_pages wallet_chunks).*2)))
    (Scanner.start num_pages scanned0 wallet_chunks fs).
Proof.
  unfold Scanner.start.
  generalize (Scanner.tasks num_pages wallet_chunks). intros ts.
  constructor; simpl; rewrite <- ?list_fmap_compose; rewrite ?concat_fmap_nil by done;
    try done.
  - set_solver.
  - constructor.
  - by intros w ?%elem_of_nil.
  - apply always_before_nil.
Qed.

Lemma scanner_finished_idle st :
  Scanner.finished st = true →
  concat (Scanner.pending <$> Scanner.workers st) = [] ∧
  concat (Scanner.in_flight <$> Scanner.workers st) = [] ∧
  concat (Scanner.chunk <$> Scanner.workers st) = [].
Proof.
  unfold Scanner.finished. generalize (Scanner.workers st). intros ws.
  induction ws as [|wk ws IH]; [done|]. simpl forallb.
  intros [Hwk Hws]%andb_true_iff. destruct (IH Hws) as (IH1 & IH2 & IH3).
  rewrite !fmap_cons, !concat_cons, IH1, IH2, IH3, !app_nil_r.
  unfold Scanner.worker_done, Scanner.pending, Scanner.in_flight in *.
  destruct (Scanner.at_ wk); try done. by destruct (Scanner.chunk wk).
Qed.

(** The invariant holds all along every run. *)
Lemma scanner_run_invariant num_pages scanned0 wallet_chunks fs sched :
  Scanner.invariant scanned0
    (length (concat ((Scanner.tasks num_pages wallet_chunks).*2)))
    (exec sched (Scanner.start num_pages scanned0 wallet_chunks fs)).
Proof.
  apply scanner_exec_invariant; [|apply scanner_start_invariant].
  intros i st. apply scanner_step_invariant.
Qed.

End scanner_machine.


(** A run of two workers on a candidate file that names [a] twice: both
    occurrences land in the chunk of worker 0, which evaluates the first and
    skips the second. *)
Lemma duplicate_address_skipped :
  ∃ fs s,
    Scanner.run Demo.scenario_a 70 100 Demo.clock 2 [0; 0; 0; 0; 1; 1; 1; 1; 0]
      Demo.twice_listed = Some (Returned (fs, s)) ∧
    Scanner.ledger_file fs = ["a|1759406401"; "b|1759406407"] ∧
    Scanner.wallet <$> default [] (Scanner.output_file fs) = ["a"; "b"] ∧
    Scanner.processed s = 2 ∧ Scanner.passed s = 2 ∧ Scanner.skipped s = 1.
Proof.
  destruct (Scanner.run Demo.scenario_a 70 100 Demo.clock 2 [0; 0; 0; 0; 1; 1; 1; 1; 0]
              Demo.twice_listed) as [[[fs s]|e]|] eqn:Hrun; vm_compute in Hrun; try done.
  injection Hrun as <- <-. by eexists _, _.
Qed.
(** ** The analyzer's worker pool *)

Section analyzer_machine.
Context `{PyLib} (pg : page) (cfg : Analyzer.config) (clock : nat → Z).

Local Abbreviation step := (Analyzer.step pg cfg clock).
Local Abbreviation exec := (Analyzer.exec pg cfg clock).
Local Abbreviation analyze_wallet := (Analyzer.analyze_wallet pg cfg).

Lemma analyzer_exec_app sched1 sched2 st :
  exec (sched1 ++ sched2) st = exec sched2 (exec sched1 st).
Proof. apply foldl_app. Qed.

(** A property kept by every step holds after every schedule. *)
Lemma analyzer_exec_invariant (Inv : Analyzer.state → Prop) :
  (∀ i st, Inv st → Inv (step i st)) →
  ∀ sched st, Inv st → Inv (exec sched st).
Proof.
  intros Hstep sched. induction sched as [|i sched IH]; intros st Hst; [done|].
  simpl. apply IH, Hstep, Hst.
Qed.

Lemma analyzer_attempts_navigate w attempts :
  Forall (navigation w) (Analyzer.analyze_attempts pg cfg w attempts).2.
Proof.
  induction attempts as [|t rest IH]; simpl; [constructor|].
  assert (Hretry : Forall (navigation w)
            (Analyzer.retry_or_stop t (Analyzer.analyze_attempts pg cfg w rest)).2).
  { unfold Analyzer.retry_or_stop. case_match; simpl; [|constructor].
    by constructor. }
  destruct (Analyzer.retry_or_stop t _) as [r0 evs0]. simpl in Hretry.
  repeat case_match; simplify_eq/=; repeat (constructor; try done).
Qed.

Lemma analyzer_analyze_navigates w : Forall (navigation w) (analyze_wallet w).2.
Proof. apply analyzer_attempts_navigate. Qed.

(** *** The result file follows the in-run result list *)





End analyzer_machine.
(** ** When the ledger is written *)

Section order_facts.
Context `{PyLib} (pg : page) (clock : nat → Z).

(** In the scanner a worker that holds a claimed wallet has its claim in the
    trace, and one that is past [save_scanned_wallet] has the ledger write in
    the trace. *)
Lemma scanner_step_order min_winrate min_pnl i st :
  always_before ledger_before_goto (Scanner.trace st) ∧
  always_before claim_before_ledger (Scanner.trace st) ∧
  (∀ j wk w, Scanner.workers st !! j = Some wk → Scanner.at_ wk = Scanner.Tracked w →
             EvLedger w ∈ Scanner.trace st) ∧
  (∀ j wk w, Scanner.workers st !! j = Some wk → Scanner.at_ wk = Scanner.Claimed w →
             ∃ k, EvClaim k w ∈ Scanner.trace st) →
  let st' := Scanner.step pg min_winrate min_pnl clock i st in
  always_before ledger_before_goto (Scanner.trace st') ∧
  always_before claim_before_ledger (Scanner.trace st') ∧
  (∀ j wk w, Scanner.workers st' !! j = Some wk → Scanner.at_ wk = Scanner.Tracked w →
             EvLedger w ∈ Scanner.trace st') ∧
  (∀ j wk w, Scanner.workers st' !! j = Some wk → Scanner.at_ wk = Scanner.Claimed w →
             ∃ k, EvClaim k w ∈ Scanner.trace st').
Proof.
  intros (Hgo & Hle & Htr & Hcl). unfold Scanner.step.
  destruct (Scanner.workers st !! i) as [wk|] eqn:Hwk; [|done].
  assert (Hothers : ∀ new wk',
            Scanner.at_ wk' = Scanner.AtLoopHead ∨ (∃ w r, Scanner.at_ wk' = Scanner.Analyzed w r)
            ∨ (∃ w, Scanner.at_ wk' = Scanner.Tracked w ∧ EvLedger w ∈ Scanner.trace st ++ new)
            ∨ (∃ w k, Scanner.at_ wk' = Scanner.Claimed w ∧ EvClaim k w ∈ Scanner.trace st ++ new) →
            (∀ j wkj w, <[i := wk']> (Scanner.workers st) !! j = Some wkj →
                        Scanner.at_ wkj = Scanner.Tracked w →
                        EvLedger w ∈ Scanner.trace st ++ new) ∧
            (∀ j wkj w, <[i := wk']> (Scanner.workers st) !! j = Some wkj →
                        Scanner.at_ wkj = Scanner.Claimed w →
                        ∃ k, EvClaim k w ∈ Scanner.trace st ++ new)).
  { intros new wk' Hwk'. split; intros j wkj w Hj Hatj;
      apply list_lookup_insert_Some in Hj as [(-> & <- & _)|[Hne Hj]].
    - destruct Hwk' as [?|[(? & ? & ?)|[(? & ? & ?)|(? & ? & ? & ?)]]]; congruence.
    - apply elem_of_app. left. by eapply Htr.
    - destruct Hwk' as [?|[(? & ? & ?)|[(? & ? & ?)|(w' & k & ? & ?)]]]; try congruence.
      exists k. congruence.
    - destruct (Hcl _ _ _ Hj Hatj) as [k Hk]. exists k. apply elem_of_app. by left. }
  destruct (Scanner.at_ wk) as [|w|w|w r] eqn:Hat.
  - destruct (Scanner.chunk wk) as [|w rest] eqn:Hch; [done|].
    case_decide as Hin; simpl.
    + split_and!; [apply always_before_quiet; [done|]..| |].
      * intros e He pre w' t ->. set_solver.
      * intros e He pre w' ->. set_solver.
      * eapply Hothers. by left.
      * eapply Hothers. by left.
    + split_and!; [apply always_before_quiet; [done|]..| |].
      * intros e He pre w' t ->. set_solver.
      * intros e He pre w' ->. set_solver.
      * eapply Hothers. right; right; right. exists w, (Scanner.page_id wk).
        split; [done|]. set_solver.
      * eapply Hothers. right; right; right. exists w, (Scanner.page_id wk).
        split; [done|]. set_solver.
  - simpl. destruct (Hcl _ _ _ Hwk Hat) as [k Hk].
    split_and!.
    + apply always_before_quiet; [done|]. intros e He pre w' t ->. set_solver.
    + apply always_before_app; [done|]. intros new1 e new2 Hnew w' ->.
      destruct new1 as [|? [|? ?]]; simplify_eq/=. exists k. set_solver.
    + eapply Hothers. right; right; left. exists w. split; [done|]. set_solver.
    + eapply Hothers. right; right; left. exists w. split; [done|]. set_solver.
  - destruct (Scanner.analyze_wallet pg min_winrate min_pnl w) as [r evs] eqn:Han.
    pose proof (scanner_analyze_navigates pg min_winrate min_pnl w) as Hnav.
    rewrite Han in Hnav. simpl in Hnav. simpl.
    pose proof (Htr _ _ _ Hwk Hat) as Hw.
    split_and!.
    + apply always_before_app; [done|]. intros new1 e new2 Hnew w' t ->.
      assert (He : EvGoto w' t ∈ evs ++ [EvReturn w (bool_decide (is_Some r))]).
      { rewrite Hnew. set_solver. }
      apply elem_of_app in He as [He|He]; [|set_solver].
      apply (proj1 (Forall_forall _ _) Hnav) in He. simpl in He. subst w'.
      set_solver.
    + apply always_before_quiet; [done|]. intros e He pre w' ->.
      apply elem_of_app in He as [He|He]; [|set_solver].
      by apply (proj1 (Forall_forall _ _) Hnav) in He.
    + eapply Hothers. right; left. eauto.
    + eapply Hothers. right; left. eauto.
  - simpl. split_and!; [apply always_before_quiet; [done|]..| |].
    + intros e He pre w' t ->. set_solver.
    + intros e He pre w' ->. set_solver.
    + eapply Hothers. by left.
    + eapply Hothers. by left.
Qed.

Lemma scanner_run_order min_winrate min_pnl num_pages scanned0 wallet_chunks fs sched :
  let st := Scanner.exec pg min_winrate min_pnl clock sched
              (Scanner.start num_pages scanned0 wallet_chunks fs) in
  always_before ledger_before_goto (Scanner.trace st) ∧
  always_before claim_before_ledger (Scanner.trace st).
Proof.
  intros st.
  cut (always_before ledger_before_goto (Scanner.trace st) ∧
       always_before claim_before_ledger (Scanner.trace st) ∧
       (∀ j wk w, Scanner.workers st !! j = Some wk →
                  Scanner.at_ wk = Scanner.Tracked w → EvLedger w ∈ Scanner.trace st) ∧
       (∀ j wk w, Scanner.workers st !! j = Some wk →
                  Scanner.at_ wk = Scanner.Claimed w → ∃ k, EvClaim k w ∈ Scanner.trace st)).
  { intros (? & ? & _). done. }
  unfold st. apply scanner_exec_invariant.
  - intros i st0. apply scanner_step_order.
  - unfold Scanner.start. simpl. split_and!; try apply always_before_nil.
    + intros j wk w Hj Hat. apply list_lookup_fmap_Some in Hj as (t & -> & _). done.
    + intros j wk w Hj Hat. apply list_lookup_fmap_Some in Hj as (t & -> & _). done.
Qed.

(** In the analyzer a worker that has an outcome in hand has the return of
    [analyze_wallet] in the trace. *)
Lemma analyzer_step_order cfg i st :
  always_before return_before_ledger (Analyzer.trace st) ∧
  (∀ j wk w r, Analyzer.workers st !! j = Some wk →
               Analyzer.at_ wk = Analyzer.Analyzed w r →
               ∃ b, EvReturn w b ∈ Analyzer.trace st) →
  let st' := Analyzer.step pg cfg clock i st in
  always_before return_before_ledger (Analyzer.trace st') ∧
  (∀ j wk w r, Analyzer.workers st' !! j = Some wk →
               Analyzer.at_ wk = Analyzer.Analyzed w r →
               ∃ b, EvReturn w b ∈ Analyzer.trace st').
Proof.
  intros (Hle & Han). unfold Analyzer.step.
  destruct (Analyzer.workers st !! i) as [wk|] eqn:Hwk; [|done].
  assert (Hothers : ∀ new wk',
            (∀ w r, Analyzer.at_ wk' = Analyzer.Analyzed w r →
                    ∃ b, EvReturn w b ∈ Analyzer.trace st ++ new) →
            ∀ j wkj w r, <[i := wk']> (Analyzer.workers st) !! j = Some wkj →
                         Analyzer.at_ wkj = Analyzer.Analyzed w r →
                         ∃ b, EvReturn w b ∈ Analyzer.trace st ++ new).
  { intros new wk' Hwk' j wkj w r Hj Hatj.
    apply list_lookup_insert_Some in Hj as [(-> & <- & _)|[Hne Hj]]; [by eapply Hwk'|].
    destruct (Han _ _ _ _ Hj Hatj) as [b Hb]. exists b. apply elem_of_app. by left. }
  destruct (Analyzer.at_ wk) as [|w r|w r|w r] eqn:Hat.
  - destruct (Analyzer.chunk wk) as [|w rest] eqn:Hch; [done|].
    destruct (Analyzer.analyze_wallet pg cfg w) as [r evs] eqn:Hev.
    pose proof (analyzer_analyze_navigates pg cfg w) as Hnav.
    rewrite Hev in Hnav. simpl in Hnav. simpl. split.
    + apply always_before_quiet; [done|]. intros e He pre w' ->.
      apply elem_of_app in He as [He|He]; [|set_solver].
      by apply (proj1 (Forall_forall _ _) Hnav) in He.
    + apply Hothers. simpl. intros w' r' [= <- <-].
      exists (bool_decide (is_Some r)). set_solver.
  - simpl. destruct (Han _ _ _ _ Hwk Hat) as [b Hb]. split.
    + apply always_before_app; [done|]. intros new1 e new2 Hnew w' ->.
      destruct new1 as [|? [|? ?]]; simplify_eq/=. exists b. set_solver.
    + apply Hothers. by simpl.
  - simpl. split; [done|]. intros j wkj w' r' Hj Hatj.
    edestruct (Hothers []) as [b Hb]; [|exact Hj|exact Hatj|].
    + by simpl.
    + exists b. by rewrite app_nil_r in Hb.
  - assert (Hquiet : ∀ new, (∀ e, e ∈ new → ∀ w', e ≠ EvLedger w') →
              always_before return_before_ledger (Analyzer.trace st ++ new)).
    { intros new Hnew. apply always_before_quiet; [done|].
      intros e He pre w' ->. by destruct (Hnew _ He w'). }
    destruct r as [d|]; [destruct (Analyzer.is_passed (Some d))|]; simpl; split;
      try (apply Hquiet; intros e He w' ->; set_solver);
      by apply Hothers.
Qed.

Lemma analyzer_run_order cfg scanned wallet_chunks fs sched :
  let st := Analyzer.exec pg cfg clock sched
              (Analyzer.start cfg scanned wallet_chunks fs) in
  always_before return_before_ledger (Analyzer.trace st).
Proof.
  intros st.
  cut (always_before return_before_ledger (Analyzer.trace st) ∧
       (∀ j wk w r, Analyzer.workers st !! j = Some wk →
                    Analyzer.at_ wk = Analyzer.Analyzed w r →
                    ∃ b, EvReturn w b ∈ Analyzer.trace st)).
  { by intros [? _]. }
  unfold st. apply analyzer_exec_invariant.
  - intros i st0. apply analyzer_step_order.
  - unfold Analyzer.start. simpl. split; [apply always_before_nil|].
    intros j wk w r Hj Hat. apply list_lookup_fmap_Some in Hj as (t & -> & _). done.
Qed.

End order_facts.
(** ** Claims about the ledger and the result file *)

(** C8 fails on the analyzer: its worker calls [save_scanned_wallet] after
    [analyze_wallet] has returned, so the navigation comes before the ledger
    write. *)
Lemma analyzer_ledger_after_evaluation :
  let cfg := Demo.defaults 1 ["w"] in
  let tr := Analyzer.trace
              (Analyzer.exec Demo.scenario_a cfg Demo.clock [0; 0]
                 (Analyzer.start cfg ∅ [["w"]] Demo.fresh)) in
  tr = [EvGoto "w" 0; EvSleep 10; EvReturn "w" true; EvLedger "w"] ∧
  ¬ always_before ledger_before_goto tr.
Proof.
  intros cfg tr. split; [reflexivity|]. intros Hord.
  specialize (Hord [] (EvGoto "w" 0) [EvSleep 10; EvReturn "w" true; EvLedger "w"]
                eq_refl "w" 0 eq_refl).
  by apply elem_of_nil in Hord.
Qed.

(** C8 (amended).  In the scanner, for every wallet a worker evaluates, the
    ledger write is the worker's next action after claiming the wallet and
    comes before every navigation of the evaluation of that wallet, whatever
    the interleaving.  In the analyzer the ledger write is the worker's next
    action after [analyze_wallet] has returned, so it follows the
    evaluation. *)
Theorem ledger_write_order `{PyLib} (pg : page) (clock : nat → Z) (sched : list nat) :
  (∀ min_winrate min_pnl num_pages scanned0 wallet_chunks fs,
     let st := Scanner.exec pg min_winrate min_pnl clock sched
                 (Scanner.start num_pages scanned0 wallet_chunks fs) in
     always_before ledger_before_goto (Scanner.trace st) ∧
     always_before claim_before_ledger (Scanner.trace st) ∧
     (∀ i wk w, Scanner.workers st !! i = Some wk →
                Scanner.at_ wk = Scanner.Claimed w →
                Scanner.trace (Scanner.step pg min_winrate min_pnl clock i st)
                  = Scanner.trace st ++ [EvLedger w])) ∧
  (∀ cfg scanned wallet_chunks fs,
     let st := Analyzer.exec pg cfg clock sched
                 (Analyzer.start cfg scanned wallet_chunks fs) in
     always_before return_before_ledger (Analyzer.trace st) ∧
     (∀ i wk w r, Analyzer.workers st !! i = Some wk →
                  Analyzer.at_ wk = Analyzer.Analyzed w r →
                  Analyzer.trace (Analyzer.step pg cfg clock i st)
                    = Analyzer.trace st ++ [EvLedger w])).
Proof.
  split.
  - intros min_winrate min_pnl num_pages scanned0 wallet_chunks fs st.
    destruct (scanner_run_order pg clock min_winrate min_pnl num_pages scanned0
                wallet_chunks fs sched) as [Hgo Hcl].
    split_and!; [done..|].
    intros i wk w Hwk Hat. unfold Scanner.step. by rewrite Hwk, Hat.
  - intros cfg scanned wallet_chunks fs st. split.
    + apply analyzer_run_order.
    + intros i wk w r Hwk Hat. unfold Analyzer.step. by rewrite Hwk, Hat.
Qed.

Lemma ledger_write_order_witness :
  Scanner.trace
    (Scanner.exec Demo.scenario_a 70 100 Demo.clock [0; 0; 0]
       (Scanner.start 1 ∅ [["w"]]
          {| Scanner.input_file := Some ["w"]; Scanner.ledger_file := [];
             Scanner.output_file := None |}))
  = [EvClaim 0 "w"; EvLedger "w"; EvGoto "w" 0; EvReturn "w" true] ∧
  always_before ledger_before_goto
    [EvClaim 0 "w"; EvLedger "w"; EvGoto "w" 0; EvReturn "w" true].
Proof.
  split; [reflexivity|].
  destruct (ledger_write_order Demo.scenario_a Demo.clock [0; 0; 0]) as [Hs _].
  destruct (Hs 70%float 100%float 1 ∅ [["w"]]
              {| Scanner.input_file := Some ["w"]; Scanner.ledger_file := [];
                 Scanner.output_file := None |}) as [Hgo _].
  exact Hgo.
Defined.
(** * The scan ledger *)

(** ** Writing a line and reading it back *)

Lemma append_cons c s1 s2 : String c s1 +:+ s2 = String c (s1 +:+ s2).
Proof. reflexivity. Qed.

Lemma append_nil s : "" +:+ s = s.
Proof. reflexivity. Qed.

Lemma wallet_ok_cons c w :
  wallet_ok (String c w) = true →
  c ≠ "|"%char ∧ py_isspace c = false ∧ wallet_ok w = true.
Proof.
  unfold wallet_ok. simpl. case_decide; [done|].
  intros [Hbar [Hsp Hgo]%andb_true_iff]%andb_true_iff.
  split_and!; [done|by destruct (py_isspace c)|]. by rewrite Hbar, Hgo.
Qed.

Lemma bar_not_space : py_isspace "|" = false.
Proof. reflexivity. Qed.

Lemma rstrip_cons c s :
  rstrip (String c s) =
    if is_empty (rstrip s) && py_isspace c then "" else String c (rstrip s).
Proof. reflexivity. Qed.

Lemma lstrip_cons c s :
  lstrip (String c s) = if py_isspace c then lstrip s else String c s.
Proof. reflexivity. Qed.

Lemma has_char_cons a c s :
  has_char a (String c s) = if decide (c = a) then true else has_char a s.
Proof. reflexivity. Qed.

Lemma before_char_cons a c s :
  before_char a (String c s) =
    if decide (c = a) then "" else String c (before_char a s).
Proof. reflexivity. Qed.

Lemma lstrip_wallet w tl :
  wallet_ok w = true → lstrip (w +:+ String "|" tl) = w +:+ String "|" tl.
Proof.
  destruct w as [|c w]; [done|]. intros (_ & Hsp & _)%wallet_ok_cons.
  by rewrite (append_cons c w), lstrip_cons, Hsp.
Qed.

Lemma rstrip_wallet w tl :
  wallet_ok w = true → rstrip (w +:+ String "|" tl) = w +:+ String "|" (rstrip tl).
Proof.
  induction w as [|c w IH].
  - intros _. rewrite !append_nil.
    by rewrite rstrip_cons, bar_not_space, andb_false_r.
  - intros (_ & Hsp & Hw)%wallet_ok_cons.
    rewrite !(append_cons c w), rstrip_cons, IH by done.
    by rewrite Hsp, andb_false_r.
Qed.

Lemma entry_of_wallet w tl :
  wallet_ok w = true →
  is_empty (w +:+ String "|" tl) = false ∧
  has_char "|" (w +:+ String "|" tl) = true ∧
  before_char "|" (w +:+ String "|" tl) = w.
Proof.
  induction w as [|c w IH].
  - intros _. rewrite !append_nil.
    by rewrite has_char_cons, before_char_cons, !decide_True.
  - intros (Hbar & _ & Hw)%wallet_ok_cons. rewrite !(append_cons c w).
    destruct (IH Hw) as (_ & Hh & Hb).
    by rewrite has_char_cons, before_char_cons, Hh, Hb, !decide_False.
Qed.

(** A line written by [save_scanned_wallet] reads back as its wallet. *)
Lemma ledger_entry_line w timestamp :
  wallet_ok w = true → ledger_entry (ledger_line w timestamp) = Some w.
Proof.
  intros Hw. unfold ledger_entry, ledger_line, strip.
  change ("|" +:+ pretty timestamp) with (String "|" (pretty timestamp)).
  rewrite lstrip_wallet, rstrip_wallet by done.
  destruct (entry_of_wallet w (rstrip (pretty timestamp)) Hw) as (-> & -> & ->). done.
Qed.

(** ** Loading the ledger *)

Lemma elem_of_load_from (acc : gset string) file w :
  w ∈ foldl (λ wallets line,
               let line := strip line in
               if negb (is_empty line) && has_char "|" line
               then wallets ∪ {[ before_char "|" line ]}
               else wallets) acc file
  ↔ w ∈ acc ∨ ∃ line, line ∈ file ∧ ledger_entry line = Some w.
Proof.
  revert acc. induction file as [|l file IH]; intros acc; simpl.
  - split; [by left|]. intros [?|(? & ?%elem_of_nil & _)]; done.
  - rewrite IH. unfold ledger_entry at 2. split.
    + intros [Hacc|(line & Hin & He)].
      * destruct (negb (is_empty (strip l)) && has_char "|" (strip l)) eqn:Hl.
        -- apply elem_of_union in Hacc as [?|Hw]; [by left|]. right.
           apply elem_of_singleton in Hw. exists l. split; [apply list_elem_of_here|].
           unfold ledger_entry. rewrite Hl. by subst.
        -- by left.
      * right. exists line. split; [by apply list_elem_of_further|done].
    + intros [Hacc|(line & Hin & He)].
      * left. destruct (_ && _); [by apply elem_of_union_l|done].
      * apply elem_of_cons in Hin as [->|Hin].
        -- left. unfold ledger_entry in He. destruct (_ && _); [|done].
           apply elem_of_union_r, elem_of_singleton. congruence.
        -- right. by exists line.
Qed.

Lemma elem_of_load file w :
  w ∈ load_scanned_wallets file ↔ ∃ line, line ∈ file ∧ ledger_entry line = Some w.
Proof.
  unfold load_scanned_wallets. rewrite elem_of_load_from. split; [|by right].
  intros [?%not_elem_of_empty|?]; done.
Qed.

(** The ledger is append-only: what it held, it holds. *)
Lemma load_mono file file' :
  file ⊆ file' → load_scanned_wallets file ⊆ load_scanned_wallets file'.
Proof.
  intros Hsub w. rewrite !elem_of_load. intros (line & Hin & He).
  exists line. split; [by apply Hsub|done].
Qed.

Lemma load_recorded file w timestamp :
  wallet_ok w = true →
  ledger_line w timestamp ∈ file →
  w ∈ load_scanned_wallets file.
Proof.
  intros Hw Hin. apply elem_of_load. exists (ledger_line w timestamp).
  split; [done|]. by apply ledger_entry_line.
Qed.
(** ** Every wallet handed to a task reaches the ledger *)

Section coverage_facts.
Context `{PyLib} (pg : page) (clock : nat → Z).

(** *** Analyzer *)

Lemma analyzer_step_other cfg i j st :
  j ≠ i →
  Analyzer.workers (Analyzer.step pg cfg clock i st) !! j = Analyzer.workers st !! j.
Proof.
  intros Hne. unfold Analyzer.step.
  destruct (Analyzer.workers st !! i) as [wk|]; [|done].
  destruct (Analyzer.at_ wk) as [|w r|w r|w r]; simpl.
  - destruct (Analyzer.chunk wk); [done|]. destruct (Analyzer.analyze_wallet _ _ _).
    simpl. by apply list_lookup_insert_ne.
  - by apply list_lookup_insert_ne.
  - by apply list_lookup_insert_ne.
  - destruct r as [d|]; [destruct (Analyzer.is_passed _)|]; simpl;
      by apply list_lookup_insert_ne.
Qed.

Lemma analyzer_step_ledger cfg i st :
  Analyzer.ledger st ⊆ Analyzer.ledger (Analyzer.step pg cfg clock i st).
Proof.
  unfold Analyzer.step.
  destruct (Analyzer.workers st !! i) as [wk|]; [|done].
  destruct (Analyzer.at_ wk) as [|w r|w r|w r]; simpl; try done.
  - destruct (Analyzer.chunk wk); [done|]. by destruct (Analyzer.analyze_wallet _ _ _).
  - unfold save_scanned_wallet. set_solver.
  - destruct r as [d|]; [destruct (Analyzer.is_passed _)|]; done.
Qed.

Lemma analyzer_exec_ledger cfg sched st :
  Analyzer.ledger st ⊆ Analyzer.ledger (Analyzer.exec pg cfg clock sched st).
Proof.
  revert st. induction sched as [|i sched IH]; intros st; [done|]. simpl.
  etrans; [apply (analyzer_step_ledger cfg i)|apply IH].
Qed.

Lemma analyzer_step_covered cfg w i st :
  Analyzer.covered w st → Analyzer.covered w (Analyzer.step pg cfg clock i st).
Proof.
  intros [(j & wkj & Hj & Hc)|(ts & Hts)]; [|right; exists ts; by apply analyzer_step_ledger].
  destruct (decide (j = i)) as [->|Hne];
    [|left; exists j, wkj; by rewrite analyzer_step_other].
  unfold Analyzer.covered, Analyzer.step. rewrite Hj.
  destruct (Analyzer.at_ wkj) as [|w0 r0|w0 r0|w0 r0] eqn:Hat.
  - destruct Hc as [Hc|[r Hr]]; [|done].
    destruct (Analyzer.chunk wkj) as [|w0 rest] eqn:Hch; [by apply elem_of_nil in Hc|].
    destruct (Analyzer.analyze_wallet pg cfg w0) as [r evs]. simpl.
    left. eexists i, _. split.
    + apply list_lookup_insert_eq. by eapply lookup_lt_Some.
    + simpl. apply elem_of_cons in Hc as [->|Hc]; [right; eauto|by left].
  - simpl. destruct Hc as [Hc|[r Hr]].
    + left. eexists i, _. split; [apply list_lookup_insert_eq; by eapply lookup_lt_Some|].
      by left.
    + simplify_eq. right. exists (clock (length (Analyzer.trace st))).
      unfold save_scanned_wallet. apply elem_of_app. right. apply list_elem_of_here.
  - simpl. destruct Hc as [Hc|[r Hr]]; [|done].
    left. eexists i, _. split; [apply list_lookup_insert_eq; by eapply lookup_lt_Some|].
    by left.
  - destruct Hc as [Hc|[r Hr]]; [|done].
    destruct r0 as [d|]; [destruct (Analyzer.is_passed _)|]; simpl;
      left; eexists i, _;
      (split; [apply list_lookup_insert_eq; by eapply lookup_lt_Some|by left]).
Qed.

Lemma analyzer_exec_covered cfg w sched st :
  Analyzer.covered w st → Analyzer.covered w (Analyzer.exec pg cfg clock sched st).
Proof.
  apply (analyzer_exec_invariant pg cfg clock (Analyzer.covered w)).
  intros i st0. apply analyzer_step_covered.
Qed.

Lemma analyzer_finished_covered w st :
  Analyzer.finished st = true → Analyzer.covered w st →
  ∃ timestamp, ledger_line w timestamp ∈ Analyzer.ledger st.
Proof.
  intros Hfin [(j & wk & Hj & Hc)|?]; [|done]. exfalso.
  unfold Analyzer.finished in Hfin. rewrite forallb_forall in Hfin.
  assert (Hdone : Analyzer.worker_done wk = true).
  { apply Hfin, list_elem_of_In. by eapply list_elem_of_lookup_2. }
  unfold Analyzer.worker_done in Hdone.
  destruct (Analyzer.at_ wk) eqn:Hat; try done.
  destruct (Analyzer.chunk wk); [|done].
  destruct Hc as [Hc|[r Hr]]; [by apply elem_of_nil in Hc|done].
Qed.

End coverage_facts.
(** ** A second run of the analyzer *)

Lemma filter_none {A} (P : A → Prop) `{!∀ x, Decision (P x)} (l : list A) :
  (∀ x, x ∈ l → ¬ P x) → filter P l = [].
Proof.
  induction l as [|x l IH]; intros Hl; [done|].
  rewrite filter_cons, decide_False by (apply Hl, list_elem_of_here).
  apply IH. intros y Hy. by apply Hl, list_elem_of_further.
Qed.

Lemma numbered_from_elem {A} s (chunks : list (list A)) k c :
  chunks !! k = Some c → c ≠ [] → (s + k, c) ∈ numbered_from s chunks.
Proof.
  intros Hk Hc. unfold numbered_from. apply list_elem_of_filter. split.
  - simpl. by destruct c.
  - apply list_elem_of_lookup. exists k. apply lookup_zip_with_Some.
    exists (s + k), c. split_and!; [done| |done].
    apply lookup_seq. split; [done|]. by eapply lookup_lt_Some.
Qed.

Lemma analyzer_distribute_inv {A} (l : list A) n chunks :
  l ≠ [] →
  Analyzer._distribute_wallets l n = Returned chunks →
  0 < n ∧ length chunks ≤ n ∧ concat chunks ≡ₚ l.
Proof.
  intros Hl Hd. destruct (decide (n = 0)) as [->|Hn].
  { destruct l as [|x l]; [done|]. by simpl in Hd. }
  assert (Hperm : concat chunks ≡ₚ l).
  { destruct l as [|x l]; [done|]. unfold Analyzer._distribute_wallets in Hd.
    apply place_permutation in Hd.
    by rewrite concat_replicate_nil, snd_enumerate in Hd. }
  rewrite analyzer_distribute_returns in Hd by (done || lia).
  injection Hd as <-. split_and!; [lia| |done].
  rewrite length_fmap, length_seq. lia.
Qed.

Section analyzer_rerun.
Context `{PyLib} (pg : page) (cfg : Analyzer.config) (clock : nat → Z).

Lemma analyzer_start_covered scanned wallet_chunks fs w :
  length wallet_chunks ≤ Analyzer.num_pages cfg →
  w ∈ concat wallet_chunks →
  Analyzer.covered w (Analyzer.start cfg scanned wallet_chunks fs).
Proof.
  intros Hlen Hw. left. apply elem_of_concat in Hw as (c & Hwc & Hc).
  apply list_elem_of_lookup in Hc as [k Hk].
  assert (Hin : (0 + k, c) ∈ Analyzer.tasks (Analyzer.num_pages cfg) wallet_chunks).
  { rewrite analyzer_tasks_numbered by done. apply numbered_from_elem; [done|].
    intros ->. by apply elem_of_nil in Hwc. }
  apply list_elem_of_lookup in Hin as [j Hj].
  exists j, {| Analyzer.worker_id := 0 + k; Analyzer.chunk := c;
               Analyzer.at_ := Analyzer.AtLoopHead |}.
  split; [|by left]. unfold Analyzer.start. simpl.
  by rewrite list_lookup_fmap, Hj.
Qed.

(** After a run that started its tasks every configured wallet is in the
    ledger. *)
Lemma analyzer_run_records sched fs wallet_chunks :
  Forall (λ w, wallet_ok w = true) (Analyzer.wallets cfg) →
  let scanned := load_scanned_wallets (Analyzer.ledger_file fs) in
  let unscanned := filter (λ w, w ∉ scanned) (Analyzer.wallets cfg) in
  unscanned ≠ [] →
  Analyzer._distribute_wallets unscanned (Analyzer.num_pages cfg) = Returned wallet_chunks →
  let st := Analyzer.exec pg cfg clock sched
              (Analyzer.start cfg scanned wallet_chunks fs) in
  Analyzer.finished st = true →
  ∀ w, w ∈ Analyzer.wallets cfg → w ∈ load_scanned_wallets (Analyzer.ledger st).
Proof.
  intros Hok scanned unscanned Hne Hd st Hfin w Hw.
  destruct (analyzer_distribute_inv _ _ _ Hne Hd) as (Hn & Hlen & Hperm).
  destruct (decide (w ∈ scanned)) as [Hin|Hnin].
  - apply (load_mono (Analyzer.ledger (Analyzer.start cfg scanned wallet_chunks fs)));
      [apply (analyzer_exec_ledger pg clock)|exact Hin].
  - assert (Hun : w ∈ concat wallet_chunks).
    { rewrite Hperm. by apply list_elem_of_filter. }
    destruct (analyzer_finished_covered w st Hfin) as [ts Hts].
    { apply analyzer_exec_covered. by apply analyzer_start_covered. }
    apply (load_recorded _ _ ts); [|done].
    by apply (proj1 (Forall_forall _ _) Hok).
Qed.

End analyzer_rerun.

(** The analyzer's run leaves a ledger on which a second run has nothing to
    do. *)
Lemma analyzer_second_run `{PyLib} pg cfg clock sched1 fs fs1 s1 pg' clock' sched2 :
  Forall (λ w, wallet_ok w = true) (Analyzer.wallets cfg) →
  Analyzer.run pg cfg clock sched1 fs = Some (fs1, s1) →
  ∃ s2, Analyzer.run pg' cfg clock' sched2 fs1 = Some (fs1, s2) ∧
        Analyzer.total_scanned s2 = 0 ∧ Analyzer.total_passed s2 = 0.
Proof.
  intros Hok Hrun. unfold Analyzer.run, Analyzer._load_unscanned_wallets in Hrun.
  cbv beta iota zeta in Hrun.
  destruct (filter _ (Analyzer.wallets cfg)) as [|w0 ws] eqn:Hun.
  { (* nothing to scan in the first run: the files are the same *)
    simpl in Hrun. simplify_eq.
    unfold Analyzer.run, Analyzer._load_unscanned_wallets. cbv beta iota zeta.
    rewrite Hun. simpl. eauto. }
  simpl negb in Hrun. cbv iota in Hrun.
  destruct (Analyzer._distribute_wallets (w0 :: ws) (Analyzer.num_pages cfg))
    as [wallet_chunks|e] eqn:Hd.
  2:{ (* the distributor raised: again the files are the same *)
      simplify_eq. unfold Analyzer.run, Analyzer._load_unscanned_wallets.
      cbv beta iota zeta. rewrite Hun. simpl negb. cbv iota. rewrite Hd. eauto. }
  destruct (Analyzer.finished _) eqn:Hfin; [|done]. simplify_eq.
  assert (Hall : ∀ w, w ∈ Analyzer.wallets cfg →
            w ∈ load_scanned_wallets
                  (Analyzer.ledger (Analyzer.exec pg cfg clock sched1
                     (Analyzer.start cfg (load_scanned_wallets (Analyzer.ledger_file fs))
                        wallet_chunks fs)))).
  { apply analyzer_run_records; try done; rewrite Hun; done. }
  unfold Analyzer.run, Analyzer._load_unscanned_wallets. cbv beta iota zeta.
  simpl Analyzer.ledger_file.
  rewrite filter_none.
  - simpl. eauto.
  - intros w Hw Hnot. by apply Hnot, Hall.
Qed.
(** ** A second run of the scanner *)

Lemma scanner_distribute_inv {A} (l : list A) n chunks :
  l ≠ [] →
  Scanner.distribute_wallets n l = Returned chunks →
  0 < n ∧ length chunks = n ∧ concat chunks ≡ₚ l.
Proof.
  intros Hl Hd. destruct (decide (n = 0)) as [->|Hn].
  { destruct l as [|x l]; [done|]. by simpl in Hd. }
  assert (Hperm : concat chunks ≡ₚ l).
  { apply place_permutation in Hd.
    by rewrite concat_replicate_nil, snd_enumerate in Hd. }
  rewrite scanner_distribute_returns in Hd by lia.
  injection Hd as <-. split_and!; [lia| |done].
  by rewrite length_fmap, length_seq.
Qed.

Section scanner_rerun.
Context `{PyLib} (pg : page) (min_winrate min_pnl : float) (clock : nat → Z).

Local Abbreviation step := (Scanner.step pg min_winrate min_pnl clock).
Local Abbreviation exec := (Scanner.exec pg min_winrate min_pnl clock).

Lemma scanner_step_other i j st :
  j ≠ i → Scanner.workers (step i st) !! j = Scanner.workers st !! j.
Proof.
  intros Hne. unfold Scanner.step.
  destruct (Scanner.workers st !! i) as [wk|]; [|done].
  destruct (Scanner.at_ wk) as [|w|w|w r]; simpl.
  - destruct (Scanner.chunk wk); [done|]. case_decide; simpl;
      by apply list_lookup_insert_ne.
  - by apply list_lookup_insert_ne.
  - destruct (Scanner.analyze_wallet _ _ _ _). simpl. by apply list_lookup_insert_ne.
  - by apply list_lookup_insert_ne.
Qed.

Lemma scanner_step_ledger i st : Scanner.ledger st ⊆ Scanner.ledger (step i st).
Proof.
  unfold Scanner.step.
  destruct (Scanner.workers st !! i) as [wk|]; [|done].
  destruct (Scanner.at_ wk) as [|w|w|w r]; simpl; try done.
  - destruct (Scanner.chunk wk); [done|]. by case_decide.
  - unfold save_scanned_wallet. intros x Hx. apply elem_of_app. by left.
  - by destruct (Scanner.analyze_wallet _ _ _ _).
Qed.

Lemma scanner_exec_ledger sched st : Scanner.ledger st ⊆ Scanner.ledger (exec sched st).
Proof.
  revert st. induction sched as [|i sched IH]; intros st; [done|]. simpl.
  etrans; [apply (scanner_step_ledger i)|apply IH].
Qed.

Lemma scanner_step_scanned i st :
  Scanner.scanned_wallets st ⊆ Scanner.scanned_wallets (step i st).
Proof.
  unfold Scanner.step.
  destruct (Scanner.workers st !! i) as [wk|]; [|done].
  destruct (Scanner.at_ wk) as [|w|w|w r]; simpl; try done.
  - destruct (Scanner.chunk wk); [done|]. case_decide; simpl; set_solver.
  - by destruct (Scanner.analyze_wallet _ _ _ _).
Qed.

Lemma scanner_step_covered w i st :
  Scanner.covered w st → Scanner.covered w (step i st).
Proof.
  intros [(j & wkj & Hj & Hc)|Hin]; [|right; by apply scanner_step_scanned].
  destruct (decide (j = i)) as [->|Hne];
    [|left; exists j, wkj; by rewrite scanner_step_other].
  assert (Hi : i < length (Scanner.workers st)) by (by eapply lookup_lt_Some).
  unfold Scanner.covered, Scanner.step. rewrite Hj.
  destruct (Scanner.at_ wkj) as [|w0|w0|w0 r0] eqn:Hat.
  - destruct (Scanner.chunk wkj) as [|w0 rest] eqn:Hch; [by apply elem_of_nil in Hc|].
    apply elem_of_cons in Hc as [->|Hc]; case_decide; simpl.
    + by right.
    + right. set_solver.
    + left. eexists i, _. split; [by apply list_lookup_insert_eq|done].
    + left. eexists i, _. split; [by apply list_lookup_insert_eq|done].
  - simpl. left. eexists i, _. split; [by apply list_lookup_insert_eq|done].
  - destruct (Scanner.analyze_wallet _ _ _ _). simpl.
    left. eexists i, _. split; [by apply list_lookup_insert_eq|done].
  - simpl. left. eexists i, _. split; [by apply list_lookup_insert_eq|done].
Qed.

Lemma scanner_step_recorded scanned0 i st :
  Scanner.recorded scanned0 st → Scanner.recorded scanned0 (step i st).
Proof.
  intros Hrec w Hw.
  assert (Hkeep : w ∈ Scanner.scanned_wallets st →
            (∀ wk, Scanner.workers st !! i = Some wk → Scanner.at_ wk ≠ Scanner.Claimed w) →
            w ∈ scanned0
            ∨ (∃ j wk, Scanner.workers (step i st) !! j = Some wk ∧
                       Scanner.at_ wk = Scanner.Claimed w)
            ∨ ∃ timestamp, ledger_line w timestamp ∈ Scanner.ledger (step i st)).
  { intros Hold Hnot. destruct (Hrec w Hold) as [?|[(j & wkj & Hj & Hat)|[ts Hts]]].
    - by left.
    - right; left. exists j, wkj. split; [|done].
      rewrite scanner_step_other; [done|]. intros ->. by eapply Hnot.
    - right; right. exists ts. by apply scanner_step_ledger. }
  revert Hw Hkeep. unfold Scanner.step.
  destruct (Scanner.workers st !! i) as [wk|] eqn:Hwk; [|by intros Hw Hkeep; apply Hrec].
  assert (Hi : i < length (Scanner.workers st)) by (by eapply lookup_lt_Some).
  destruct (Scanner.at_ wk) as [|w0|w0|w0 r0] eqn:Hat.
  - destruct (Scanner.chunk wk) as [|w0 rest] eqn:Hch; [by intros Hw Hkeep; apply Hrec|].
    case_decide as Hin; simpl; intros Hw Hkeep.
    + apply Hkeep; [done|]. intros wk' [= <-]. by rewrite Hat.
    + apply elem_of_union in Hw as [Hw|Hw].
      * apply Hkeep; [done|]. intros wk' [= <-]. by rewrite Hat.
      * apply elem_of_singleton in Hw as ->. right; left.
        eexists i, _. split; [by apply list_lookup_insert_eq|done].
  - simpl. intros Hw Hkeep. destruct (decide (w = w0)) as [->|Hne].
    + right; right. exists (clock (length (Scanner.trace st))).
      unfold save_scanned_wallet. apply elem_of_app. right. apply list_elem_of_here.
    + apply Hkeep; [done|]. intros wk' [= <-]. rewrite Hat. congruence.
  - destruct (Scanner.analyze_wallet _ _ _ _) as [r evs] eqn:Han. simpl.
    intros Hw Hkeep. apply Hkeep; [done|]. intros wk' [= <-]. by rewrite Hat.
  - simpl. intros Hw Hkeep. apply Hkeep; [done|]. intros wk' [= <-]. by rewrite Hat.
Qed.

Lemma scanner_finished_covered w st :
  Scanner.finished st = true → Scanner.covered w st → w ∈ Scanner.scanned_wallets st.
Proof.
  intros Hfin [(j & wk & Hj & Hc)|?]; [|done]. exfalso.
  unfold Scanner.finished in Hfin. rewrite forallb_forall in Hfin.
  assert (Hdone : Scanner.worker_done wk = true).
  { apply Hfin, list_elem_of_In. by eapply list_elem_of_lookup_2. }
  unfold Scanner.worker_done in Hdone.
  destruct (Scanner.at_ wk); try done.
  destruct (Scanner.chunk wk); [|done]. by apply elem_of_nil in Hc.
Qed.

Lemma scanner_finished_recorded scanned0 w st :
  Scanner.finished st = true → Scanner.recorded scanned0 st →
  w ∈ Scanner.scanned_wallets st →
  w ∈ scanned0 ∨ ∃ timestamp, ledger_line w timestamp ∈ Scanner.ledger st.
Proof.
  intros Hfin Hrec Hw. destruct (Hrec w Hw) as [?|[(j & wk & Hj & Hat)|?]]; auto.
  exfalso. unfold Scanner.finished in Hfin. rewrite forallb_forall in Hfin.
  assert (Hdone : Scanner.worker_done wk = true).
  { apply Hfin, list_elem_of_In. by eapply list_elem_of_lookup_2. }
  unfold Scanner.worker_done in Hdone. by rewrite Hat in Hdone.
Qed.

Lemma scanner_start_covered num_pages scanned0 wallet_chunks fs w :
  length wallet_chunks ≤ num_pages →
  w ∈ concat wallet_chunks →
  Scanner.covered w (Scanner.start num_pages scanned0 wallet_chunks fs).
Proof.
  intros Hlen Hw. left. apply elem_of_concat in Hw as (c & Hwc & Hc).
  apply list_elem_of_lookup in Hc as [k Hk].
  assert (Hin : (0 + k, c) ∈ Scanner.tasks num_pages wallet_chunks).
  { rewrite scanner_tasks_numbered by done. apply numbered_from_elem; [done|].
    intros ->. by apply elem_of_nil in Hwc. }
  apply list_elem_of_lookup in Hin as [j Hj].
  exists j, {| Scanner.page_id := 0 + k; Scanner.chunk := c;
               Scanner.at_ := Scanner.AtLoopHead |}.
  split; [|done]. unfold Scanner.start. simpl.
  by rewrite list_lookup_fmap, Hj.
Qed.

Lemma scanner_start_recorded num_pages scanned0 wallet_chunks fs :
  Scanner.recorded scanned0 (Scanner.start num_pages scanned0 wallet_chunks fs).
Proof. intros w Hw. by left. Qed.

(** After a run whose tasks have all returned, every wallet handed to a task
    is in the initial in-run set or in the ledger. *)
Lemma scanner_run_records num_pages scanned0 wallet_chunks fs sched w :
  length wallet_chunks ≤ num_pages →
  w ∈ concat wallet_chunks →
  let st := exec sched (Scanner.start num_pages scanned0 wallet_chunks fs) in
  Scanner.finished st = true →
  w ∈ scanned0 ∨ ∃ timestamp, ledger_line w timestamp ∈ Scanner.ledger st.
Proof.
  intros Hlen Hw st Hfin. apply scanner_finished_recorded; [done| |].
  - apply (scanner_exec_invariant pg min_winrate min_pnl clock (Scanner.recorded scanned0)).
    + intros i st0. apply scanner_step_recorded.
    + apply scanner_start_recorded.
  - apply scanner_finished_covered; [done|].
    apply (scanner_exec_invariant pg min_winrate min_pnl clock (Scanner.covered w)).
    + intros i st0. apply scanner_step_covered.
    + by apply scanner_start_covered.
Qed.

End scanner_rerun.
(** ** Every run returns under some schedule *)

Section returns_facts.
Context `{PyLib} (pg : page) (clock : nat → Z).

(** *** Analyzer *)

Lemma analyzer_step_progress cfg i st wk :
  Analyzer.workers st !! i = Some wk →
  ∃ wk', Analyzer.workers (Analyzer.step pg cfg clock i st)
           = <[i := wk']> (Analyzer.workers st)
         ∧ Analyzer.steps_left wk' = pred (Analyzer.steps_left wk).
Proof.
  intros Hi. unfold Analyzer.step, Analyzer.steps_left. rewrite Hi.
  destruct (Analyzer.at_ wk) as [|w r|w r|w r] eqn:Hat.
  - destruct (Analyzer.chunk wk) as [|w rest] eqn:Hch.
    + exists wk. split; [by rewrite list_insert_id|]. by rewrite Hat, Hch.
    + destruct (Analyzer.analyze_wallet pg cfg w) as [r evs]. simpl.
      eexists. split; [done|]. simpl. lia.
  - eexists. split; [done|]. simpl. lia.
  - eexists. split; [done|]. simpl. lia.
  - destruct r as [d|]; [destruct (Analyzer.is_passed _)|];
      (eexists; split; [done|]; simpl; lia).
Qed.

Lemma analyzer_worker_returns cfg i m st wk :
  Analyzer.workers st !! i = Some wk →
  Analyzer.steps_left wk ≤ m →
  ∃ wk', Analyzer.workers (Analyzer.exec pg cfg clock (replicate m i) st)
           = <[i := wk']> (Analyzer.workers st)
         ∧ Analyzer.steps_left wk' = 0.
Proof.
  revert st wk. induction m as [|m IH]; intros st wk Hi Hm.
  - exists wk. split; [by rewrite list_insert_id|lia].
  - destruct (analyzer_step_progress cfg i st wk Hi) as (wk1 & Hw1 & Hs1).
    destruct (IH (Analyzer.step pg cfg clock i st) wk1) as (wk' & Hw' & Hs').
    + rewrite Hw1. apply list_lookup_insert_eq. by eapply lookup_lt_Some.
    + lia.
    + exists wk'. split; [|done].
      unfold Analyzer.exec in *. simpl. by rewrite Hw', Hw1, list_insert_insert_eq.
Qed.

Lemma analyzer_steps_left_done wk :
  Analyzer.steps_left wk = 0 → Analyzer.worker_done wk = true.
Proof.
  unfold Analyzer.steps_left, Analyzer.worker_done.
  destruct (Analyzer.at_ wk), (Analyzer.chunk wk); simpl; by try lia.
Qed.

Lemma analyzer_one_by_one_from cfg todo : ∀ done_ st,
  Analyzer.workers st = done_ ++ todo →
  Forall (λ wk, Analyzer.worker_done wk = true) done_ →
  Analyzer.finished
    (Analyzer.exec pg cfg clock
       (concat (imap (λ i wk, replicate (Analyzer.steps_left wk) (length done_ + i)) todo))
       st) = true.
Proof.
  induction todo as [|wk todo IH]; intros done_ st Hw Hd.
  - simpl. unfold Analyzer.finished. rewrite Hw, app_nil_r.
    apply Is_true_true, forallb_True. eapply Forall_impl; [done|].
    intros wk' ->. done.
  - rewrite imap_cons. simpl. unfold Analyzer.exec. rewrite foldl_app.
    destruct (analyzer_worker_returns cfg (length done_ + 0)
                (Analyzer.steps_left wk) st wk) as (wk' & Hw' & Hs'); [|lia|].
    { rewrite Hw, lookup_app_r by lia. by replace (length done_ + 0 - length done_) with 0 by lia. }
    unfold Analyzer.exec in Hw'.
    rewrite Hw, insert_app_r in Hw'. simpl in Hw'.
    specialize (IH (done_ ++ [wk']) _ ltac:(by rewrite Hw', <- app_assoc)).
    erewrite (imap_ext _ (λ i wk0, replicate (Analyzer.steps_left wk0)
                                     (length (done_ ++ [wk']) + i))).
    + apply IH. apply Forall_app. split; [done|].
      apply Forall_singleton. by apply analyzer_steps_left_done.
    + intros j x _. simpl. rewrite length_app. simpl. f_equal. lia.
Qed.

Lemma analyzer_one_by_one_finishes cfg st :
  Analyzer.finished
    (Analyzer.exec pg cfg clock (Analyzer.one_by_one (Analyzer.workers st)) st) = true.
Proof. by apply (analyzer_one_by_one_from cfg (Analyzer.workers st) []). Qed.

(** [PlaywrightMultiPageAnalyzer.run] returns: from any files, some schedule
    of the tasks lets every one of them reach its end. *)
Lemma analyzer_run_returns cfg fs :
  ∃ sched, is_Some (Analyzer.run pg cfg clock sched fs).
Proof.
  unfold Analyzer.run.
  destruct (Analyzer._load_unscanned_wallets cfg fs) as [scanned unscanned].
  destruct (negb (truthy unscanned)); [by exists []|].
  destruct (Analyzer._distribute_wallets _ _) as [wallet_chunks|e]; [|by exists []].
  exists (Analyzer.one_by_one (Analyzer.workers (Analyzer.start cfg scanned wallet_chunks fs))).
  by rewrite analyzer_one_by_one_finishes.
Qed.

(** *** Scanner *)

Lemma scanner_step_progress min_winrate min_pnl i st wk :
  Scanner.workers st !! i = Some wk →
  ∃ wk', Scanner.workers (Scanner.step pg min_winrate min_pnl clock i st)
           = <[i := wk']> (Scanner.workers st)
         ∧ Scanner.steps_left wk' ≤ pred (Scanner.steps_left wk).
Proof.
  intros Hi. unfold Scanner.step, Scanner.steps_left. rewrite Hi.
  destruct (Scanner.at_ wk) as [|w|w|w r] eqn:Hat.
  - destruct (Scanner.chunk wk) as [|w rest] eqn:Hch.
    + exists wk. split; [by rewrite list_insert_id|]. rewrite Hat, Hch. simpl. lia.
    + case_decide; (eexists; split; [done|]; simpl; lia).
  - eexists. split; [done|]. simpl. lia.
  - destruct (Scanner.analyze_wallet pg min_winrate min_pnl w) as [r evs]. simpl.
    eexists. split; [done|]. simpl. lia.
  - eexists. split; [done|]. simpl. lia.
Qed.

Lemma scanner_worker_returns min_winrate min_pnl i m st wk :
  Scanner.workers st !! i = Some wk →
  Scanner.steps_left wk ≤ m →
  ∃ wk', Scanner.workers (Scanner.exec pg min_winrate min_pnl clock (replicate m i) st)
           = <[i := wk']> (Scanner.workers st)
         ∧ Scanner.steps_left wk' = 0.
Proof.
  revert st wk. induction m as [|m IH]; intros st wk Hi Hm.
  - exists wk. split; [by rewrite list_insert_id|lia].
  - destruct (scanner_step_progress min_winrate min_pnl i st wk Hi) as (wk1 & Hw1 & Hs1).
    destruct (IH (Scanner.step pg min_winrate min_pnl clock i st) wk1) as (wk' & Hw' & Hs').
    + rewrite Hw1. apply list_lookup_insert_eq. by eapply lookup_lt_Some.
    + lia.
    + exists wk'. split; [|done].
      unfold Scanner.exec in *. simpl. by rewrite Hw', Hw1, list_insert_insert_eq.
Qed.

Lemma scanner_steps_left_done wk :
  Scanner.steps_left wk = 0 → Scanner.worker_done wk = true.
Proof.
  unfold Scanner.steps_left, Scanner.worker_done.
  destruct (Scanner.at_ wk), (Scanner.chunk wk); simpl; by try lia.
Qed.

Lemma scanner_one_by_one_from min_winrate min_pnl todo : ∀ done_ st,
  Scanner.workers st = done_ ++ todo →
  Forall (λ wk, Scanner.worker_done wk = true) done_ →
  Scanner.finished
    (Scanner.exec pg min_winrate min_pnl clock
       (concat (imap (λ i wk, replicate (Scanner.steps_left wk) (length done_ + i)) todo))
       st) = true.
Proof.
  induction todo as [|wk todo IH]; intros done_ st Hw Hd.
  - simpl. unfold Scanner.finished. rewrite Hw, app_nil_r.
    apply Is_true_true, forallb_True. eapply Forall_impl; [done|].
    intros wk' ->. done.
  - rewrite imap_cons. simpl. unfold Scanner.exec. rewrite foldl_app.
    destruct (scanner_worker_returns min_winrate min_pnl (length done_ + 0)
                (Scanner.steps_left wk) st wk) as (wk' & Hw' & Hs'); [|lia|].
    { rewrite Hw, lookup_app_r by lia. by replace (length done_ + 0 - length done_) with 0 by lia. }
    unfold Scanner.exec in Hw'.
    rewrite Hw, insert_app_r in Hw'. simpl in Hw'.
    specialize (IH (done_ ++ [wk']) _ ltac:(by rewrite Hw', <- app_assoc)).
    erewrite (imap_ext _ (λ i wk0, replicate (Scanner.steps_left wk0)
                                     (length (done_ ++ [wk']) + i))).
    + apply IH. apply Forall_app. split; [done|].
      apply Forall_singleton. by apply scanner_steps_left_done.
    + intros j x _. simpl. rewrite length_app. simpl. f_equal. lia.
Qed.

Lemma scanner_one_by_one_finishes min_winrate min_pnl st :
  Scanner.finished
    (Scanner.exec pg min_winrate min_pnl clock
       (Scanner.one_by_one (Scanner.workers st)) st) = true.
Proof. by apply (scanner_one_by_one_from min_winrate min_pnl (Scanner.workers st) []). Qed.

(** [PlaywrightWalletScanner.run] comes to an end (returning, or raising when
    the page count is 0): from any files, some schedule of the tasks lets
    every one of them reach its end. *)
Lemma scanner_run_returns min_winrate min_pnl num_pages fs :
  ∃ sched, is_Some (Scanner.run pg min_winrate min_pnl clock num_pages sched fs).
Proof.
  unfold Scanner.run.
  destruct (negb (truthy (Scanner.load_wallets fs))); [by exists []|].
  destruct (negb (truthy _)); [by exists []|].
  destruct (Scanner.distribute_wallets _ _) as [wallet_chunks|e]; [|by exists []].
  eexists (Scanner.one_by_one (Scanner.workers (Scanner.start num_pages _ wallet_chunks fs))).
  by rewrite scanner_one_by_one_finishes.
Qed.

End returns_facts.
(** ** The second run *)

Lemma save_results_input (results : list Scanner.result) fs :
  Scanner.input_file (Scanner.save_results results fs) = Scanner.input_file fs.
Proof. by destruct results. Qed.

Lemma save_results_ledger (results : list Scanner.result) fs :
  Scanner.ledger_file (Scanner.save_results results fs) = Scanner.ledger_file fs.
Proof. by destruct results. Qed.

Lemma save_results_existing (results : list Scanner.result) fs :
  Scanner.load_existing_results fs ⊆
    Scanner.load_existing_results (Scanner.save_results results fs).
Proof.
  destruct results as [|r results]; [done|].
  unfold Scanner.load_existing_results. simpl.
  destruct (Scanner.output_file fs) as [existing|]; simpl; [|set_solver].
  rewrite fmap_app, list_to_set_app. set_solver.
Qed.

(** With every candidate already in the in-run set, [run] returns before
    distributing anything. *)
Lemma scanner_run_nothing `{PyLib} pg min_winrate min_pnl clock num_pages sched fs :
  (∀ w, w ∈ Scanner.load_wallets fs →
        w ∈ Scanner.load_existing_results fs
            ∪ load_scanned_wallets (Scanner.ledger_file fs)) →
  Scanner.run pg min_winrate min_pnl clock num_pages sched fs =
    Some (Returned (fs, {| Scanner.processed := 0; Scanner.passed := 0;
                           Scanner.skipped := 0 |})).
Proof.
  intros Hall. unfold Scanner.run. cbv zeta.
  destruct (truthy (Scanner.load_wallets fs)); [|done]. simpl negb. cbv iota.
  rewrite filter_none; [done|]. intros w Hw Hnot. by apply Hnot, Hall.
Qed.

Lemma scanner_second_run `{PyLib} pg min_winrate min_pnl clock num_pages sched1
    fs fs1 s1 pg' min_winrate' min_pnl' clock' sched2 :
  Forall (λ w, wallet_ok w = true) (Scanner.load_wallets fs) →
  Scanner.run pg min_winrate min_pnl clock num_pages sched1 fs = Some (Returned (fs1, s1)) →
  Scanner.run pg' min_winrate' min_pnl' clock' num_pages sched2 fs1 =
    Some (Returned (fs1, {| Scanner.processed := 0; Scanner.passed := 0;
                            Scanner.skipped := 0 |})).
Proof.
  intros Hok Hrun. apply scanner_run_nothing. revert Hrun.
  unfold Scanner.run. cbv zeta.
  set (scanned0 := Scanner.load_existing_results fs
                   ∪ load_scanned_wallets (Scanner.ledger_file fs)).
  destruct (truthy (Scanner.load_wallets fs)) eqn:Hany; simpl negb; cbv iota.
  2:{ intros [= <- _] w Hw. destruct (Scanner.load_wallets fs); [|done].
      by apply elem_of_nil in Hw. }
  destruct (filter (λ w, w ∉ scanned0) (Scanner.load_wallets fs)) as [|w0 ws] eqn:Hun;
    simpl negb; cbv iota.
  { intros [= <- _] w Hw. destruct (decide (w ∈ scanned0)) as [?|Hnot]; [done|].
    exfalso. eapply (filter_nil_not_elem_of _ _ w Hun); done. }
  destruct (Scanner.distribute_wallets num_pages (w0 :: ws)) as [wallet_chunks|e] eqn:Hd;
    [|done].
  destruct (Scanner.finished _) eqn:Hfin; [|done].
  intros [= <- _] w Hw.
  assert (Hne : w0 :: ws ≠ []) by done.
  destruct (scanner_distribute_inv _ _ _ Hne Hd) as (Hn & Hlen & Hperm).
  unfold Scanner.load_wallets in *. rewrite save_results_input, save_results_ledger in *.
  simpl in *.
  assert (Hcase : w ∈ scanned0 ∨ ∃ timestamp, ledger_line w timestamp ∈
            Scanner.ledger (Scanner.exec pg min_winrate min_pnl clock sched1
              (Scanner.start num_pages scanned0 wallet_chunks fs))).
  { destruct (decide (w ∈ scanned0)) as [?|Hnot]; [by left|].
    eapply scanner_run_records; [by rewrite Hlen| |done].
    rewrite Hperm, <- Hun. by apply list_elem_of_filter. }
  destruct Hcase as [[Hex|Htr]%elem_of_union|[ts Hts]].
  - apply elem_of_union_l. by apply save_results_existing.
  - apply elem_of_union_r.
    eapply (load_mono (Scanner.ledger (Scanner.start num_pages scanned0 wallet_chunks fs)));
      [apply scanner_exec_ledger|exact Htr].
  - apply elem_of_union_r. apply (load_recorded _ _ ts); [|done].
    by apply (proj1 (Forall_forall _ _) Hok).
Qed.

(** * Text files and the ledger as a text *)

Lemma append_assoc (s1 s2 s3 : string) : (s1 +:+ s2) +:+ s3 = s1 +:+ (s2 +:+ s3).
Proof. induction s1 as [|c s1 IH]; [done|]. rewrite !(append_cons c). by f_equal. Qed.

Lemma lines_after_nonempty c s : lines_after false (String c s) ≠ [].
Proof.
  simpl. repeat case_decide; try done. by destruct (lines_after false s).
Qed.

Lemma cons_line_app c (lines1 lines2 : list string) :
  lines1 ≠ [] → cons_line c (lines1 ++ lines2) = cons_line c lines1 ++ lines2.
Proof. by destruct lines1. Qed.

Lemma lines_after_cons cr c s :
  lines_after cr (String c s) =
    if decide (c = LF) then
      if cr then lines_after false s else newline :: lines_after false s
    else if decide (c = CR) then newline :: lines_after true s
    else cons_line c (lines_after false s).
Proof. reflexivity. Qed.

Lemma lines_after_app cr s1 s2 :
  ends_with_lf s1 = true →
  lines_after cr (s1 +:+ s2) = lines_after cr s1 ++ lines_after false s2.
Proof.
  revert cr. induction s1 as [|c s1 IH]; intros cr Hend; [done|].
  destruct s1 as [|c' s1].
  - simpl in Hend. apply bool_decide_eq_true in Hend as ->.
    simpl. by destruct cr.
  - change (ends_with_lf (String c (String c' s1))) with (ends_with_lf (String c' s1)) in Hend.
    rewrite (append_cons c), !(lines_after_cons _ c).
    destruct (decide (c = LF)); [destruct cr; by rewrite IH|].
    destruct (decide (c = CR)); [by rewrite IH|].
    rewrite IH by done. apply cons_line_app, lines_after_nonempty.
Qed.

Lemma spaceless_app s1 s2 :
  spaceless (s1 +:+ s2) = spaceless s1 && spaceless s2.
Proof. induction s1 as [|c s1 IH]; [done|]. simpl. by rewrite IH, andb_assoc. Qed.

(** A line without white space, followed by its line feed, is one line. *)
Lemma lines_of_line l :
  spaceless l = true → lines_after false (l +:+ newline) = [l +:+ newline].
Proof.
  induction l as [|c l IH]; [done|]. 
  intros [Hc Hl]%andb_true_iff. rewrite (append_cons c), lines_after_cons, IH by done.
  rewrite !decide_False; [done|intros ->; done..].
Qed.

Lemma ends_with_lf_app s1 s2 :
  ends_with_lf s2 = true → ends_with_lf (s1 +:+ s2) = true.
Proof.
  intros H2. induction s1 as [|c s1 IH]; [done|].
  rewrite (append_cons c).
  destruct (s1 +:+ s2) eqn:Hs; [|done]. by destruct s1, s2.
Qed.

(** ** Decimal numerals hold no white space *)

Lemma pretty_N_go_spaceless x s :
  spaceless s = true → spaceless (pretty_N_go x s) = true.
Proof.
  revert s. induction (N.lt_wf_0 x) as [x _ IH]; intros s Hs.
  destruct (decide (x = 0%N)) as [->|Hx]; [by rewrite pretty_N_go_0|].
  rewrite pretty_N_go_step by lia. apply IH.
  - apply N.div_lt; lia.
  - simpl. rewrite Hs, andb_true_r. unfold pretty_N_char. by repeat case_match.
Qed.

Lemma pretty_Z_spaceless (z : Z) : spaceless (pretty z) = true.
Proof.
  assert (HN : ∀ n : N, spaceless (pretty n) = true).
  { intros n. unfold pretty, pretty_N. case_decide; [done|].
    by apply pretty_N_go_spaceless. }
  destruct z as [|p|p]; [done|apply (HN (Npos p))|].
  change (pretty (Z.neg p)) with ("-" +:+ pretty (Npos p)).
  by rewrite spaceless_app, HN.
Qed.

Lemma wallet_ok_spaceless w : wallet_ok w = true → spaceless w = true.
Proof. unfold wallet_ok. by intros [_ ?]%andb_true_iff. Qed.

Lemma ledger_line_spaceless w timestamp :
  wallet_ok w = true → spaceless (ledger_line w timestamp) = true.
Proof.
  intros Hw. unfold ledger_line.
  by rewrite !spaceless_app, wallet_ok_spaceless, pretty_Z_spaceless.
Qed.

(** ** Loading is by line *)

Lemma load_scanned_wallets_app file1 file2 :
  load_scanned_wallets (file1 ++ file2)
    = load_scanned_wallets file1 ∪ load_scanned_wallets file2.
Proof.
  apply set_eq. intros w. rewrite elem_of_union, !elem_of_load. split.
  - intros (line & [Hin|Hin]%elem_of_app & He); [left|right]; by exists line.
  - intros [(line & Hin & He)|(line & Hin & He)]; exists line;
      (split; [apply elem_of_app; by auto|done]).
Qed.

(** The line as it is read, with its line feed, stands for the wallet. *)
Lemma ledger_entry_read w timestamp :
  wallet_ok w = true → ledger_entry (ledger_line w timestamp +:+ newline) = Some w.
Proof.
  intros Hw. unfold ledger_entry, ledger_line, strip.
  rewrite !append_assoc.
  change ("|" +:+ pretty timestamp +:+ newline)
    with (String "|" (pretty timestamp +:+ newline)).
  rewrite lstrip_wallet, rstrip_wallet by done.
  destruct (entry_of_wallet w (rstrip (pretty timestamp +:+ newline)) Hw)
    as (-> & -> & ->). done.
Qed.

(** * Further properties of the ledger *)

(** X1.  On the text of the ledger, [save_scanned_wallet] followed by
    [load_scanned_wallets]: when the address has neither the separator nor
    white space in it and the text is empty or ends in a line feed, the write
    adds exactly one line, what is loaded afterwards is what was loaded
    before plus the address, and the text again ends in a line feed. *)
Theorem ledger_text_round_trip (w : string) (timestamp : Z) (content : string) :
  wallet_ok w = true →
  line_complete content = true →
  let content' := append_scanned_wallet w timestamp content in
  readlines content' = readlines content ++ [ledger_line w timestamp +:+ newline] ∧
  load_scanned_wallets (readlines content')
    = load_scanned_wallets (readlines content) ∪ {[ w ]} ∧
  line_complete content' = true.
Proof.
  intros Hw Hc content'.
  assert (Hlines : readlines content'
            = readlines content ++ [ledger_line w timestamp +:+ newline]).
  { unfold content', append_scanned_wallet, readlines.
    unfold line_complete in Hc. destruct content as [|c content].
    - rewrite append_nil. simpl app. by apply lines_of_line, ledger_line_spaceless.
    - simpl in Hc. rewrite lines_after_app by done.
      f_equal. by apply lines_of_line, ledger_line_spaceless. }
  split_and!; [done| |].
  - rewrite Hlines, load_scanned_wallets_app. f_equal.
    apply set_eq. intros x. rewrite elem_of_load, elem_of_singleton. split.
    + intros (line & ->%list_elem_of_singleton & He).
      rewrite ledger_entry_read in He by done. congruence.
    + intros ->. eexists. split; [apply list_elem_of_here|by apply ledger_entry_read].
  - unfold content', append_scanned_wallet, line_complete.
    rewrite <- append_assoc. rewrite (ends_with_lf_app _ newline) by done.
    apply orb_true_r.
Qed.

Lemma ledger_text_round_trip_witness :
  wallet_ok "w1" = true ∧
  line_complete ("a|1" +:+ newline) = true ∧
  load_scanned_wallets
    (readlines (append_scanned_wallet "w1" 1759406400 ("a|1" +:+ newline)))
    = load_scanned_wallets (readlines ("a|1" +:+ newline)) ∪ {[ "w1" ]}.
Proof.
  split; [reflexivity|]. split; [reflexivity|].
  apply (ledger_text_round_trip "w1" 1759406400 ("a|1" +:+ newline)); reflexivity.
Defined.

(** X2.  What [load_scanned_wallets] returns depends on the lines of the
    ledger as a set only: loading a concatenation gives the union, a
    rearranged ledger loads the same, and a line that is blank or has no
    separator adds nothing wherever it stands. *)
Theorem load_by_line (file1 file2 : list string) :
  load_scanned_wallets (file1 ++ file2)
    = load_scanned_wallets file1 ∪ load_scanned_wallets file2 ∧
  (∀ file, file ≡ₚ file1 → load_scanned_wallets file = load_scanned_wallets file1) ∧
  (∀ line, (is_empty (strip line) = true ∨ has_char "|" (strip line) = false) →
     load_scanned_wallets (file1 ++ line :: file2)
       = load_scanned_wallets (file1 ++ file2)).
Proof.
  split_and!.
  - apply load_scanned_wallets_app.
  - intros file Hperm. apply set_eq. intros w. rewrite !elem_of_load.
    by setoid_rewrite Hperm.
  - intros line Hline.
    change (line :: file2) with ([line] ++ file2).
    rewrite !load_scanned_wallets_app.
    assert (Hnone : load_scanned_wallets [line] = ∅).
    { apply set_eq. intros w. rewrite elem_of_load. split; [|by intros ?%not_elem_of_empty].
      intros (l & ->%list_elem_of_singleton & He). unfold ledger_entry in He.
      destruct Hline as [Hl|Hl]; rewrite Hl in He; [done|].
      by rewrite andb_false_r in He. }
    rewrite Hnone. by rewrite (left_id_L ∅ (∪)).
Qed.
(** * Further properties of the distributors *)

Lemma shard_of_length {A} n k (l : list A) :
  k < n → length (shard_of n k l) = (length l + n - 1 - k) / n.
Proof.
  intros Hk. set (X := (length l + n - 1 - k) / n).
  assert (Hn : n ≠ 0) by lia.
  assert (Hlook : ∀ j, j < length (shard_of n k l) ↔ k + j * n < length l).
  { intros j. rewrite <- !lookup_lt_is_Some. by rewrite shard_of_lookup. }
  assert (HX : ∀ j, j < X ↔ k + j * n < length l).
  { intros j. unfold X. split.
    - intros Hj. assert (n * (j + 1) ≤ length l + n - 1 - k); [|lia].
      etrans; [|apply (Nat.Div0.mul_div_le _ n)]. apply Nat.mul_le_mono_l. lia.
    - intros Hj. apply (Nat.div_le_lower_bound _ n (S j)); lia. }
  destruct (Nat.lt_trichotomy (length (shard_of n k l)) X) as [Hlt|[->|Hgt]]; [|done|].
  - apply HX, Hlook in Hlt. lia.
  - apply Hlook, HX in Hgt. lia.
Qed.

Lemma shard_sizes_close a n j k :
  0 < n → j ≤ k → k < n →
  (a + n - 1 - k) / n ≤ (a + n - 1 - j) / n ≤ (a + n - 1 - k) / n + 1.
Proof.
  intros Hn Hjk Hk. split.
  - apply Nat.Div0.div_le_mono. lia.
  - replace ((a + n - 1 - k) / n + 1) with ((a + n - 1 - k + 1 * n) / n)
      by (rewrite Nat.div_add by lia; done).
    apply Nat.Div0.div_le_mono. lia.
Qed.

Lemma shards_close {A} n (l : list A) j k s t :
  0 < n → j ≤ k →
  ((λ k, shard_of n k l) <$> seq 0 n) !! j = Some s →
  ((λ k, shard_of n k l) <$> seq 0 n) !! k = Some t →
  length t ≤ length s ≤ length t + 1.
Proof.
  intros Hn Hjk Hs Ht.
  apply list_lookup_fmap_Some in Hs as (j' & -> & Hj).
  apply list_lookup_fmap_Some in Ht as (k' & -> & Hk').
  apply lookup_seq in Hj as [-> Hj], Hk' as [-> Hk']. simpl.
  rewrite !shard_of_length by done. by apply shard_sizes_close.
Qed.

(** X3.  Round-robin sharding is balanced: with at least one page, shard [k]
    of the scanner holds [(len(wallets) + num_pages - 1 - k) // num_pages]
    wallets, so that no shard is longer than an earlier one and any two sizes
    differ by at most one; the same holds of the shards of the analyzer,
    none of which is empty. *)
Theorem shards_balanced (W : list string) (N : nat) :
  0 < N →
  (∃ shards,
     Scanner.distribute_wallets N W = Returned shards ∧
     (∀ k s, shards !! k = Some s → length s = (length W + N - 1 - k) / N) ∧
     (∀ j k s t, j ≤ k → shards !! j = Some s → shards !! k = Some t →
        length t ≤ length s ≤ length t + 1)) ∧
  (W ≠ [] →
   ∃ shards,
     Analyzer._distribute_wallets W N = Returned shards ∧
     (∀ j k s t, j ≤ k → shards !! j = Some s → shards !! k = Some t →
        length t ≤ length s ≤ length t + 1) ∧
     Forall (λ s, s ≠ []) shards).
Proof.
  intros HN. split.
  - eexists. split; [by apply scanner_distribute_returns|]. split.
    + intros k s Hs. apply list_lookup_fmap_Some in Hs as (k' & -> & Hk).
      apply lookup_seq in Hk as [-> Hk]. by apply shard_of_length.
    + intros j k s t. by apply shards_close.
  - intros HW. eexists. split; [by apply analyzer_distribute_returns|].
    assert (Hlen : 0 < length W) by (destruct W; [done|simpl; lia]).
    split.
    + intros j k s t. apply shards_close. lia.
    + apply Forall_forall. intros s Hs%list_elem_of_fmap.
      destruct Hs as (k & -> & Hk%elem_of_seq). intros Hnil.
      apply (f_equal length) in Hnil. rewrite shard_of_length in Hnil by lia.
      simpl in Hnil. apply Nat.div_small_iff in Hnil; lia.
Qed.

Lemma shards_balanced_witness :
  ∃ shards,
    Scanner.distribute_wallets 3 five_wallets = Returned shards ∧
    length <$> shards = [2; 2; 1].
Proof.
  destruct (shards_balanced five_wallets 3) as [(shards & Hd & Hlen & _) _]; [lia|].
  exists shards. split; [exact Hd|].
  vm_compute in Hd. injection Hd as <-. reflexivity.
Defined.

Lemma place_never_out_of_range {A} n (items : list (nat * A)) : ∀ chunks,
  length chunks = n → place n items chunks ≠ Raised IndexError.
Proof.
  induction items as [|[idx x] items IH]; intros chunks Hlen; [done|].
  simpl. unfold py_mod. case_decide as Hn; [done|]. simpl.
  unfold append_at.
  destruct (chunks !! (idx mod n)) as [c|] eqn:Hc.
  - simpl. apply IH. by rewrite length_insert.
  - apply lookup_ge_None in Hc. pose proof (Nat.mod_upper_bound idx n Hn). lia.
Qed.

(** ** Any page count *)

Lemma any_place_nat {A} (n : nat) (items : list (nat * A)) : ∀ chunks,
  length chunks = n →
  AnyPages.place (Z.of_nat n) items chunks = place n items chunks.
Proof.
  induction items as [|[idx x] items IH]; intros chunks Hlen; [done|].
  simpl. unfold AnyPages.py_mod, py_mod.
  destruct (decide (n = 0)) as [->|Hn]; [by rewrite decide_True|].
  rewrite decide_False by lia. simpl.
  assert (Hlt : idx mod n < n) by (apply Nat.mod_upper_bound; lia).
  unfold AnyPages.position. rewrite <- Nat2Z.inj_mod.
  rewrite decide_True by lia. simpl. rewrite Nat2Z.id.
  unfold append_at. destruct (chunks !! (idx mod n)) as [c|] eqn:Hc; simpl.
  - apply IH. by rewrite length_insert.
  - apply lookup_ge_None in Hc. lia.
Qed.

Lemma any_place_negative {A} (n : Z) idx (x : A) items :
  (n < 0)%Z → AnyPages.place n ((idx, x) :: items) [] = Raised IndexError.
Proof.
  intros Hn. simpl. unfold AnyPages.py_mod. rewrite decide_False by lia. simpl.
  unfold AnyPages.position. simpl.
  rewrite decide_False by lia. rewrite decide_False by lia. done.
Qed.

Lemma enumerate_cons {A} (x : A) l : ∃ items, enumerate (x :: l) = (0, x) :: items.
Proof. unfold enumerate. simpl. eauto. Qed.

(** X4.  The distributors for any [int] page count.  On a page count that
    is not negative they are the distributors on natural numbers.  Each
    raises exactly when there is a wallet to place and fewer than one page:
    [ZeroDivisionError] when the page count is 0, [IndexError] when it is
    negative (no chunk is made, and the first wallet is put at index 0).
    With no wallet the analyzer returns no chunk at all and the scanner one
    empty chunk per page. *)
Theorem distribute_raises_without_pages (W : list string) (N : Z) :
  (∀ n : nat, AnyPages.distribute_wallets (Z.of_nat n) W = Scanner.distribute_wallets n W) ∧
  (∀ n : nat, AnyPages._distribute_wallets W (Z.of_nat n) = Analyzer._distribute_wallets W n) ∧
  (AnyPages.distribute_wallets N W = Raised ZeroDivisionError ↔ N = 0%Z ∧ W ≠ []) ∧
  (AnyPages.distribute_wallets N W = Raised IndexError ↔ (N < 0)%Z ∧ W ≠ []) ∧
  (AnyPages._distribute_wallets W N = Raised ZeroDivisionError ↔ N = 0%Z ∧ W ≠ []) ∧
  (AnyPages._distribute_wallets W N = Raised IndexError ↔ (N < 0)%Z ∧ W ≠ []) ∧
  AnyPages.distribute_wallets N (@nil string) = Returned (replicate (Z.to_nat N) []) ∧
  AnyPages._distribute_wallets (@nil string) N = Returned [].
Proof.
  assert (Hs : ∀ n : nat,
            AnyPages.distribute_wallets (Z.of_nat n) W = Scanner.distribute_wallets n W).
  { intros n. unfold AnyPages.distribute_wallets, Scanner.distribute_wallets,
      AnyPages.empty_chunks. rewrite Nat2Z.id. apply any_place_nat, length_replicate. }
  assert (Ha : ∀ n : nat,
            AnyPages._distribute_wallets W (Z.of_nat n) = Analyzer._distribute_wallets W n).
  { intros n. unfold AnyPages._distribute_wallets, Analyzer._distribute_wallets,
      AnyPages.empty_chunks. destruct W as [|w W]; [done|].
    rewrite <- Nat2Z.inj_min, Nat2Z.id. apply any_place_nat, length_replicate. }
  assert (Hsn : (N < 0)%Z → W ≠ [] → AnyPages.distribute_wallets N W = Raised IndexError).
  { intros HN HW. destruct W as [|w W]; [done|].
    unfold AnyPages.distribute_wallets, AnyPages.empty_chunks.
    destruct (enumerate_cons w W) as [items ->].
    rewrite Z2Nat.nonpos by lia. by apply any_place_negative. }
  assert (Han : (N < 0)%Z → W ≠ [] → AnyPages._distribute_wallets W N = Raised IndexError).
  { intros HN HW. destruct W as [|w W]; [done|].
    unfold AnyPages._distribute_wallets, AnyPages.empty_chunks.
    destruct (enumerate_cons w W) as [items ->].
    rewrite Z2Nat.nonpos by lia. apply any_place_negative. lia. }
  assert (Hscan : ∀ e, AnyPages.distribute_wallets N W = Raised e →
            W ≠ [] ∧ ((N = 0%Z ∧ e = ZeroDivisionError) ∨ ((N < 0)%Z ∧ e = IndexError))).
  { intros e He. assert (HW : W ≠ []) by (by intros ->). split; [done|].
    destruct (Z.lt_trichotomy N 0) as [HN|[->|HN]].
    - right. split; [done|]. rewrite Hsn in He by done. congruence.
    - left. split; [done|]. destruct W as [|w W]; [done|].
      unfold AnyPages.distribute_wallets in He. destruct (enumerate_cons w W) as [items Hi].
      rewrite Hi in He. simpl in He. congruence.
    - exfalso. rewrite <- (Z2Nat.id N), Hs in He by lia.
      rewrite scanner_distribute_returns in He by lia. done. }
  assert (Hana : ∀ e, AnyPages._distribute_wallets W N = Raised e →
            W ≠ [] ∧ ((N = 0%Z ∧ e = ZeroDivisionError) ∨ ((N < 0)%Z ∧ e = IndexError))).
  { intros e He. assert (HW : W ≠ []) by (by intros ->). split; [done|].
    destruct (Z.lt_trichotomy N 0) as [HN|[->|HN]].
    - right. split; [done|]. rewrite Han in He by done. congruence.
    - left. split; [done|]. destruct W as [|w W]; [done|].
      unfold AnyPages._distribute_wallets in He. destruct (enumerate_cons w W) as [items Hi].
      rewrite Hi in He. simpl in He. congruence.
    - exfalso. rewrite <- (Z2Nat.id N), Ha in He by lia.
      rewrite analyzer_distribute_returns in He by (done || lia). done. }
  split_and!; try done.
  - split.
    + intros He. destruct (Hscan _ He) as [HW [[-> _]|[_ ?]]]; done.
    + intros [-> HW]. destruct W as [|w W]; [done|].
      unfold AnyPages.distribute_wallets. by destruct (enumerate_cons w W) as [items ->].
  - split.
    + intros He. destruct (Hscan _ He) as [HW [[_ ?]|[? _]]]; done.
    + intros [HN HW]. by apply Hsn.
  - split.
    + intros He. destruct (Hana _ He) as [HW [[-> _]|[_ ?]]]; done.
    + intros [-> HW]. destruct W as [|w W]; [done|].
      unfold AnyPages._distribute_wallets. by destruct (enumerate_cons w W) as [items ->].
  - split.
    + intros He. destruct (Hana _ He) as [HW [[_ ?]|[? _]]]; done.
    + intros [HN HW]. by apply Han.
Qed.
(** * The books of a run *)

Lemma ledgered_app tr1 tr2 : ledgered (tr1 ++ tr2) = ledgered tr1 ++ ledgered tr2.
Proof. apply omap_app. Qed.
Lemma records_app tr1 tr2 : records (tr1 ++ tr2) = records tr1 ++ records tr2.
Proof. apply omap_app. Qed.
Lemma passes_app tr1 tr2 : passes (tr1 ++ tr2) = passes tr1 ++ passes tr2.
Proof. apply omap_app. Qed.

(** Navigations and pauses are neither ledger writes nor counts. *)
Lemma navigation_silent w evs :
  Forall (navigation w) evs →
  ledgered evs = [] ∧ records evs = [] ∧ passes evs = [].
Proof.
  induction 1 as [|e evs He _ (IH1 & IH2 & IH3)]; [done|].
  unfold ledgered, records, passes in *. simpl.
  destruct e; simpl in *; try done.
Qed.

Lemma concat_numbered_from {A} s (chunks : list (list A)) :
  concat ((numbered_from s chunks).*2) = concat chunks.
Proof.
  unfold numbered_from. revert s.
  induction chunks as [|c chunks IH]; intros s; [done|].
  simpl. rewrite filter_cons. destruct c as [|x c]; simpl.
  - apply IH.
  - by rewrite IH.
Qed.

Lemma zip_with_snoc {A B C} (f : A → B → C) l k x y :
  length l = length k →
  zip_with f (l ++ [x]) (k ++ [y]) = zip_with f l k ++ [f x y].
Proof. intros Hlen. by rewrite zip_with_app. Qed.

Lemma evaluated_cons e tr :
  evaluated (e :: tr) =
    match e with EvReturn w _ => w :: evaluated tr | _ => evaluated tr end.
Proof. by destruct e. Qed.
Lemma ledgered_cons e tr :
  ledgered (e :: tr) =
    match e with EvLedger w => w :: ledgered tr | _ => ledgered tr end.
Proof. by destruct e. Qed.
Lemma records_cons e tr :
  records (e :: tr) =
    match e with EvRecord _ w _ => w :: records tr | _ => records tr end.
Proof. by destruct e. Qed.
Lemma passes_cons e tr :
  passes (e :: tr) =
    match e with EvRecord _ w true => w :: passes tr | _ => passes tr end.
Proof. destruct e as [| | | | | |? ? []|]; done. Qed.
Lemma claimed_cons e tr :
  claimed (e :: tr) =
    match e with EvClaim _ w => w :: claimed tr | _ => claimed tr end.
Proof. by destruct e. Qed.
Lemma skips_cons e tr :
  skips (e :: tr) =
    match e with EvSkip _ w => w :: skips tr | _ => skips tr end.
Proof. by destruct e. Qed.

(** The per-worker lists after the worker at [i] has been replaced. *)
Ltac worker_lists Hwk Hat :=
  match goal with
  | |- context [<[_ := ?wk']> _] =>
      match type of Hwk with
      | _ !! _ = Some ?wk =>
          let l1 := eval cbn in (Analyzer.awaiting_ledger wk') in
          let l2 := eval cbn in (Analyzer.awaiting_count wk') in
          let l3 := eval cbn in (Analyzer.awaiting_record wk') in
          let l4 := eval cbn in (Analyzer.chunk wk') in
          pose proof (eq_refl (Analyzer.awaiting_ledger wk)) as E1;
          unfold Analyzer.awaiting_ledger at 2 in E1; rewrite Hat in E1; cbv beta iota in E1;
          pose proof (eq_refl (Analyzer.awaiting_count wk)) as E2;
          unfold Analyzer.awaiting_count at 2 in E2; rewrite Hat in E2; cbv beta iota in E2;
          pose proof (eq_refl (Analyzer.awaiting_record wk)) as E3;
          unfold Analyzer.awaiting_record at 2 in E3; rewrite Hat in E3; cbv beta iota in E3;
          pose proof (concat_fmap_insert_as Analyzer.awaiting_ledger _ _ _ wk' _ l1
                        Hwk E1 eq_refl) as Hled;
          pose proof (Permutation_length
                        (concat_fmap_insert_as Analyzer.awaiting_count _ _ _ wk' _ l2
                           Hwk E2 eq_refl)) as Hcnt;
          pose proof (Permutation_length
                        (concat_fmap_insert_as Analyzer.awaiting_record _ _ _ wk' _ l3
                           Hwk E3 eq_refl)) as Hrec;
          pose proof (concat_fmap_insert_as Analyzer.chunk _ _ _ wk'
                        (Analyzer.chunk wk) l4 Hwk eq_refl eq_refl) as Hchunk;
          rewrite ?length_app in Hcnt, Hrec; simpl length in Hcnt, Hrec;
          try rewrite !app_nil_r in Hled;
          try apply Permutation_app_inv_r in Hchunk; clear E1 E2 E3
      end
  end.

Ltac readings_simpl :=
  rewrite ?evaluated_app, ?ledgered_app, ?records_app, ?passes_app,
    ?claimed_app, ?skips_app;
  rewrite ?evaluated_cons, ?ledgered_cons, ?records_cons, ?passes_cons,
    ?claimed_cons, ?skips_cons;
  cbv beta iota;
  change (evaluated []) with (@nil string);
  change (ledgered []) with (@nil string);
  change (records []) with (@nil string);
  change (passes []) with (@nil string);
  change (claimed []) with (@nil string);
  change (skips []) with (@nil string);
  rewrite ?app_nil_r.

Section analyzer_books.
Context `{PyLib} (pg : page) (cfg : Analyzer.config) (clock : nat → Z).

Lemma analyzer_attempts_wallet w attempts d :
  (Analyzer.analyze_attempts pg cfg w attempts).1 = Some d →
  Analyzer.wallet d = w ∧
  (Analyzer.status d = "passed" ∨ Analyzer.status d = "failed_criteria").
Proof.
  induction attempts as [|t rest IH]; simpl; [done|].
  assert (Hretry : (Analyzer.retry_or_stop t
                      (Analyzer.analyze_attempts pg cfg w rest)).1 = Some d →
            Analyzer.wallet d = w ∧
            (Analyzer.status d = "passed" ∨ Analyzer.status d = "failed_criteria")).
  { unfold Analyzer.retry_or_stop. case_match; simpl; [apply IH|done]. }
  destruct (Analyzer.retry_or_stop t _) as [r0 evs0]. simpl in Hretry.
  repeat case_match; simplify_eq/=; try done; intros; simplify_eq/=; auto.
Qed.

Lemma analyzer_result_wallet w d :
  (Analyzer.analyze_wallet pg cfg w).1 = Some d →
  Analyzer.wallet d = w ∧
  (Analyzer.status d = "passed" ∨ Analyzer.status d = "failed_criteria").
Proof. apply analyzer_attempts_wallet. Qed.

Lemma analyzer_finished_settled st :
  Analyzer.finished st = true →
  concat (Analyzer.chunk <$> Analyzer.workers st) = [] ∧
  concat (Analyzer.awaiting_ledger <$> Analyzer.workers st) = [] ∧
  concat (Analyzer.awaiting_count <$> Analyzer.workers st) = [] ∧
  concat (Analyzer.awaiting_record <$> Analyzer.workers st) = [].
Proof.
  unfold Analyzer.finished. generalize (Analyzer.workers st). intros ws.
  induction ws as [|wk ws IH]; [done|]. simpl forallb.
  intros [Hwk Hws]%andb_true_iff. destruct (IH Hws) as (IH1 & IH2 & IH3 & IH4).
  rewrite !fmap_cons, !concat_cons, IH1, IH2, IH3, IH4, !app_nil_r.
  unfold Analyzer.worker_done, Analyzer.awaiting_ledger, Analyzer.awaiting_count,
    Analyzer.awaiting_record in *.
  destruct (Analyzer.at_ wk); try done. by destruct (Analyzer.chunk wk).
Qed.


Lemma analyzer_holding_insert (ws : list Analyzer.worker) i wk' (P : string → option Analyzer.result → Prop) :
  (∀ j wk w r, ws !! j = Some wk → Analyzer.holding wk = Some (w, r) → P w r) →
  (∀ w r, Analyzer.holding wk' = Some (w, r) → P w r) →
  ∀ j wk w r, <[i := wk']> ws !! j = Some wk → Analyzer.holding wk = Some (w, r) → P w r.
Proof.
  intros Hws Hwk' j wk w r Hj Hh.
  apply list_lookup_insert_Some in Hj as [(-> & <- & _)|[_ Hj]]; eauto.
Qed.

Lemma analyzer_step_books ledger0 handed i st :
  Analyzer.books ledger0 handed st →
  Analyzer.books ledger0 handed (Analyzer.step pg cfg clock i st).
Proof.
  intros [Hev Hlg [tss [Htl Hl]] Hpr Hpa Hle Hre Hho]. unfold Analyzer.step.
  destruct (Analyzer.workers st !! i) as [wk|] eqn:Hwk; [|by constructor; eauto].
  destruct (Analyzer.at_ wk) as [|w r|w r|w r] eqn:Hat.
  - destruct (Analyzer.chunk wk) as [|w rest] eqn:Hch; [by constructor; eauto|].
    destruct (Analyzer.analyze_wallet pg cfg w) as [r evs] eqn:Han.
    pose proof (analyzer_analyze_navigates pg cfg w) as Hnav.
    rewrite Han in Hnav. simpl in Hnav.
    destruct (navigation_quiet _ _ Hnav) as (_ & _ & Hq).
    destruct (navigation_silent _ _ Hnav) as (Hq' & _ & _).
    worker_lists Hwk Hat. rewrite Hch in Hchunk.
    constructor; simpl; readings_simpl; rewrite ?Hq, ?Hq'; simpl; rewrite ?app_nil_r;
      try done; try lia.
    + rewrite <- Hev. rewrite <- (app_assoc (evaluated (Analyzer.trace st))).
      apply Permutation_app_head.
      apply (Permutation_app_inv_r rest). rewrite <- app_assoc. simpl.
      by rewrite Permutation_middle, Hchunk.
    + by rewrite Hled, app_assoc, Hlg.
    + by exists tss.
    + eapply Forall_impl; [exact Hre|]. intros d [? ?]. split; [done|].
      apply elem_of_app. by left.
    + apply analyzer_holding_insert.
      * intros j wk0 w0 r0 Hj Hh. destruct (Hho j wk0 w0 r0 Hj Hh) as [? ?].
        split; [apply elem_of_app; by left|done].
      * intros w0 r0 [= <- <-]. split; [set_solver|].
        intros d ->. apply (analyzer_result_wallet w d). by rewrite Han.
  - (* the ledger line is written *)
    worker_lists Hwk Hat.
    assert (Hhold : Analyzer.holding wk = Some (w, r))
      by (unfold Analyzer.holding; by rewrite Hat).
    constructor; simpl; readings_simpl; try done; try lia.
    + by rewrite Hchunk.
    + rewrite <- Hlg, <- Hled, <- !app_assoc.
      apply Permutation_app_head, Permutation_app_comm.
    + exists (tss ++ [clock (length (Analyzer.trace st))]). readings_simpl. split.
      * rewrite !length_app. simpl. lia.
      * unfold save_scanned_wallet. by rewrite zip_with_snoc, Hl, app_assoc.
    + rewrite length_app. simpl. lia.
    + apply analyzer_holding_insert.
      * intros j wk0 w0 r0 Hj Hh. by apply (Hho j wk0 w0 r0).
      * intros w0 r0 [= <- <-]. by apply (Hho i wk w r).
  - (* the counters are updated *)
    worker_lists Hwk Hat.
    assert (Hhold : Analyzer.holding wk = Some (w, r))
      by (unfold Analyzer.holding; by rewrite Hat).
    constructor; simpl; readings_simpl; try done; try lia.
    + by rewrite Hchunk.
    + rewrite <- Hlg. by rewrite Hled.
    + by exists tss.
    + destruct r as [d|]; simpl in *; [|lia].
      destruct (bool_decide (Analyzer.status d = "passed")); simpl in *; lia.
    + destruct (Analyzer.is_passed r); lia.
    + apply analyzer_holding_insert.
      * intros j wk0 w0 r0 Hj Hh. by apply (Hho j wk0 w0 r0).
      * intros w0 r0 [= <- <-]. by apply (Hho i wk w r).
  - (* the outcome is recorded *)
    assert (Hhold : Analyzer.holding wk = Some (w, r))
      by (unfold Analyzer.holding; by rewrite Hat).
    destruct (Hho i wk w r Hwk Hhold) as [Hin Hwd].
    destruct r as [d|]; [destruct (Analyzer.is_passed (Some d)) eqn:Hpass|];
      worker_lists Hwk Hat; try (simpl in Hpass; rewrite Hpass in Hrec); simpl in Hrec;
      (constructor; simpl; readings_simpl; try done; try lia);
      try (by rewrite Hchunk); try (by rewrite <- Hlg, Hled); try (by exists tss);
      try (apply analyzer_holding_insert; [done|by intros w0 r0 [=]]).
    + rewrite length_app. simpl. lia.
    + apply Forall_app. split; [done|]. apply Forall_singleton.
      simpl in Hpass. apply bool_decide_eq_true in Hpass.
      split; [done|]. by rewrite (Hwd d eq_refl).
Qed.

End analyzer_books.

Section analyzer_accounts.
Context `{PyLib} (pg : page) (cfg : Analyzer.config) (clock : nat → Z).

Lemma analyzer_start_books scanned wallet_chunks fs :
  length wallet_chunks ≤ Analyzer.num_pages cfg →
  Analyzer.books (Analyzer.ledger_file fs) (concat wallet_chunks)
    (Analyzer.start cfg scanned wallet_chunks fs).
Proof.
  intros Hlen. unfold Analyzer.start.
  rewrite analyzer_tasks_numbered by done.
  constructor; simpl; rewrite <- ?list_fmap_compose;
    rewrite ?(concat_fmap_nil (Analyzer.awaiting_ledger ∘ _)),
      ?(concat_fmap_nil (Analyzer.awaiting_count ∘ _)),
      ?(concat_fmap_nil (Analyzer.awaiting_record ∘ _)) by done; try done.
  - change (Analyzer.chunk ∘ _) with (@snd nat (list string)).
    by rewrite concat_numbered_from.
  - exists []. by rewrite app_nil_r.
  - intros i wk w r Hi Hh. apply list_lookup_fmap_Some in Hi as (t & -> & _). done.
Qed.

(** The books are kept all along a run and closed when it ends. *)
Lemma analyzer_run_books scanned unscanned wallet_chunks fs sched :
  unscanned ≠ [] →
  Analyzer._distribute_wallets unscanned (Analyzer.num_pages cfg) = Returned wallet_chunks →
  let st := Analyzer.exec pg cfg clock sched
              (Analyzer.start cfg scanned wallet_chunks fs) in
  Analyzer.finished st = true →
  ledgered (Analyzer.trace st) ≡ₚ unscanned ∧
  (∃ timestamps, length timestamps = length (ledgered (Analyzer.trace st)) ∧
     Analyzer.ledger st = Analyzer.ledger_file fs
       ++ zip_with ledger_line (ledgered (Analyzer.trace st)) timestamps) ∧
  Analyzer.processed_total st = length unscanned ∧
  Analyzer.passed_total st = length (Analyzer.results st) ∧
  Analyzer.passed_total st ≤ Analyzer.processed_total st ∧
  Forall (λ d, Analyzer.status d = "passed" ∧ Analyzer.wallet d ∈ unscanned)
    (Analyzer.results st).
Proof.
  intros Hne Hd st Hfin.
  destruct (analyzer_distribute_inv _ _ _ Hne Hd) as (Hn & Hlen & Hperm).
  assert (Hbooks : Analyzer.books (Analyzer.ledger_file fs) (concat wallet_chunks) st).
  { apply analyzer_exec_invariant; [|by apply analyzer_start_books].
    intros i st0. apply analyzer_step_books. }
  destruct Hbooks as [Hev Hlg Hl Hpr Hpa Hle Hre _].
  destruct (analyzer_finished_settled st Hfin) as (E1 & E2 & E3 & E4).
  rewrite E1, app_nil_r in Hev. rewrite E2, app_nil_r in Hlg.
  rewrite E3 in Hpr. rewrite E4 in Hpa. simpl in Hpr, Hpa.
  assert (Hall : ledgered (Analyzer.trace st) ≡ₚ unscanned)
    by (by rewrite Hlg, Hev, Hperm).
  split_and!; try done.
  - rewrite <- Hall. lia.
  - lia.
  - eapply Forall_impl; [exact Hre|]. intros d [? Hin]. split; [done|].
    by rewrite <- Hperm, <- Hev.
Qed.

End analyzer_accounts.

(** X5.  The summary of a successful run of the analyzer: the number it
    reports as scanned is the number of configured wallets not found in the
    ledger, each counted as often as it is listed; the number reported as
    passed is the number of results, and is at most the number scanned; each
    result has status passed and is about one of those wallets; and, when
    there was a wallet to scan, [good_wallets.json] holds the results
    reported. *)
Theorem analyzer_run_accounts `{PyLib} (pg : page) (cfg : Analyzer.config)
    (clock : nat → Z) (sched : list nat) (fs fs' : Analyzer.files)
    (s : Analyzer.summary) :
  Analyzer.run pg cfg clock sched fs = Some (fs', s) →
  Analyzer.success s = true →
  let unscanned :=
    filter (λ w, w ∉ load_scanned_wallets (Analyzer.ledger_file fs))
      (Analyzer.wallets cfg) in
  Analyzer.total_scanned s = length unscanned ∧
  Analyzer.total_passed s = length (Analyzer.good_wallets_found s) ∧
  Analyzer.total_passed s ≤ Analyzer.total_scanned s ∧
  Forall (λ d, Analyzer.status d = "passed" ∧ Analyzer.wallet d ∈ unscanned)
    (Analyzer.good_wallets_found s) ∧
  (unscanned ≠ [] → Analyzer.output_file fs' = Some (Analyzer.good_wallets_found s)).
Proof.
  intros Hrun Hok unscanned.
  unfold Analyzer.run, Analyzer._load_unscanned_wallets in Hrun.
  cbv beta iota zeta in Hrun. fold unscanned in Hrun.
  destruct unscanned as [|w0 ws] eqn:Hun.
  { simpl in Hrun. simplify_eq. simpl. split_and!; done. }
  simpl negb in Hrun. cbv iota in Hrun.
  destruct (Analyzer._distribute_wallets (w0 :: ws) (Analyzer.num_pages cfg))
    as [wallet_chunks|e] eqn:Hd; [|by simplify_eq].
  destruct (Analyzer.finished _) eqn:Hfin; [|done]. simplify_eq. simpl.
  destruct (analyzer_run_books pg cfg clock _ (w0 :: ws) wallet_chunks fs sched
              ltac:(done) Hd Hfin) as (_ & _ & Hp & Hpa & Hle & Hre).
  split_and!; done.
Qed.

Lemma analyzer_run_accounts_witness :
  ∃ fs' s,
    Analyzer.run Demo.scenario_a (Demo.defaults 2 ["w1"; "w2"; "w1"]) Demo.clock
      [0; 1; 0; 1; 0; 1; 0; 1; 0; 0; 0; 0] Demo.fresh = Some (fs', s) ∧
    Analyzer.total_scanned s = 3 ∧
    Analyzer.total_passed s = length (Analyzer.good_wallets_found s).
Proof.
  destruct (Analyzer.run Demo.scenario_a (Demo.defaults 2 ["w1"; "w2"; "w1"]) Demo.clock
              [0; 1; 0; 1; 0; 1; 0; 1; 0; 0; 0; 0] Demo.fresh) as [[fs' s]|] eqn:Hrun;
    [|by vm_compute in Hrun].
  exists fs', s. split; [done|].
  assert (Hok : Analyzer.success s = true).
  { vm_compute in Hrun. by injection Hrun as <- <-. }
  destruct (analyzer_run_accounts _ _ _ _ _ _ _ Hrun Hok) as (Hs & Hp & _).
  split; [exact Hs|exact Hp].
Defined.

(** X6.  The ledger after a successful run of the analyzer is the ledger
    before it followed by one line for each evaluation, and the wallets of
    the added lines are, up to their order, the configured wallets not found
    in the ledger at the start: a wallet listed twice is evaluated twice and
    gets two lines. *)
Theorem analyzer_ledger_appended `{PyLib} (pg : page) (cfg : Analyzer.config)
    (clock : nat → Z) (sched : list nat) (fs fs' : Analyzer.files)
    (s : Analyzer.summary) :
  Analyzer.run pg cfg clock sched fs = Some (fs', s) →
  Analyzer.success s = true →
  ∃ new timestamps,
    new ≡ₚ filter (λ w, w ∉ load_scanned_wallets (Analyzer.ledger_file fs))
             (Analyzer.wallets cfg) ∧
    length timestamps = length new ∧
    Analyzer.ledger_file fs'
      = Analyzer.ledger_file fs ++ zip_with ledger_line new timestamps.
Proof.
  intros Hrun Hok.
  unfold Analyzer.run, Analyzer._load_unscanned_wallets in Hrun.
  cbv beta iota zeta in Hrun.
  destruct (filter _ (Analyzer.wallets cfg)) as [|w0 ws] eqn:Hun.
  { simpl in Hrun. simplify_eq. exists [], []. by rewrite app_nil_r. }
  simpl negb in Hrun. cbv iota in Hrun.
  destruct (Analyzer._distribute_wallets (w0 :: ws) (Analyzer.num_pages cfg))
    as [wallet_chunks|e] eqn:Hd; [|by simplify_eq].
  destruct (Analyzer.finished _) eqn:Hfin; [|done]. simplify_eq. simpl.
  destruct (analyzer_run_books pg cfg clock _ (w0 :: ws) wallet_chunks fs sched
              ltac:(done) Hd Hfin) as (Hall & (tss & Htl & Hl) & _).
  eexists _, tss. split_and!; [exact Hall|done|done].
Qed.

Lemma analyzer_ledger_appended_witness :
  ∃ fs' s new timestamps,
    Analyzer.run Demo.scenario_a (Demo.defaults 2 ["w1"; "w2"; "w1"]) Demo.clock
      [0; 1; 0; 1; 0; 1; 0; 1; 0; 0; 0; 0] Demo.fresh = Some (fs', s) ∧
    new ≡ₚ ["w1"; "w2"; "w1"] ∧
    Analyzer.ledger_file fs' = zip_with ledger_line new timestamps.
Proof.
  destruct (Analyzer.run Demo.scenario_a (Demo.defaults 2 ["w1"; "w2"; "w1"]) Demo.clock
              [0; 1; 0; 1; 0; 1; 0; 1; 0; 0; 0; 0] Demo.fresh) as [[fs' s]|] eqn:Hrun;
    [|by vm_compute in Hrun].
  assert (Hok : Analyzer.success s = true).
  { vm_compute in Hrun. by injection Hrun as <- <-. }
  destruct (analyzer_ledger_appended _ _ _ _ _ _ _ Hrun Hok) as (new & tss & Hp & _ & Hl).
  exists fs', s, new, tss. split_and!; [done|exact Hp|exact Hl].
Defined.
(** * The books of the scanner *)

Lemma passes_sublist tr : passes tr `sublist_of` records tr.
Proof.
  induction tr as [|e tr IH]; [done|].
  rewrite passes_cons, records_cons.
  destruct e as [| | | | | |i w [|]|]; try done.
  - by apply sublist_skip.
  - by apply sublist_cons.
Qed.

Lemma skips_elem tr w :
  w ∈ skips tr → ∃ pre i post, tr = pre ++ EvSkip i w :: post.
Proof.
  induction tr as [|e tr IH]; [by intros ?%elem_of_nil|].
  rewrite skips_cons. intros Hw.
  assert (Hrest : w ∈ skips tr → ∃ pre i post, e :: tr = pre ++ EvSkip i w :: post).
  { intros (pre & i & post & ->)%IH. by exists (e :: pre), i, post. }
  destruct e; try (by apply Hrest).
  apply elem_of_cons in Hw as [->|Hw]; [|by apply Hrest].
  by eexists [], _, _.
Qed.

Section scanner_books.
Context `{PyLib} (pg : page) (min_winrate min_pnl : float) (clock : nat → Z).

Local Abbreviation step := (Scanner.step pg min_winrate min_pnl clock).
Local Abbreviation exec := (Scanner.exec pg min_winrate min_pnl clock).

Lemma scanner_attempts_wallet w attempts d :
  (Scanner.analyze_attempts pg min_winrate min_pnl w attempts).1 = Some d →
  Scanner.wallet d = w.
Proof.
  induction attempts as [|t rest IH]; simpl; [done|].
  assert (Hretry : (Scanner.retry_or_stop t
                      (Scanner.analyze_attempts pg min_winrate min_pnl w rest)).1 = Some d →
            Scanner.wallet d = w).
  { unfold Scanner.retry_or_stop. case_match; simpl; [apply IH|done]. }
  destruct (Scanner.retry_or_stop t _) as [r0 evs0]. simpl in Hretry.
  repeat case_match; simplify_eq/=; try done; intros; simplify_eq/=; auto.
Qed.

Lemma scanner_finished_settled st :
  Scanner.finished st = true →
  concat (Scanner.chunk <$> Scanner.workers st) = [] ∧
  concat (Scanner.awaiting_ledger <$> Scanner.workers st) = [] ∧
  concat (Scanner.awaiting_count <$> Scanner.workers st) = [].
Proof.
  unfold Scanner.finished. generalize (Scanner.workers st). intros ws.
  induction ws as [|wk ws IH]; [done|]. simpl forallb.
  intros [Hwk Hws]%andb_true_iff. destruct (IH Hws) as (IH1 & IH2 & IH3).
  rewrite !fmap_cons, !concat_cons, IH1, IH2, IH3, !app_nil_r.
  unfold Scanner.worker_done, Scanner.awaiting_ledger, Scanner.awaiting_count in *.
  destruct (Scanner.at_ wk); try done. by destruct (Scanner.chunk wk).
Qed.

Ltac scanner_lists Hwk Hat :=
  match goal with
  | |- context [<[_ := ?wk']> _] =>
      match type of Hwk with
      | _ !! _ = Some ?wk =>
          let l1 := eval cbn in (Scanner.awaiting_ledger wk') in
          let l2 := eval cbn in (Scanner.awaiting_count wk') in
          let l4 := eval cbn in (Scanner.chunk wk') in
          pose proof (eq_refl (Scanner.awaiting_ledger wk)) as E1;
          unfold Scanner.awaiting_ledger at 2 in E1; rewrite Hat in E1;
          cbv beta iota in E1;
          pose proof (eq_refl (Scanner.awaiting_count wk)) as E2;
          unfold Scanner.awaiting_count at 2 in E2; rewrite Hat in E2;
          cbv beta iota in E2;
          pose proof (concat_fmap_insert_as Scanner.awaiting_ledger _ _ _ wk' _ l1
                        Hwk E1 eq_refl) as Hled;
          pose proof (concat_fmap_insert_as Scanner.awaiting_count _ _ _ wk' _ l2
                        Hwk E2 eq_refl) as Hcnt;
          pose proof (concat_fmap_insert_as Scanner.chunk _ _ _ wk'
                        (Scanner.chunk wk) l4 Hwk eq_refl eq_refl) as Hchunk;
          try rewrite !app_nil_r in Hled; try rewrite !app_nil_r in Hcnt;
          try apply Permutation_app_inv_r in Hchunk; clear E1 E2
      end
  end.

Lemma scanner_holding_insert (ws : list Scanner.worker) i wk'
    (P : string → Scanner.result → Prop) :
  (∀ j wk w d, ws !! j = Some wk → Scanner.at_ wk = Scanner.Analyzed w (Some d) → P w d) →
  (∀ w d, Scanner.at_ wk' = Scanner.Analyzed w (Some d) → P w d) →
  ∀ j wk w d, <[i := wk']> ws !! j = Some wk →
    Scanner.at_ wk = Scanner.Analyzed w (Some d) → P w d.
Proof.
  intros Hws Hwk' j wk w d Hj Hh.
  apply list_lookup_insert_Some in Hj as [(-> & <- & _)|[_ Hj]]; eauto.
Qed.

Lemma scanner_step_books ledger0 handed i st :
  Scanner.books ledger0 handed st → Scanner.books ledger0 handed (step i st).
Proof.
  intros [Hha Hlg [tss [Htl Hl]] Hrc Hpr Hpa Hre Hho]. unfold Scanner.step.
  destruct (Scanner.workers st !! i) as [wk|] eqn:Hwk; [|by constructor; eauto].
  destruct (Scanner.at_ wk) as [|w|w|w r] eqn:Hat.
  - destruct (Scanner.chunk wk) as [|w rest] eqn:Hch; [by constructor; eauto|].
    assert (Hrest : ∀ C', C' ++ w :: rest ≡ₚ
                      concat (Scanner.chunk <$> Scanner.workers st) ++ rest →
              C' ++ [w] ≡ₚ concat (Scanner.chunk <$> Scanner.workers st)).
    { intros C' HC. apply (Permutation_app_inv_r rest).
      rewrite <- app_assoc. exact HC. }
    case_decide as Hin; scanner_lists Hwk Hat; rewrite Hch in Hchunk;
      apply Hrest in Hchunk;
      (constructor; simpl; readings_simpl; try done);
      try (by rewrite Hcnt); try (by exists tss);
      try (apply scanner_holding_insert; [done|by intros w0 d0 [=]]).
    + rewrite <- Hha, <- Hchunk.
      apply Permutation_app_head. rewrite <- !app_assoc.
      apply Permutation_app_head, Permutation_app_comm.
    + by rewrite Hled.
    + rewrite <- Hha, <- Hchunk, <- !app_assoc. apply Permutation_app_head.
      etrans; [apply Permutation_app_comm|]. by rewrite <- app_assoc.
    + rewrite Hled, app_assoc, Hlg. done.
  - (* the ledger line is written *)
    scanner_lists Hwk Hat.
    constructor; simpl; readings_simpl; try done;
      try (by rewrite Hcnt);
      try (apply scanner_holding_insert; [done|by intros w0 d0 [=]]).
    + by rewrite Hchunk.
    + rewrite <- Hlg, <- Hled, <- !app_assoc.
      apply Permutation_app_head, Permutation_app_comm.
    + exists (tss ++ [clock (length (Scanner.trace st))]). readings_simpl. split.
      * rewrite !length_app. simpl. lia.
      * unfold save_scanned_wallet. by rewrite zip_with_snoc, Hl, app_assoc.
  - (* the wallet is analyzed *)
    destruct (Scanner.analyze_wallet pg min_winrate min_pnl w) as [r evs] eqn:Han.
    pose proof (scanner_analyze_navigates pg min_winrate min_pnl w) as Hnav.
    rewrite Han in Hnav. simpl in Hnav.
    destruct (navigation_quiet _ _ Hnav) as (Hq1 & Hq2 & Hq3).
    destruct (navigation_silent _ _ Hnav) as (Hq4 & Hq5 & Hq6).
    scanner_lists Hwk Hat.
    constructor; simpl; readings_simpl;
      rewrite ?Hq1, ?Hq2, ?Hq3, ?Hq4, ?Hq5, ?Hq6; simpl; rewrite ?app_nil_r; try done.
    + by rewrite Hchunk.
    + by rewrite Hled.
    + by exists tss.
    + by rewrite Hcnt, app_assoc, Hrc.
    + apply scanner_holding_insert; [done|].
      intros w0 d0 [= <- ->]. apply (scanner_attempts_wallet w (seq 0 max_retries)).
      fold (Scanner.analyze_wallet pg min_winrate min_pnl w). by rewrite Han.
  - (* the counters are updated *)
    assert (Hw : ∀ d, r = Some d → Scanner.wallet d = w).
    { intros d ->. by apply (Hho i wk w d). }
    destruct r as [d|]; scanner_lists Hwk Hat;
      (constructor; simpl; readings_simpl; try done);
      try (apply scanner_holding_insert; [done|by intros w0 d0 [=]]);
      try (by rewrite Hchunk); try (by rewrite Hled); try (by exists tss);
      try (rewrite <- Hrc, <- Hcnt, <- !app_assoc;
           apply Permutation_app_head, Permutation_app_comm);
      try (rewrite length_app; simpl; lia).
    rewrite fmap_app, Hre. simpl. by rewrite (Hw d eq_refl).
Qed.

Lemma scanner_start_books num_pages scanned wallet_chunks fs :
  length wallet_chunks ≤ num_pages →
  Scanner.books (Scanner.ledger_file fs) (concat wallet_chunks)
    (Scanner.start num_pages scanned wallet_chunks fs).
Proof.
  intros Hlen. unfold Scanner.start.
  rewrite scanner_tasks_numbered by done.
  constructor; simpl; rewrite <- ?list_fmap_compose;
    rewrite ?(concat_fmap_nil (Scanner.awaiting_ledger ∘ _)),
      ?(concat_fmap_nil (Scanner.awaiting_count ∘ _)) by done; try done.
  - change (Scanner.chunk ∘ _) with (@snd nat (list string)).
    by rewrite concat_numbered_from.
  - exists []. by rewrite app_nil_r.
  - intros i wk w d Hi Hh. apply list_lookup_fmap_Some in Hi as (t & -> & _). done.
Qed.

End scanner_books.

Section scanner_accounts.
Context `{PyLib} (pg : page) (min_winrate min_pnl : float) (clock : nat → Z).

(** The books of the scanner when every task has returned. *)
Lemma scanner_run_books num_pages scanned unscanned wallet_chunks fs sched :
  unscanned ≠ [] →
  Scanner.distribute_wallets num_pages unscanned = Returned wallet_chunks →
  let st := Scanner.exec pg min_winrate min_pnl clock sched
              (Scanner.start num_pages scanned wallet_chunks fs) in
  Scanner.finished st = true →
  let new := ledgered (Scanner.trace st) in
  NoDup new ∧
  (∀ w, w ∈ new → (w ∈ unscanned) ∧ (w ∉ scanned)) ∧
  (∀ w, w ∈ unscanned → w ∉ scanned → w ∈ new) ∧
  (∃ timestamps, length timestamps = length new ∧
     Scanner.ledger st = Scanner.ledger_file fs ++ zip_with ledger_line new timestamps) ∧
  Scanner.total_processed st = length new ∧
  Scanner.total_processed st + Scanner.total_skipped st = length unscanned ∧
  Scanner.total_passed st = length (Scanner.results st) ∧
  Scanner.total_passed st ≤ Scanner.total_processed st ∧
  NoDup (Scanner.wallet <$> Scanner.results st) ∧
  Forall (λ d, Scanner.wallet d ∈ new) (Scanner.results st).
Proof.
  intros Hne Hd st Hfin new. subst new.
  destruct (scanner_distribute_inv _ _ _ Hne Hd) as (Hn & Hlen & Hperm).
  assert (Hbooks : Scanner.books (Scanner.ledger_file fs) (concat wallet_chunks) st).
  { apply scanner_exec_invariant; [|apply scanner_start_books; lia].
    intros i st0. apply scanner_step_books. }
  destruct Hbooks as [Hha Hlg Hl Hrc Hpr Hpa Hre _].
  destruct (scanner_run_invariant pg min_winrate min_pnl clock num_pages scanned
              wallet_chunks fs sched) as [_ Hnd Hfr Hpe Hsk _ _ Hss].
  fold st in Hnd, Hfr, Hpe, Hsk, Hss.
  destruct (scanner_finished_settled st Hfin) as (E1 & E2 & E3).
  destruct (scanner_finished_idle st Hfin) as (E4 & _ & _).
  rewrite E1, app_nil_r in Hha. rewrite E2, app_nil_r in Hlg.
  rewrite E3, app_nil_r in Hrc. rewrite E4, app_nil_r in Hpe.
  rewrite Hperm in Hha.
  assert (Hrec : records (Scanner.trace st) ≡ₚ ledgered (Scanner.trace st))
    by (by rewrite Hrc, Hpe, Hlg).
  assert (Hsub : Scanner.wallet <$> Scanner.results st `sublist_of` records (Scanner.trace st))
    by (rewrite Hre; apply passes_sublist).
  split_and!.
  - by rewrite Hlg.
  - intros w Hw. rewrite Hlg in Hw. split; [|by apply Hfr].
    rewrite <- Hha. apply elem_of_app. by left.
  - intros w Hw Hns. rewrite Hlg.
    rewrite <- Hha in Hw. apply elem_of_app in Hw as [Hw|Hw]; [done|].
    apply skips_elem in Hw as (pre & i & post & Htr).
    destruct (Hss pre (EvSkip i w) post Htr i w eq_refl) as [?|Hc]; [done|].
    rewrite Htr, claimed_app. apply elem_of_app. by left.
  - exact Hl.
  - rewrite Hpr. by rewrite Hrec.
  - rewrite Hpr, Hsk, Hrec. rewrite Hlg, <- Hha, length_app. done.
  - exact Hpa.
  - rewrite Hpa, Hpr, <- (length_fmap Scanner.wallet). by apply sublist_length.
  - apply (sublist_NoDup _ (records (Scanner.trace st))); [|exact Hsub].
    rewrite Hrec. by rewrite Hlg.
  - apply Forall_forall. intros d Hd'. rewrite <- Hrec.
    apply (elem_of_sublist (Scanner.wallet <$> Scanner.results st)); [|exact Hsub].
    by apply list_elem_of_fmap_2.
Qed.

End scanner_accounts.

(** X7.  The summary and the result file of a run of the scanner: what it
    reports as passed is at most what it reports as processed, and processed
    plus skipped is the number of candidate lines not scanned before; the
    result file after the run is the one before it followed by one entry per
    passed wallet (and is left as it was when nothing passed); the new
    entries are about distinct wallets among those candidates, so that a
    result file free of repeated wallets stays so. *)
Theorem scanner_run_accounts `{PyLib} (pg : page) (min_winrate min_pnl : float)
    (clock : nat → Z) (num_pages : nat) (sched : list nat) (fs fs' : Scanner.files)
    (s : Scanner.summary) :
  Scanner.run pg min_winrate min_pnl clock num_pages sched fs = Some (Returned (fs', s)) →
  let scanned :=
    Scanner.load_existing_results fs ∪ load_scanned_wallets (Scanner.ledger_file fs) in
  let unscanned := filter (λ w, w ∉ scanned) (Scanner.load_wallets fs) in
  let before := default [] (Scanner.output_file fs) in
  Scanner.passed s ≤ Scanner.processed s ∧
  Scanner.processed s + Scanner.skipped s = length unscanned ∧
  ∃ new,
    default [] (Scanner.output_file fs') = before ++ new ∧
    (new = [] → Scanner.output_file fs' = Scanner.output_file fs) ∧
    length new = Scanner.passed s ∧
    NoDup (Scanner.wallet <$> new) ∧
    Forall (λ d, Scanner.wallet d ∈ unscanned) new ∧
    (NoDup (Scanner.wallet <$> before) → NoDup (Scanner.wallet <$> (before ++ new))).
Proof.
  intros Hrun scanned unscanned before. unfold Scanner.run in Hrun.
  cbv zeta in Hrun. fold scanned in Hrun. fold unscanned in Hrun.
  assert (Hnothing : Some (Returned (fs, {| Scanner.processed := 0; Scanner.passed := 0;
                                             Scanner.skipped := 0 |}))
                       = Some (Returned (fs', s)) → unscanned = [] →
            Scanner.passed s ≤ Scanner.processed s ∧
            Scanner.processed s + Scanner.skipped s = length unscanned ∧
            ∃ new, default [] (Scanner.output_file fs') = before ++ new ∧
              (new = [] → Scanner.output_file fs' = Scanner.output_file fs) ∧
              length new = Scanner.passed s ∧
              NoDup (Scanner.wallet <$> new) ∧
              Forall (λ d, Scanner.wallet d ∈ unscanned) new ∧
              (NoDup (Scanner.wallet <$> before) →
               NoDup (Scanner.wallet <$> (before ++ new)))).
  { intros [= <- <-] ->. simpl. split_and!; [done..|]. exists [].
    rewrite app_nil_r. split_and!; try done. constructor. }
  destruct (Scanner.load_wallets fs) as [|l0 ls] eqn:Hall.
  { by apply Hnothing. }
  simpl negb in Hrun. cbv iota in Hrun.
  destruct unscanned as [|w0 ws] eqn:Hun.
  { by apply Hnothing. }
  simpl negb in Hrun. cbv iota in Hrun.
  destruct (Scanner.distribute_wallets num_pages (w0 :: ws)) as [wallet_chunks|e] eqn:Hd;
    [|done].
  destruct (Scanner.finished _) eqn:Hfin; [|done].
  destruct (scanner_run_books pg min_winrate min_pnl clock num_pages scanned (w0 :: ws)
              wallet_chunks fs sched ltac:(done) Hd Hfin)
    as (_ & Hin & _ & _ & _ & Hsum & Hpa & Hle & Hnd & Hres).
  injection Hrun as <- <-. simpl.
  split_and!; [done|done|].
  match goal with |- context [Scanner.results ?st] => exists (Scanner.results st) end.
  split_and!.
  - unfold Scanner.save_results. case_match; simpl; [by rewrite app_nil_r|done].
  - intros ->. done.
  - done.
  - done.
  - eapply Forall_impl; [exact Hres|]. intros d Hd'. by apply Hin.
  - intros Hbefore. rewrite fmap_app. apply NoDup_app. split_and!; [done| |done].
    intros w Hw Hw'. apply list_elem_of_fmap in Hw' as (d & -> & Hd').
    apply (proj1 (Forall_forall _ _) Hres), Hin in Hd' as [_ Hns].
    apply Hns. apply elem_of_union_l. unfold Scanner.load_existing_results.
    unfold before in Hw. destruct (Scanner.output_file fs); [|by apply elem_of_nil in Hw].
    by apply elem_of_list_to_set.
Qed.

Lemma scanner_run_accounts_witness :
  ∃ fs' s,
    Scanner.run Demo.scenario_a 70 100 Demo.clock 2 [0; 0; 0; 0; 1; 1; 1; 1; 0]
      Demo.twice_listed = Some (Returned (fs', s)) ∧
    Scanner.passed s ≤ Scanner.processed s ∧
    Scanner.processed s + Scanner.skipped s = 3.
Proof.
  destruct (Scanner.run Demo.scenario_a 70 100 Demo.clock 2 [0; 0; 0; 0; 1; 1; 1; 1; 0]
              Demo.twice_listed) as [[[fs' s]|e]|] eqn:Hrun;
    [|by vm_compute in Hrun..].
  destruct (scanner_run_accounts _ _ _ _ _ _ _ _ _ Hrun) as (Hle & Hsum & _).
  exists fs', s. split_and!; [done|exact Hle|exact Hsum].
Defined.

(** X8.  The ledger after a run of the scanner is the ledger before it
    followed by one line for each wallet processed; the wallets of the added
    lines are distinct and are exactly the candidates not scanned before: a
    candidate listed twice gets one line. *)
Theorem scanner_ledger_appended `{PyLib} (pg : page) (min_winrate min_pnl : float)
    (clock : nat → Z) (num_pages : nat) (sched : list nat) (fs fs' : Scanner.files)
    (s : Scanner.summary) :
  Scanner.run pg min_winrate min_pnl clock num_pages sched fs = Some (Returned (fs', s)) →
  let scanned :=
    Scanner.load_existing_results fs ∪ load_scanned_wallets (Scanner.ledger_file fs) in
  let unscanned := filter (λ w, w ∉ scanned) (Scanner.load_wallets fs) in
  ∃ new timestamps,
    NoDup new ∧
    (∀ w, w ∈ new ↔ w ∈ unscanned) ∧
    length new = Scanner.processed s ∧
    length timestamps = length new ∧
    Scanner.ledger_file fs'
      = Scanner.ledger_file fs ++ zip_with ledger_line new timestamps.
Proof.
  intros Hrun scanned unscanned. unfold Scanner.run in Hrun.
  cbv zeta in Hrun. fold scanned in Hrun. subst unscanned.
  assert (Hnothing : Some (Returned (fs, {| Scanner.processed := 0; Scanner.passed := 0;
                                             Scanner.skipped := 0 |}))
                       = Some (Returned (fs', s)) →
            filter (λ w, w ∉ scanned) (Scanner.load_wallets fs) = [] →
            ∃ new timestamps, NoDup new ∧
              (∀ w, w ∈ new ↔ w ∈ filter (λ w, w ∉ scanned) (Scanner.load_wallets fs)) ∧
              length new = Scanner.processed s ∧ length timestamps = length new ∧
              Scanner.ledger_file fs'
                = Scanner.ledger_file fs ++ zip_with ledger_line new timestamps).
  { intros [= <- <-] ->. exists [], []. rewrite app_nil_r.
    split_and!; try done. constructor. }
  destruct (Scanner.load_wallets fs) as [|l0 ls] eqn:Hall.
  { by apply Hnothing. }
  simpl negb in Hrun. cbv iota in Hrun.
  destruct (filter (λ w, w ∉ scanned) (l0 :: ls)) as [|w0 ws] eqn:Hun.
  { by apply Hnothing. }
  simpl negb in Hrun. cbv iota in Hrun.
  destruct (Scanner.distribute_wallets num_pages (w0 :: ws)) as [wallet_chunks|e] eqn:Hd;
    [|done].
  destruct (Scanner.finished _) eqn:Hfin; [|done].
  destruct (scanner_run_books pg min_winrate min_pnl clock num_pages scanned (w0 :: ws)
              wallet_chunks fs sched ltac:(done) Hd Hfin)
    as (Hnd & Hin & Hall' & (tss & Htl & Hl) & Hpr & _).
  injection Hrun as <- <-.
  eexists _, tss. split_and!; [exact Hnd| |by rewrite Hpr|exact Htl|].
  - intros w. split; [by intros [? _]%Hin|]. intros Hw. apply Hall'; [done|].
    rewrite <- Hun in Hw. by apply list_elem_of_filter in Hw as [? _].
  - unfold Scanner.save_results. by case_match.
Qed.

Lemma scanner_ledger_appended_witness :
  ∃ fs' s new timestamps,
    Scanner.run Demo.scenario_a 70 100 Demo.clock 2 [0; 0; 0; 0; 1; 1; 1; 1; 0]
      Demo.twice_listed = Some (Returned (fs', s)) ∧
    NoDup new ∧ (∀ w, w ∈ new ↔ w ∈ ["a"; "b"; "a"]) ∧
    Scanner.ledger_file fs' = zip_with ledger_line new timestamps.
Proof.
  destruct (Scanner.run Demo.scenario_a 70 100 Demo.clock 2 [0; 0; 0; 0; 1; 1; 1; 1; 0]
              Demo.twice_listed) as [[[fs' s]|e]|] eqn:Hrun;
    [|by vm_compute in Hrun..].
  destruct (scanner_ledger_appended _ _ _ _ _ _ _ _ _ Hrun)
    as (new & tss & Hnd & Hin & _ & _ & Hl).
  exists fs', s, new, tss. split_and!; [done|exact Hnd|exact Hin|exact Hl].
Defined.
(** * One evaluation, attempt by attempt *)

Lemma navigations_cons e tr :
  navigations (e :: tr) =
    match e with EvGoto _ t => t :: navigations tr | _ => navigations tr end.
Proof. by destruct e. Qed.

Lemma paused_cons e tr :
  paused (e :: tr) = match e with EvSleep n => n + paused tr | _ => paused tr end.
Proof. by destruct e. Qed.

Lemma navigations_app tr1 tr2 :
  navigations (tr1 ++ tr2) = navigations tr1 ++ navigations tr2.
Proof. apply omap_app. Qed.

Lemma paused_app tr1 tr2 : paused (tr1 ++ tr2) = paused tr1 + paused tr2.
Proof.
  induction tr1 as [|e tr1 IH]; [done|].
  change ((e :: tr1) ++ tr2) with (e :: (tr1 ++ tr2)).
  rewrite !paused_cons, IH. destruct e; lia.
Qed.

Section attempts.
Context `{PyLib} (pg : page).

Lemma scanner_attempts_from min_winrate min_pnl w n : ∀ s,
  0 < n → s + n = max_retries →
  let out := Scanner.analyze_attempts pg min_winrate min_pnl w (seq s n) in
  ∃ k, 1 ≤ k ≤ n ∧
    navigations out.2 = seq s k ∧
    paused out.2 = 2 * (k - 1) ∧
    (∀ j, s ≤ j < s + k - 1 → Scanner.readings (pg w j) = None) ∧
    (Scanner.readings (pg w (s + k - 1)) = None → k = n) ∧
    out.1 = match Scanner.readings (pg w (s + k - 1)) with
            | Some (a, b) =>
                if fge a min_winrate && fge b min_pnl
                then Some {| Scanner.wallet := w;
                             Scanner.winrate := py_repr a +:+ "%";
                             Scanner.realizedPnL := py_repr b +:+ "%";
                             Scanner.timestamp := now_iso (pg w (s + k - 1)) |}
                else None
            | None => None
            end.
Proof.
  induction n as [|n IH]; intros s Hn Hs out; [lia|]. subst out.
  change (seq s (S n)) with (s :: seq (S s) n).
  destruct (Scanner.readings (pg w s)) as [[a b]|] eqn:Hr.
  - rewrite (scanner_attempt_reads pg min_winrate min_pnl w s _ a b Hr).
    exists 1. replace (s + 1 - 1) with s by lia. rewrite Hr. simpl.
    split_and!; (done || lia).
  - rewrite (scanner_attempt_retries pg min_winrate min_pnl w s _ Hr).
    unfold Scanner.retry_or_stop. unfold max_retries in *.
    destruct (s <? 3 - 1) eqn:Hlast.
    + apply Nat.ltb_lt in Hlast.
      destruct (IH (S s)) as (k & Hk & Hnav & Hp & Hnone & Hend & Hout); [lia..|].
      exists (S k). replace (s + S k - 1) with (S s + k - 1) by lia.
      cbn [fst snd]. rewrite !navigations_cons, !paused_cons. cbv beta iota.
      split_and!; try lia.
      * by rewrite Hnav.
      * intros j Hj. destruct (decide (j = s)) as [->|?]; [done|]. apply Hnone. lia.
      * intros Hx. apply Hend in Hx. lia.
      * exact Hout.
    + apply Nat.ltb_ge in Hlast. assert (n = 0) as -> by lia.
      exists 1. replace (s + 1 - 1) with s by lia. rewrite Hr. simpl.
      split_and!; (done || lia).
Qed.

Lemma analyzer_attempt_stops cfg w t rest :
  goto_ok (pg w t) = true →
  _wait_for_data_with_timeout (pg w t) 30 = false →
  Analyzer.analyze_attempts pg cfg w (t :: rest) = (None, [EvGoto w t]).
Proof. intros Hg Hw. simpl. by rewrite Hg, Hw. Qed.

Lemma analyzer_attempt_again cfg w t rest :
  Analyzer.retried (pg w t) = true →
  ∃ pause,
    Analyzer.analyze_attempts pg cfg w (t :: rest) =
      ((Analyzer.retry_or_stop t (Analyzer.analyze_attempts pg cfg w rest)).1,
       EvGoto w t :: pause ++
         (Analyzer.retry_or_stop t (Analyzer.analyze_attempts pg cfg w rest)).2) ∧
    (pause = [] ∨ pause = [EvSleep 10]).
Proof.
  unfold Analyzer.retried. intros Hr. simpl.
  destruct (Analyzer.retry_or_stop t _) as [r0 evs0] eqn:Hretry.
  destruct (goto_ok (pg w t)); simpl in *.
  - destruct (_wait_for_data_with_timeout (pg w t) 30); [|done]. simpl in *.
    exists [EvSleep 10]. split; [|by right].
    destruct (Analyzer._extract_winrate (pg w t)), (Analyzer._extract_realized_pnl (pg w t));
      simpl in *; try done.
  - exists []. split; [done|by left].
Qed.

Lemma analyzer_attempt_cases v :
  (∃ a b, Analyzer.readings v = Some (a, b) ∧ Analyzer.retried v = false) ∨
  (Analyzer.readings v = None ∧ Analyzer.retried v = true) ∨
  (Analyzer.readings v = None ∧ Analyzer.retried v = false ∧
   goto_ok v = true ∧ _wait_for_data_with_timeout v 30 = false).
Proof.
  unfold Analyzer.readings, Analyzer.retried.
  destruct (goto_ok v); simpl; [|by right; left].
  destruct (_wait_for_data_with_timeout v 30); simpl; [|by right; right].
  destruct (Analyzer._extract_winrate v) as [a|], (Analyzer._extract_realized_pnl v) as [b|];
    simpl; eauto.
Qed.

Lemma analyzer_attempts_from cfg w n : ∀ s,
  0 < n → s + n = max_retries →
  let out := Analyzer.analyze_attempts pg cfg w (seq s n) in
  ∃ k, 1 ≤ k ≤ n ∧
    navigations out.2 = seq s k ∧
    paused out.2 + 2 ≤ 12 * k ∧
    (∀ j, s ≤ j < s + k - 1 → Analyzer.retried (pg w j) = true) ∧
    (Analyzer.retried (pg w (s + k - 1)) = true → k = n) ∧
    out.1 = match Analyzer.readings (pg w (s + k - 1)) with
            | Some (a, b) => Some (Analyzer.verdict cfg w a b)
            | None => None
            end.
Proof.
  induction n as [|n IH]; intros s Hn Hs out; [lia|]. subst out.
  change (seq s (S n)) with (s :: seq (S s) n).
  destruct (analyzer_attempt_cases (pg w s))
    as [(a & b & Hr & Hre)|[[Hr Hre]|(Hr & Hre & Hg & Hw)]].
  - rewrite (analyzer_attempt_reads pg cfg w s _ a b Hr).
    exists 1. replace (s + 1 - 1) with s by lia. rewrite Hr, Hre. simpl.
    split_and!; (done || lia || (unfold paused; simpl; lia)).
  - destruct (analyzer_attempt_again cfg w s (seq (S s) n) Hre) as (pause & -> & Hpause).
    unfold Analyzer.retry_or_stop. unfold max_retries in *.
    destruct (s <? 3 - 1) eqn:Hlast.
    + apply Nat.ltb_lt in Hlast.
      destruct (IH (S s)) as (k & Hk & Hnav & Hp & Hnone & Hend & Hout); [lia..|].
      exists (S k). replace (s + S k - 1) with (S s + k - 1) by lia.
      cbn [fst snd]. rewrite !navigations_cons, !paused_cons. cbv beta iota.
      rewrite navigations_app, paused_app, !navigations_cons, !paused_cons.
      cbv beta iota.
      assert (navigations pause = [] ∧ paused pause ≤ 10) as [-> ?]
        by (destruct Hpause as [-> | ->]; split; (done || (cbn; lia))).
      split_and!; try lia.
      * by rewrite Hnav.
      * intros j Hj. destruct (decide (j = s)) as [->|?]; [done|]. apply Hnone. lia.
      * intros Hx. apply Hend in Hx. lia.
      * exact Hout.
    + apply Nat.ltb_ge in Hlast. assert (n = 0) as -> by lia.
      exists 1. replace (s + 1 - 1) with s by lia. rewrite Hr.
      cbn [fst snd]. rewrite !navigations_cons, !paused_cons. cbv beta iota.
      rewrite navigations_app, paused_app.
      assert (navigations pause = [] ∧ paused pause ≤ 10) as [-> ?]
        by (destruct Hpause as [-> | ->]; split; (done || (cbn; lia))).
      change (paused []) with 0. change (navigations []) with (@nil nat).
      split_and!; try done; try lia.
  - rewrite (analyzer_attempt_stops cfg w s _ Hg Hw).
    exists 1. replace (s + 1 - 1) with s by lia. rewrite Hr, Hre. simpl.
    split_and!; (done || lia || (unfold paused; simpl; lia)).
Qed.

End attempts.

(** X9.  One evaluation by the scanner: [analyze_wallet] navigates to the
    wallet's page once per attempt, attempts 0, 1, ... in order and three at
    most, pausing two seconds between two attempts and at no other time; it
    stops at the first attempt that reads both metrics off the page, and
    returns the result built from them when they meet the thresholds and
    nothing otherwise; it returns nothing without having read the metrics
    only after the third attempt. *)
Theorem scanner_analyze_wallet_outcome `{PyLib} (pg : page)
    (min_winrate min_pnl : float) (w : string) :
  let out := Scanner.analyze_wallet pg min_winrate min_pnl w in
  ∃ k, 1 ≤ k ≤ max_retries ∧
    navigations out.2 = seq 0 k ∧
    Forall (navigation w) out.2 ∧
    paused out.2 = 2 * (k - 1) ∧
    (∀ j, j < k - 1 → Scanner.readings (pg w j) = None) ∧
    (Scanner.readings (pg w (k - 1)) = None → k = max_retries) ∧
    out.1 = match Scanner.readings (pg w (k - 1)) with
            | Some (a, b) =>
                if fge a min_winrate && fge b min_pnl
                then Some {| Scanner.wallet := w;
                             Scanner.winrate := py_repr a +:+ "%";
                             Scanner.realizedPnL := py_repr b +:+ "%";
                             Scanner.timestamp := now_iso (pg w (k - 1)) |}
                else None
            | None => None
            end.
Proof.
  intros out. subst out.
  destruct (scanner_attempts_from pg min_winrate min_pnl w max_retries 0)
    as (k & Hk & Hnav & Hp & Hnone & Hend & Hout); [unfold max_retries; lia|done|].
  exists k. split_and!; [lia|lia|exact Hnav| |exact Hp| |exact Hend|exact Hout].
  - apply scanner_analyze_navigates.
  - intros j Hj. apply Hnone. lia.
Qed.

(** X10.  One evaluation by the analyzer: [PageWorker.analyze_wallet]
    navigates once per attempt, attempts 0, 1, ... in order and three at
    most, and pauses less than twelve seconds per attempt; every attempt
    before the last one made was one after which it tries again (the
    navigation raised, or the data appeared and a metric was not read); it
    returns the verdict on the metrics read at the last attempt made, nothing
    when none were read there; and an attempt after which it would try again
    is the last one made only when it is the third. *)
Theorem analyzer_analyze_wallet_outcome `{PyLib} (pg : page) (cfg : Analyzer.config)
    (w : string) :
  let out := Analyzer.analyze_wallet pg cfg w in
  ∃ k, 1 ≤ k ≤ max_retries ∧
    navigations out.2 = seq 0 k ∧
    Forall (navigation w) out.2 ∧
    paused out.2 + 2 ≤ 12 * k ∧
    (∀ j, j < k - 1 → Analyzer.retried (pg w j) = true) ∧
    (Analyzer.retried (pg w (k - 1)) = true → k = max_retries) ∧
    out.1 = match Analyzer.readings (pg w (k - 1)) with
            | Some (a, b) => Some (Analyzer.verdict cfg w a b)
            | None => None
            end.
Proof.
  intros out. subst out.
  destruct (analyzer_attempts_from pg cfg w max_retries 0)
    as (k & Hk & Hnav & Hp & Hnone & Hend & Hout); [unfold max_retries; lia|done|].
  exists k. split_and!; [lia|lia|exact Hnav| |exact Hp| |exact Hend|exact Hout].
  - apply analyzer_analyze_navigates.
  - intros j Hj. apply Hnone. lia.
Qed.
(** ** Claims about the result file *)

(** ** The result file of the scanner *)

Section scanner_output.
Context `{PyLib} (pg : page) (min_winrate min_pnl : float) (clock : nat → Z).




End scanner_output.




(** * The orchestrator's address lists *)

(** ** Python's order on strings *)

Lemma ascii_compare_refl c : Ascii.compare c c = Eq.
Proof. unfold Ascii.compare. apply N.compare_refl. Qed.

Lemma ascii_compare_lt_trans a b c :
  Ascii.compare a b = Lt → Ascii.compare b c = Lt → Ascii.compare a c = Lt.
Proof.
  unfold Ascii.compare. rewrite !N.compare_lt_iff. lia.
Qed.

Lemma string_compare_lt_trans s1 : ∀ s2 s3,
  String.compare s1 s2 = Lt → String.compare s2 s3 = Lt → String.compare s1 s3 = Lt.
Proof.
  induction s1 as [|c1 s1 IH]; intros [|c2 s2] [|c3 s3]; simpl; try done.
  destruct (Ascii.compare c1 c2) eqn:H12; try done.
  - apply Ascii.compare_eq_iff in H12 as ->.
    destruct (Ascii.compare c2 c3); try done. apply IH.
  - destruct (Ascii.compare c2 c3) eqn:H23; try done.
    + apply Ascii.compare_eq_iff in H23 as <-. by rewrite H12.
    + by rewrite (ascii_compare_lt_trans _ _ _ H12 H23).
Qed.

Lemma str_le_alt s1 s2 :
  Orchestrator.str_le s1 s2 ↔ s1 = s2 ∨ String.compare s1 s2 = Lt.
Proof.
  unfold Orchestrator.str_le, String.leb. split.
  - destruct (String.compare s1 s2) eqn:Hc; try done; [|by right].
    left. by apply String.compare_eq_iff.
  - intros [Heq|Hlt]; [|by rewrite Hlt]. subst s2.
    assert (Hrefl : String.compare s1 s1 = Eq); [|by rewrite Hrefl].
    induction s1 as [|c s IH]; [done|]. simpl. by rewrite ascii_compare_refl.
Qed.

#[local] Instance str_le_trans : Transitive Orchestrator.str_le.
Proof.
  intros s1 s2 s3. rewrite !str_le_alt.
  intros [->|H12] [->|H23]; auto. right. by eapply string_compare_lt_trans.
Qed.

#[local] Instance str_le_total : Total Orchestrator.str_le.
Proof. intros s1 s2. apply String.leb_total. Qed.

#[local] Instance str_le_antisym : AntiSymm (=) Orchestrator.str_le.
Proof. intros s1 s2. apply String.leb_antisym. Qed.

Lemma sorted_spec (addresses : gset string) :
  StronglySorted Orchestrator.str_le (Orchestrator.sorted addresses) ∧
  NoDup (Orchestrator.sorted addresses) ∧
  ∀ a, a ∈ Orchestrator.sorted addresses ↔ a ∈ addresses.
Proof.
  unfold Orchestrator.sorted. split_and!.
  - apply StronglySorted_merge_sort; apply _.
  - rewrite merge_sort_Permutation. apply NoDup_elements.
  - intros a. rewrite merge_sort_Permutation. apply elem_of_elements.
Qed.


(** ** The holders of one token *)

Section holder_lists.
Context {V : Type}.
Implicit Types (h : Orchestrator.holder V) (l : list (Orchestrator.holder V)).

Lemma owner_of_Some h a :
  Orchestrator.owner_of h = Some a ↔
  Orchestrator.ownerAddress h = Some a ∧ is_empty a = false.
Proof.
  unfold Orchestrator.owner_of. destruct (Orchestrator.ownerAddress h) as [o|].
  - destruct (is_empty o) eqn:He; split.
    + done.
    + intros [[= ->] ?]. congruence.
    + by intros [= ->].
    + by intros [[= ->] _].
  - split; [done|by intros [? _]].
Qed.

Lemma process_holders_cons seen h l :
  Orchestrator.process_holders seen (h :: l) =
    match Orchestrator.owner_of h with
    | Some a =>
        if decide (a ∈ seen) then Orchestrator.process_holders seen l
        else h :: Orchestrator.process_holders (seen ∪ {[ a ]}) l
    | None => Orchestrator.process_holders seen l
    end.
Proof.
  simpl. unfold Orchestrator.owner_of.
  destruct (Orchestrator.ownerAddress h) as [o|] eqn:Ho; [|done].
  destruct (is_empty o); simpl; [done|].
  destruct (decide (o ∈ seen)).
  - by rewrite bool_decide_eq_false_2 by (by intros ?).
  - rewrite bool_decide_eq_true_2 by done. f_equal. destruct h. simpl in *. by subst.
Qed.

Lemma process_holders_spec l : ∀ seen,
  let out := Orchestrator.process_holders seen l in
  out `sublist_of` l ∧
  NoDup (omap Orchestrator.owner_of out) ∧
  Forall (λ h, is_Some (Orchestrator.owner_of h)) out ∧
  (∀ a, a ∈ omap Orchestrator.owner_of out ↔
        a ∈ omap Orchestrator.owner_of l ∧ a ∉ seen) ∧
  (∀ h a, h ∈ out → Orchestrator.owner_of h = Some a →
     ∃ pre post, l = pre ++ h :: post ∧ a ∉ omap Orchestrator.owner_of pre) ∧
  Orchestrator.process_holders seen out = out.
Proof.
  induction l as [|h l IH]; intros seen out; subst out.
  { simpl. split_and!; try done; try constructor.
    - by intros ?%elem_of_nil.
    - by intros [?%elem_of_nil _].
    - by intros h a ?%elem_of_nil. }
  rewrite process_holders_cons.
  destruct (Orchestrator.owner_of h) as [a|] eqn:Ha.
  2:{ destruct (IH seen) as (Hsub & Hnd & Hall & Hin & Hfirst & Hid).
      split_and!; try done.
      - by apply sublist_cons.
      - intros b. simpl. rewrite Ha. apply Hin.
      - intros h' b Hh' Hb. destruct (Hfirst h' b Hh' Hb) as (pre & post & -> & Hpre).
        exists (h :: pre), post. split; [done|]. simpl. by rewrite Ha. }
  destruct (decide (a ∈ seen)) as [Hseen|Hseen].
  { destruct (IH seen) as (Hsub & Hnd & Hall & Hin & Hfirst & Hid).
    split_and!; try done.
    - by apply sublist_cons.
    - intros b. simpl. rewrite Ha. rewrite Hin, elem_of_cons.
      split; [naive_solver|]. intros [[->|?] ?]; done.
    - intros h' b Hh' Hb. destruct (Hfirst h' b Hh' Hb) as (pre & post & -> & Hpre).
      assert (Hb' : b ∈ omap Orchestrator.owner_of (Orchestrator.process_holders seen (pre ++ h' :: post))).
      { apply (list_elem_of_omap _ _ b). eauto. }
      apply Hin in Hb' as [_ Hbs].
      exists (h :: pre), post. split; [done|]. simpl. rewrite Ha.
      intros [->|?]%elem_of_cons; done. }
  destruct (IH (seen ∪ {[ a ]})) as (Hsub & Hnd & Hall & Hin & Hfirst & Hid).
  split_and!.
  - by apply sublist_skip.
  - simpl. rewrite Ha. apply NoDup_cons. split; [|done].
    rewrite Hin. intros [_ Hn]. apply Hn. set_solver.
  - apply Forall_cons. split; [by rewrite Ha|done].
  - intros b. simpl. rewrite Ha, !elem_of_cons, Hin. split.
    + intros [->|[? ?]]; [by auto|]. split; [by right|set_solver].
    + intros [[->|?] ?]; [by left|]. destruct (decide (b = a)) as [->|?]; [by left|].
      right. split; [done|set_solver].
  - intros h' b [->|Hh']%elem_of_cons Hb.
    + exists [], l. split; [done|]. by intros ?%elem_of_nil.
    + destruct (Hfirst h' b Hh' Hb) as (pre & post & -> & Hpre).
      assert (Hb' : b ∈ omap Orchestrator.owner_of
                          (Orchestrator.process_holders (seen ∪ {[ a ]}) (pre ++ h' :: post))).
      { apply (list_elem_of_omap _ _ b). eauto. }
      apply Hin in Hb' as [_ Hbs].
      exists (h :: pre), post. split; [done|]. simpl. rewrite Ha.
      intros [->|?]%elem_of_cons; [|done]. set_solver.
  - rewrite process_holders_cons, Ha, decide_False by done. by rewrite Hid.
Qed.

End holder_lists.

(** X11.  The holders kept for a token by [get_token_holders]: they are
    holders of the answer, in the order of the answer; each has a non-empty
    address and no two have the same one; every non-empty address of the
    answer is kept, with the first holder listed for it; and processing the
    kept list again changes nothing. *)
Theorem holders_deduplicated {V : Type} (holders_data : list (Orchestrator.holder V)) :
  let processed_holders := Orchestrator.process_holders ∅ holders_data in
  processed_holders `sublist_of` holders_data ∧
  NoDup (omap Orchestrator.owner_of processed_holders) ∧
  Forall (λ h, ∃ a, Orchestrator.ownerAddress h = Some a ∧ a ≠ "") processed_holders ∧
  (∀ a, a ∈ omap Orchestrator.owner_of processed_holders ↔
        a ∈ omap Orchestrator.owner_of holders_data) ∧
  (∀ h a, h ∈ processed_holders → Orchestrator.ownerAddress h = Some a →
     ∃ pre post, holders_data = pre ++ h :: post ∧
       ∀ h', h' ∈ pre → Orchestrator.ownerAddress h' ≠ Some a) ∧
  Orchestrator.process_holders ∅ processed_holders = processed_holders.
Proof.
  intros out. subst out.
  destruct (process_holders_spec holders_data ∅) as (Hsub & Hnd & Hall & Hin & Hfirst & Hid).
  split_and!; try done.
  - eapply Forall_impl; [exact Hall|]. intros h [a Ha]. exists a.
    apply owner_of_Some in Ha as [? He]. split; [done|]. by intros ->.
  - intros a. rewrite Hin. set_solver.
  - intros h a Hh Ha.
    assert (Ho : Orchestrator.owner_of h = Some a).
    { apply (proj1 (Forall_forall _ _) Hall) in Hh as [b Hb].
      pose proof Hb as Hb'. apply owner_of_Some in Hb' as [? ?]. congruence. }
    destruct (Hfirst h a Hh Ho) as (pre & post & -> & Hpre).
    exists pre, post. split; [done|]. intros h' Hh' Ha'. apply Hpre.
    apply (list_elem_of_omap _ _ a). exists h'. split; [done|].
    apply owner_of_Some. split; [done|]. by apply owner_of_Some in Ho as [_ ?].
Qed.

(** ** Requests for the holders of one token *)

Section holder_requests.
Context {N : Type} `{Orchestrator.PyNumber N}.
Implicit Types (answers : nat → Orchestrator.answer N).

Lemma requests_cons c calls :
  Orchestrator.requests (c :: calls) =
    match c with
    | Orchestrator.Request t => t :: Orchestrator.requests calls
    | _ => Orchestrator.requests calls
    end.
Proof. by destruct c. Qed.

Lemma backoffs_cons c calls :
  Orchestrator.backoffs (c :: calls) =
    match c with
    | Orchestrator.Backoff t => t :: Orchestrator.backoffs calls
    | _ => Orchestrator.backoffs calls
    end.
Proof. by destruct c. Qed.

Lemma holders_attempts_from answers max_retries n : ∀ s,
  0 < n → Z.of_nat (s + n) = (max_retries + 1)%Z →
  let out := Orchestrator.holders_attempts answers max_retries (seq s n) in
  ∃ k, 1 ≤ k ≤ n ∧
    Orchestrator.requests out.2 = seq s k ∧
    Orchestrator.backoffs out.2 =
      seq s (k - 1) ++
      match answers (s + k - 1) with
      | Orchestrator.RateLimited => [s + k - 1]
      | _ => []
      end ∧
    (∀ j, s ≤ j < s + k - 1 → Orchestrator.asks_again (answers j) = true) ∧
    (Orchestrator.asks_again (answers (s + k - 1)) = true → k = n) ∧
    out.1 = match answers (s + k - 1) with
            | Orchestrator.Body data => Orchestrator.read_body data
            | _ => Orchestrator.Done None
            end.
Proof.
  induction n as [|n IH]; intros s Hn Hs out; [lia|]. subst out.
  change (seq s (S n)) with (s :: seq (S s) n).
  cbn [Orchestrator.holders_attempts].
  set (again := Orchestrator.holders_attempts answers max_retries (seq (S s) n)).
  assert (Hmore : 0 < n →
    ∃ k, 1 ≤ k ≤ n ∧
      Orchestrator.requests again.2 = seq (S s) k ∧
      Orchestrator.backoffs again.2 =
        seq (S s) (k - 1) ++
        match answers (S s + k - 1) with
        | Orchestrator.RateLimited => [S s + k - 1]
        | _ => []
        end ∧
      (∀ j, S s ≤ j < S s + k - 1 → Orchestrator.asks_again (answers j) = true) ∧
      (Orchestrator.asks_again (answers (S s + k - 1)) = true → k = n) ∧
      again.1 = match answers (S s + k - 1) with
                | Orchestrator.Body data => Orchestrator.read_body data
                | _ => Orchestrator.Done None
                end).
  { intros Hn'. apply IH; [done|lia]. }
  assert (Hnil : n = 0 → again = (Orchestrator.Done None, [])) by (by intros ->).
  destruct (answers s) as [| | | |data] eqn:Ha;
    unfold Orchestrator.wait_or_give_up;
    try (destruct (Z.of_nat s <? max_retries)%Z eqn:Hlt;
         [apply Z.ltb_lt in Hlt|apply Z.ltb_ge in Hlt]);
    try (destruct (decide (n = 0)) as [Hz|Hz]; [rewrite (Hnil Hz)|]);
    cbn [fst snd];
    try (exists 1; replace (s + 1 - 1) with s by lia; rewrite Ha;
         split_and!; (done || lia));
    try lia;
    (destruct Hmore as (k & Hk & Hreq & Hback & Hall & Hend & Hout); [lia|];
     exists (S k); replace (s + S k - 1) with (S s + k - 1) by lia;
     rewrite !requests_cons, !backoffs_cons; cbv beta iota;
     rewrite Hreq, Hback; replace (S k - 1) with (S (k - 1)) by lia;
     split_and!; try done; try lia;
     [ intros j Hj; destruct (decide (j = s)) as [->|?];
       [by rewrite Ha|apply Hall; lia]
     | intros Hx; apply Hend in Hx; lia ]).
Qed.

(** ** Reading the decoded body *)

Lemma of_as_field (v : Orchestrator.json N) :
  Orchestrator.of_field (Orchestrator.as_field v) = v.
Proof. by destruct v. Qed.

(** On items whose owner address is a [str] or nothing, the loop is the one
    on records. *)
Lemma process_items_textual (fieldss : list (list (string * Orchestrator.json N))) :
  ∀ (seen_list : list (Orchestrator.json N)) (seen_set : gset string),
  Forall (λ fields, Orchestrator.textual_owner fields = true) fieldss →
  (∀ s, existsb (Orchestrator.same_key (Orchestrator.JString s)) seen_list = true
        ↔ s ∈ seen_set) →
  Orchestrator.process_items seen_list (Orchestrator.JObject <$> fieldss) =
    Orchestrator.Done
      (Orchestrator.json_of_holder <$>
         Orchestrator.process_holders seen_set (Orchestrator.holder_of_json <$> fieldss)).
Proof.
  induction fieldss as [|fields fieldss IH]; intros seen_list seen_set Hall Hseen; [done|].
  apply Forall_cons in Hall as [Hown Hall].
  rewrite !fmap_cons. cbn [Orchestrator.process_items Orchestrator.process_holders].
  unfold Orchestrator.textual_owner in Hown.
  unfold Orchestrator.holder_of_json at 1. cbn [Orchestrator.ownerAddress].
  destruct (Orchestrator.get "ownerAddress" fields) as [| | |s| |] eqn:Hget; try done.
  { simpl. by apply IH. }
  cbn [Orchestrator.json_truthy Orchestrator.hashable].
  destruct (is_empty s) eqn:He; simpl negb; cbv iota.
  { simpl. by apply IH. }
  destruct (existsb _ seen_list) eqn:Hex.
  - apply Hseen in Hex. rewrite bool_decide_eq_false_2 by (by intros ?). simpl.
    by apply IH.
  - assert (Hnot : s ∉ seen_set).
    { intros Hin. apply Hseen in Hin. congruence. }
    rewrite bool_decide_eq_true_2 by done. simpl andb. cbv iota.
    rewrite (IH (Orchestrator.JString s :: seen_list) (seen_set ∪ {[ s ]})); [|done|].
    + simpl. do 2 f_equal. unfold Orchestrator.processed, Orchestrator.json_of_holder.
      simpl. by rewrite !of_as_field.
    + intros s'. simpl. rewrite orb_true_iff, bool_decide_eq_true, Hseen.
      rewrite elem_of_union, elem_of_singleton. tauto.
Qed.

(** The first item that raises ends the loop, whatever came before. *)
Lemma process_items_escapes (fieldss : list (list (string * Orchestrator.json N)))
    (rest : list (Orchestrator.json N)) e :
  (∀ seen_list, Orchestrator.process_items seen_list rest = Orchestrator.Escaped e) →
  Forall (λ fields, Orchestrator.textual_owner fields = true) fieldss →
  ∀ seen_list,
    Orchestrator.process_items seen_list ((Orchestrator.JObject <$> fieldss) ++ rest)
    = Orchestrator.Escaped e.
Proof.
  intros Hrest Hall. induction Hall as [|fields fieldss Hown _ IH]; intros seen_list;
    [apply Hrest|].
  rewrite fmap_cons. simpl.
  destruct (Orchestrator.json_truthy _); [|apply IH].
  destruct (Orchestrator.hashable _) eqn:Hh.
  - destruct (existsb _ seen_list); [apply IH|]. by rewrite IH.
  - unfold Orchestrator.textual_owner in Hown.
    by destruct (Orchestrator.get "ownerAddress" fields).
Qed.

End holder_requests.
(** X12.  The requests of [get_token_holders] for one token, and what it
    makes of the body.  With [max_retries + 1 <= 0] nothing is requested and
    [None] is returned.  Otherwise the attempts [0 .. k-1] are requested in
    order, for some [k] of at most [max_retries + 1]; each attempt but the
    last met a rate limit, a timeout or a failed request and was followed by
    its backoff; the last one is followed by a backoff only when it met a
    rate limit; it is the last because its answer ends the call or because no
    attempt is left; and the call ends as the reading of the last answer
    does.  A decoded body that is a dict without [result] gives [None]; one
    whose [result] is a list of dicts with a [str] or no owner address gives
    the holders of the loop on records; one whose [result] cannot be iterated
    ([null], a number) lets a [TypeError] escape, and so does an item whose
    owner address is a non-empty list or dict; an item that is no dict lets
    an [AttributeError] escape. *)
Theorem holders_requests_bounded {N : Type} `{Orchestrator.PyNumber N}
    (answers : nat → Orchestrator.answer N) (max_retries : Z) :
  let out := Orchestrator.get_token_holders answers max_retries in
  let budget := Z.to_nat (max_retries + 1) in
  (budget = 0 → out = (Orchestrator.Done None, [])) ∧
  (0 < budget →
   ∃ k, 1 ≤ k ≤ budget ∧
     Orchestrator.requests out.2 = seq 0 k ∧
     Orchestrator.backoffs out.2 =
       seq 0 (k - 1) ++
       match answers (k - 1) with
       | Orchestrator.RateLimited => [k - 1]
       | _ => []
       end ∧
     (∀ j, j < k - 1 → Orchestrator.asks_again (answers j) = true) ∧
     (Orchestrator.asks_again (answers (k - 1)) = true → k = budget) ∧
     out.1 = match answers (k - 1) with
             | Orchestrator.Body data => Orchestrator.read_body data
             | _ => Orchestrator.Done None
             end) ∧
  (∀ fields, Orchestrator.has_key "result" fields = false →
     Orchestrator.read_body (Orchestrator.JObject fields) = Orchestrator.Done None) ∧
  (∀ fields fieldss,
     Orchestrator.has_key "result" fields = true →
     Orchestrator.get "result" fields
       = Orchestrator.JArray (Orchestrator.JObject <$> fieldss) →
     Forall (λ item, Orchestrator.textual_owner item = true) fieldss →
     Orchestrator.read_body (Orchestrator.JObject fields) =
       Orchestrator.Done
         (Some (Orchestrator.json_of_holder <$>
                  Orchestrator.process_holders ∅
                    (Orchestrator.holder_of_json <$> fieldss)))) ∧
  (∀ fields,
     Orchestrator.has_key "result" fields = true →
     match Orchestrator.get "result" fields with
     | Orchestrator.JNull | Orchestrator.JBool _ | Orchestrator.JNumber _ => True
     | _ => False
     end →
     Orchestrator.read_body (Orchestrator.JObject fields)
       = Orchestrator.Escaped Orchestrator.TypeError) ∧
  (∀ fields fieldss item rest,
     Orchestrator.has_key "result" fields = true →
     Orchestrator.get "result" fields
       = Orchestrator.JArray ((Orchestrator.JObject <$> fieldss) ++ item :: rest) →
     Forall (λ item, Orchestrator.textual_owner item = true) fieldss →
     (∀ item_fields, item ≠ Orchestrator.JObject item_fields) →
     Orchestrator.read_body (Orchestrator.JObject fields)
       = Orchestrator.Escaped Orchestrator.AttributeError) ∧
  (∀ fields fieldss item_fields rest,
     Orchestrator.has_key "result" fields = true →
     Orchestrator.get "result" fields
       = Orchestrator.JArray ((Orchestrator.JObject <$> fieldss)
                                ++ Orchestrator.JObject item_fields :: rest) →
     Forall (λ item, Orchestrator.textual_owner item = true) fieldss →
     Orchestrator.json_truthy (Orchestrator.get "ownerAddress" item_fields) = true →
     Orchestrator.hashable (Orchestrator.get "ownerAddress" item_fields) = false →
     Orchestrator.read_body (Orchestrator.JObject fields)
       = Orchestrator.Escaped Orchestrator.TypeError).
Proof.
  intros out budget. subst out. unfold Orchestrator.get_token_holders. fold budget.
  split_and!.
  - by intros ->.
  - intros Hb.
    assert (Hz : Z.of_nat (0 + budget) = (max_retries + 1)%Z) by (subst budget; lia).
    pose proof (holders_attempts_from answers max_retries budget 0 Hb Hz) as Hfrom.
    cbv zeta in Hfrom.
    destruct Hfrom as (k & Hk & Hreq & Hback & Hall & Hend & Hout).
    exists k. replace (0 + k - 1) with (k - 1) in * by lia.
    split_and!; try done; try lia. intros j Hj. apply Hall. lia.
  - intros fields Hk. unfold Orchestrator.read_body. simpl. by rewrite Hk.
  - intros fields fieldss Hk Hget Hall. unfold Orchestrator.read_body. simpl.
    rewrite Hk, Hget. simpl.
    rewrite (process_items_textual fieldss [] ∅); [done|done|].
    intros s. simpl. split; [done|]. by intros ?%not_elem_of_empty.
  - intros fields Hk Hget. unfold Orchestrator.read_body. simpl. rewrite Hk.
    by destruct (Orchestrator.get "result" fields).
  - intros fields fieldss item rest Hk Hget Hall Hitem.
    unfold Orchestrator.read_body. simpl. rewrite Hk, Hget. simpl.
    rewrite (process_items_escapes fieldss (item :: rest) Orchestrator.AttributeError);
      [done| |done].
    intros seen_list. destruct item; try done. by destruct (Hitem fields0).
  - intros fields fieldss item_fields rest Hk Hget Hall Ht Hh.
    unfold Orchestrator.read_body. simpl. rewrite Hk, Hget. simpl.
    rewrite (process_items_escapes fieldss (Orchestrator.JObject item_fields :: rest)
               Orchestrator.TypeError); [done| |done].
    intros seen_list. simpl. by rewrite Ht, Hh.
Qed.
(** * The address files of the orchestrator *)

(** ** Writing addresses and reading them back *)

Lemma spaceless_cons c s :
  spaceless (String c s) = true → py_isspace c = false ∧ spaceless s = true.
Proof. simpl. intros [Hc Hs]%andb_true_iff. split; [by destruct (py_isspace c)|done]. Qed.

Lemma rstrip_line a : spaceless a = true → rstrip (a +:+ newline) = a.
Proof.
  induction a as [|c a IH]; [done|]. intros [Hc Ha]%spaceless_cons.
  by rewrite (append_cons c), rstrip_cons, IH, Hc, andb_false_r.
Qed.

Lemma strip_line a : spaceless a = true → strip (a +:+ newline) = a.
Proof.
  intros Ha. unfold strip. destruct a as [|c a]; [done|].
  pose proof Ha as [Hc _]%spaceless_cons.
  rewrite (append_cons c), lstrip_cons, Hc. by apply (rstrip_line (String c a)).
Qed.

Lemma ends_with_lf_line a : ends_with_lf (a +:+ newline) = true.
Proof. by apply ends_with_lf_app. Qed.

Lemma address_lines_cons a l :
  Orchestrator.address_lines (a :: l) = (a +:+ newline) +:+ Orchestrator.address_lines l.
Proof. unfold Orchestrator.address_lines. simpl. by rewrite append_assoc. Qed.

Lemma readlines_address_lines l :
  Forall (λ a, spaceless a = true) l →
  readlines (Orchestrator.address_lines l) = (λ a, a +:+ newline) <$> l.
Proof.
  unfold readlines. induction 1 as [|a l Ha _ IH]; [done|].
  rewrite address_lines_cons, lines_after_app by apply ends_with_lf_line.
  by rewrite lines_of_line, IH.
Qed.

(** The addresses written one per line are read back as they were, when
    none is empty or holds white space. *)
Lemma load_address_lines l :
  Forall (λ a, spaceless a = true ∧ a ≠ "") l →
  Orchestrator.load_text_file (Some (Orchestrator.address_lines l)) = l.
Proof.
  intros Hl. unfold Orchestrator.load_text_file.
  rewrite readlines_address_lines by (eapply Forall_impl; [exact Hl|]; by intros a [? _]).
  induction Hl as [|a l [Ha Hne] _ IH]; [done|].
  rewrite fmap_cons, filter_cons, strip_line by done.
  destruct a as [|c a]; [done|]. simpl is_empty.
  rewrite decide_True by done. rewrite fmap_cons, strip_line by done. by f_equal.
Qed.

(** ** The stored holder addresses *)

Lemma elem_of_all_holder_addresses {V} (holders_data : Orchestrator.holders_of V) a :
  a ∈ Orchestrator.all_holder_addresses holders_data ↔
  a ≠ "" ∧ ∃ token holders h,
    holders_data !! token = Some holders ∧ h ∈ holders ∧
    Orchestrator.ownerAddress h = Some a.
Proof.
  unfold Orchestrator.all_holder_addresses, Orchestrator.holders_of in *.
  rewrite elem_of_list_to_set, list_elem_of_omap. split.
  - intros (h & Hin & [Ho He]%owner_of_Some).
    apply elem_of_concat in Hin as (holders & Hh & Hhs).
    apply list_elem_of_fmap in Hhs as ([token holders'] & -> & Hm).
    apply elem_of_map_to_list in Hm. split; [by intros ->|].
    by exists token, holders', h.
  - intros (Hne & token & holders & h & Hm & Hh & Ho).
    exists h. split.
    + apply elem_of_concat. exists holders. split; [done|].
      apply list_elem_of_fmap. exists (token, holders). split; [done|].
      by apply elem_of_map_to_list.
    + apply owner_of_Some. split; [done|]. by destruct a.
Qed.

Lemma saved_addresses_loaded {V} (holders_data : Orchestrator.holders_of V) :
  (∀ a, a ∈ Orchestrator.all_holder_addresses holders_data → spaceless a = true) →
  Orchestrator.load_text_file
    (Orchestrator.owner_addresses_file (Orchestrator.save_holders holders_data))
  = Orchestrator.sorted (Orchestrator.all_holder_addresses holders_data).
Proof.
  intros Hsp. simpl. apply load_address_lines, Forall_forall. intros a Ha.
  apply sorted_spec in Ha. split; [by apply Hsp|].
  by apply elem_of_all_holder_addresses in Ha as [? _].
Qed.
(** X13.  The addresses [save_holders] writes to [owner_addresses.txt] are
    read back by [load_text_file] as the list of the distinct non-empty owner
    addresses of the stored holders, in ascending order, each once, when no
    address holds white space. *)
Theorem owner_addresses_round_trip {V : Type} (holders_data : Orchestrator.holders_of V) :
  (∀ token holders h a,
     holders_data !! token = Some holders → h ∈ holders →
     Orchestrator.ownerAddress h = Some a → spaceless a = true) →
  let wallets :=
    Orchestrator.load_text_file
      (Orchestrator.owner_addresses_file (Orchestrator.save_holders holders_data)) in
  StronglySorted Orchestrator.str_le wallets ∧
  NoDup wallets ∧
  ∀ a, a ∈ wallets ↔
    a ≠ "" ∧ ∃ token holders h,
      holders_data !! token = Some holders ∧ h ∈ holders ∧
      Orchestrator.ownerAddress h = Some a.
Proof.
  intros Hsp wallets. subst wallets. rewrite saved_addresses_loaded.
  - destruct (sorted_spec (Orchestrator.all_holder_addresses holders_data))
      as (Hs & Hnd & Hin).
    split_and!; [done|done|]. intros a.
    by rewrite Hin, elem_of_all_holder_addresses.
  - intros a (_ & token & holders & h & Hm & Hh & Ho)%elem_of_all_holder_addresses.
    by eapply Hsp.
Qed.

Lemma owner_addresses_round_trip_witness :
  NoDup (Orchestrator.load_text_file
           (Orchestrator.owner_addresses_file
              (Orchestrator.save_holders Holdings.two_tokens))).
Proof.
  apply (owner_addresses_round_trip Holdings.two_tokens).
  intros token holders h a Hm Hh Ho.
  unfold Holdings.two_tokens, Orchestrator.holders_of in Hm.
  apply lookup_insert_Some in Hm as [[<- <-]|[_ Hm]];
    [|apply lookup_singleton_Some in Hm as [<- <-]];
    repeat (apply elem_of_cons in Hh as [->|Hh]; [by injection Ho as <-|]);
    by apply elem_of_nil in Hh.
Defined.
(** * The analysis step of the orchestrator *)

Section analysis_step.
Context `{PyLib} (self : Orchestrator.settings) (pg : page) (clock : nat → Z).

(** Under a schedule that lets every task return, the step returns. *)
Lemma run_dexcheck_analysis_returns fs :
  ∃ sched, is_Some (Orchestrator.run_dexcheck_analysis self pg clock sched fs).
Proof.
  unfold Orchestrator.run_dexcheck_analysis.
  destruct (negb (truthy _)); [by exists []|].
  destruct (analyzer_run_returns pg clock
              (Orchestrator.analyzer_config self
                 (Orchestrator.load_text_file (Orchestrator.owner_addresses_txt fs)))
              {| Analyzer.ledger_file := Orchestrator.scanned_wallets_txt fs;
                 Analyzer.output_file := Orchestrator.results_json fs |})
    as (sched & [[files results] Hrun]).
  exists sched. rewrite Hrun. by destruct (Analyzer.success results).
Qed.

Lemma run_dexcheck_analysis_cases sched fs fs' :
  Orchestrator.run_dexcheck_analysis self pg clock sched fs = Some fs' →
  let wallets := Orchestrator.load_text_file (Orchestrator.owner_addresses_txt fs) in
  let unscanned :=
    filter (λ w, w ∉ load_scanned_wallets (Orchestrator.scanned_wallets_txt fs)) wallets in
  Orchestrator.owner_addresses_txt fs' = Orchestrator.owner_addresses_txt fs ∧
  (wallets = [] → fs' = fs) ∧
  (wallets ≠ [] → unscanned = [] → fs' = Orchestrator._copy_analysis_results fs) ∧
  (unscanned ≠ [] → Orchestrator.num_pages self = 0 → fs' = fs) ∧
  (unscanned ≠ [] → 0 < Orchestrator.num_pages self →
   ∃ results new timestamps,
     new ≡ₚ unscanned ∧ length timestamps = length new ∧
     Orchestrator.scanned_wallets_txt fs'
       = Orchestrator.scanned_wallets_txt fs ++ zip_with ledger_line new timestamps ∧
     Forall (λ d, Analyzer.status d = "passed" ∧ Analyzer.wallet d ∈ unscanned) results ∧
     Orchestrator.results_json fs' = Some results ∧
     Orchestrator.good_wallets_file fs' = Some results ∧
     Orchestrator.good_wallets_txt fs' =
       if truthy results
       then Some (Orchestrator.address_lines (Analyzer.wallet <$> results))
       else match Orchestrator.results_txt fs with
            | Some copied => Some copied
            | None => Orchestrator.good_wallets_txt fs
            end).
Proof.
  intros Hrun wallets unscanned.
  unfold Orchestrator.run_dexcheck_analysis in Hrun. fold wallets in Hrun.
  destruct wallets as [|w0 ws] eqn:Hw.
  { simpl in Hrun. injection Hrun as <-. split_and!; try done.
    all: intros Hne; by destruct Hne. }
  simpl negb in Hrun. cbv iota in Hrun.
  unfold Analyzer.run, Analyzer._load_unscanned_wallets in Hrun.
  cbn [Orchestrator.analyzer_config Analyzer.wallets Analyzer.num_pages
       Analyzer.ledger_file Analyzer.output_file] in Hrun.
  cbv beta iota zeta in Hrun.
  cbn [Orchestrator.analyzer_config Analyzer.wallets Analyzer.num_pages
       Analyzer.ledger_file Analyzer.output_file] in Hrun.
  fold unscanned in Hrun.
  destruct unscanned as [|u0 us] eqn:Hun.
  { simpl in Hrun. injection Hrun as <-. split_and!; done. }
  simpl negb in Hrun. cbv iota in Hrun.
  destruct (Analyzer._distribute_wallets (u0 :: us) (Orchestrator.num_pages self))
    as [wallet_chunks|e] eqn:Hd.
  2:{ simpl in Hrun. injection Hrun as <-.
      split_and!; try done; [intros _ _; by destruct fs|].
      intros _ Hn. exfalso.
      rewrite analyzer_distribute_returns in Hd by done. done. }
  match type of Hrun with
  | context [Analyzer.finished ?st] => destruct (Analyzer.finished st) eqn:Hfin;
        [|by cbv beta iota in Hrun]
  end.
  cbv beta iota in Hrun. cbn [Analyzer.success] in Hrun. cbv beta iota in Hrun.
  injection Hrun as <-.
  destruct (analyzer_distribute_inv (u0 :: us) _ _ ltac:(done) Hd) as (Hn & _ & _).
  destruct (analyzer_run_books pg
              (Orchestrator.analyzer_config self (w0 :: ws)) clock _ (u0 :: us)
              wallet_chunks
              {| Analyzer.ledger_file := Orchestrator.scanned_wallets_txt fs;
                 Analyzer.output_file := Orchestrator.results_json fs |} sched
              ltac:(done) Hd Hfin) as (Hall & (tss & Htl & Hl) & _ & _ & _ & Hre).
  split_and!; try done.
  { intros _ Hz. lia. }
  intros _ _. eexists _, _, tss.
  split_and!; [exact Hall|exact Htl|exact Hl|exact Hre|done|done|].
  cbn [Orchestrator._copy_analysis_results Orchestrator.good_wallets_txt
       Orchestrator.results_json Orchestrator.results_txt Orchestrator.good_wallets_file].
  done.
Qed.

End analysis_step.
(** X14.  What [run_dexcheck_analysis] does to the files.  It never writes
    [owner_addresses.txt] or [results/good_wallets.txt], and the ledger
    only gets longer.  With no wallet listed there, or with zero pages
    while a listed wallet is not in the ledger, no file changes.  With every
    listed wallet already in the ledger, the result files left in [results/]
    by an earlier run are published to [data/] again.  Otherwise the ledger
    gets one line for each listed wallet not yet in it,
    [results/good_wallets.json] and [data/good_wallets.json] both hold
    exactly the results of this run, every one of status passed and about
    such a wallet, and [data/good_wallets.txt] lists their addresses when
    there is one, and when there is none is the copy of
    [results/good_wallets.txt], or left as it was. *)
Theorem analysis_step_files `{PyLib} (self : Orchestrator.settings) (pg : page)
    (clock : nat → Z) (sched : list nat) (fs fs' : Orchestrator.data) :
  Orchestrator.run_dexcheck_analysis self pg clock sched fs = Some fs' →
  let wallets := Orchestrator.load_text_file (Orchestrator.owner_addresses_txt fs) in
  let unscanned :=
    filter (λ w, w ∉ load_scanned_wallets (Orchestrator.scanned_wallets_txt fs)) wallets in
  Orchestrator.owner_addresses_txt fs' = Orchestrator.owner_addresses_txt fs ∧
  Orchestrator.results_txt fs' = Orchestrator.results_txt fs ∧
  Orchestrator.scanned_wallets_txt fs `prefix_of` Orchestrator.scanned_wallets_txt fs' ∧
  (wallets = [] → fs' = fs) ∧
  (wallets ≠ [] → unscanned = [] → fs' = Orchestrator._copy_analysis_results fs) ∧
  (unscanned ≠ [] → Orchestrator.num_pages self = 0 → fs' = fs) ∧
  (unscanned ≠ [] → 0 < Orchestrator.num_pages self →
   ∃ results new timestamps,
     new ≡ₚ unscanned ∧ length timestamps = length new ∧
     Orchestrator.scanned_wallets_txt fs'
       = Orchestrator.scanned_wallets_txt fs ++ zip_with ledger_line new timestamps ∧
     Forall (λ d, Analyzer.status d = "passed" ∧ Analyzer.wallet d ∈ unscanned) results ∧
     Orchestrator.results_json fs' = Some results ∧
     Orchestrator.good_wallets_file fs' = Some results ∧
     Orchestrator.good_wallets_txt fs' =
       if truthy results
       then Some (Orchestrator.address_lines (Analyzer.wallet <$> results))
       else match Orchestrator.results_txt fs with
            | Some copied => Some copied
            | None => Orchestrator.good_wallets_txt fs
            end).
Proof.
  intros Hrun wallets unscanned.
  destruct (run_dexcheck_analysis_cases self pg clock sched fs fs' Hrun)
    as (Hown & Hnone & Hall & Hzero & Hsome).
  fold wallets unscanned in Hnone, Hall, Hzero, Hsome.
  split_and!; try done.
  - destruct (decide (wallets = [])) as [Hw|Hw]; [by rewrite (Hnone Hw)|].
    destruct (decide (unscanned = [])) as [Hun|Hun]; [by rewrite (Hall Hw Hun)|].
    destruct (decide (Orchestrator.num_pages self = 0)) as [Hz|Hz];
      [by rewrite (Hzero Hun Hz)|].
    destruct (Hsome Hun ltac:(lia)) as (results & new & tss & _ & _ & _ & _ & Hr & _).
    clear -Hrun Hr. unfold Orchestrator.run_dexcheck_analysis in Hrun.
    destruct (negb _); [by injection Hrun as <-|].
    destruct (Analyzer.run _ _ _ _ _) as [[files summary]|]; [|done].
    destruct (Analyzer.success summary); by injection Hrun as <-.
  - destruct (decide (wallets = [])) as [Hw|Hw]; [by rewrite (Hnone Hw)|].
    destruct (decide (unscanned = [])) as [Hun|Hun]; [by rewrite (Hall Hw Hun)|].
    destruct (decide (Orchestrator.num_pages self = 0)) as [Hz|Hz];
      [by rewrite (Hzero Hun Hz)|].
    destruct (Hsome Hun ltac:(lia)) as (results & new & tss & _ & _ & Hl & _).
    rewrite Hl. by apply prefix_app_r.
Qed.

Lemma analysis_step_files_witness :
  ∃ fs',
    Orchestrator.run_dexcheck_analysis Holdings.two_pages Demo.scenario_a Demo.clock
      Holdings.in_turn Holdings.collected = Some fs' ∧
    Orchestrator.owner_addresses_txt fs'
      = Orchestrator.owner_addresses_txt Holdings.collected.
Proof.
  destruct (Orchestrator.run_dexcheck_analysis Holdings.two_pages Demo.scenario_a
              Demo.clock Holdings.in_turn Holdings.collected) as [fs'|] eqn:Hrun;
    [|by vm_compute in Hrun].
  pose proof (analysis_step_files _ _ _ _ _ _ Hrun) as Hfiles.
  cbv zeta in Hfiles. destruct Hfiles as [Hown _].
  exists fs'. split; [reflexivity|exact Hown].
Defined.

(** X15.  From the stored holders to the ledger: when the analysis runs on
    the [owner_addresses.txt] that [save_holders] wrote, with at least one
    page, the ledger gets exactly one line for each distinct non-empty owner
    address of the stored holders that was not in the ledger before, however
    many tokens the wallet holds, and no other line.  No address holds white
    space. *)
Theorem holders_scanned_once `{PyLib} {V : Type} (self : Orchestrator.settings)
    (pg : page) (clock : nat → Z) (holders_data : Orchestrator.holders_of V)
    (sched : list nat) (fs fs' : Orchestrator.data) :
  (∀ token holders h a,
     holders_data !! token = Some holders → h ∈ holders →
     Orchestrator.ownerAddress h = Some a → spaceless a = true) →
  Orchestrator.owner_addresses_txt fs
    = Orchestrator.owner_addresses_file (Orchestrator.save_holders holders_data) →
  0 < Orchestrator.num_pages self →
  Orchestrator.run_dexcheck_analysis self pg clock sched fs = Some fs' →
  ∃ new timestamps,
    NoDup new ∧
    (∀ a, a ∈ new ↔
       (a ≠ "" ∧ ∃ token holders h,
          holders_data !! token = Some holders ∧ h ∈ holders ∧
          Orchestrator.ownerAddress h = Some a) ∧
       a ∉ load_scanned_wallets (Orchestrator.scanned_wallets_txt fs)) ∧
    length timestamps = length new ∧
    Orchestrator.scanned_wallets_txt fs'
      = Orchestrator.scanned_wallets_txt fs ++ zip_with ledger_line new timestamps.
Proof.
  intros Hsp Hfile Hn Hrun.
  destruct (run_dexcheck_analysis_cases self pg clock sched fs fs' Hrun)
    as (_ & Hnone & Hall & _ & Hsome).
  rewrite Hfile, saved_addresses_loaded in Hnone, Hall, Hsome.
  2,3,4: intros a (_ & token & holders & h & Hm & Hh & Ho)%elem_of_all_holder_addresses;
         by eapply Hsp.
  destruct (sorted_spec (Orchestrator.all_holder_addresses holders_data))
    as (_ & Hnd & Hin).
  set (wallets := Orchestrator.sorted (Orchestrator.all_holder_addresses holders_data)) in *.
  set (unscanned := filter _ wallets) in *.
  assert (Hmem : ∀ a, a ∈ unscanned ↔
    (a ≠ "" ∧ ∃ token holders h,
       holders_data !! token = Some holders ∧ h ∈ holders ∧
       Orchestrator.ownerAddress h = Some a) ∧
    a ∉ load_scanned_wallets (Orchestrator.scanned_wallets_txt fs)).
  { intros a. unfold unscanned. rewrite list_elem_of_filter, Hin.
    rewrite elem_of_all_holder_addresses. tauto. }
  destruct (decide (unscanned = [])) as [Hun|Hun].
  - exists [], []. split_and!; [constructor| |done|].
    + intros a. rewrite <- Hmem, Hun. done.
    + rewrite app_nil_r. destruct (decide (wallets = [])) as [Hw|Hw].
      * by rewrite (Hnone Hw).
      * by rewrite (Hall Hw Hun).
  - destruct (Hsome Hun Hn) as (results & new & tss & Hperm & Hlen & Hl & _).
    exists new, tss. split_and!; [|intros a; by rewrite Hperm|done|done].
    rewrite Hperm. by apply NoDup_filter.
Qed.

Lemma holders_scanned_once_witness :
  ∃ fs' new timestamps,
    Orchestrator.run_dexcheck_analysis Holdings.two_pages Demo.scenario_a Demo.clock
      Holdings.in_turn Holdings.collected = Some fs' ∧
    NoDup new ∧
    Orchestrator.scanned_wallets_txt fs' = zip_with ledger_line new timestamps.
Proof.
  assert (Hsp : ∀ token holders h a,
            Holdings.two_tokens !! token = Some holders → h ∈ holders →
            Orchestrator.ownerAddress h = Some a → spaceless a = true).
  { intros token holders h a Hm Hh Ho. unfold Holdings.two_tokens in Hm.
    apply lookup_insert_Some in Hm as [[<- <-]|[_ Hm]];
      [|apply lookup_singleton_Some in Hm as [<- <-]];
      repeat (apply elem_of_cons in Hh as [->|Hh]; [by injection Ho as <-|]);
      by apply elem_of_nil in Hh. }
  assert (Hpages : 0 < Orchestrator.num_pages Holdings.two_pages) by (simpl; lia).
  destruct (Orchestrator.run_dexcheck_analysis Holdings.two_pages Demo.scenario_a
              Demo.clock Holdings.in_turn Holdings.collected) as [fs'|] eqn:Hrun;
    [|vm_compute in Hrun; discriminate Hrun].
  pose proof (holders_scanned_once Holdings.two_pages Demo.scenario_a Demo.clock
                Holdings.two_tokens Holdings.in_turn Holdings.collected fs'
                Hsp eq_refl Hpages Hrun) as (new & tss & Hnd & _ & _ & Hl).
  exists fs', new, tss. split; [reflexivity|]. split; [exact Hnd|exact Hl].
Defined.
(** ** Collecting the holders of the tokens *)

Section collecting.
Context {N : Type} `{Orchestrator.PyNumber N}.
Implicit Types (holders_data saved final : list (string * Orchestrator.json N)).

Lemma has_key_app (key : string) (fields more : list (string * Orchestrator.json N)) :
  Orchestrator.has_key key (fields ++ more)
  = Orchestrator.has_key key fields || Orchestrator.has_key key more.
Proof. unfold Orchestrator.has_key. apply existsb_app. Qed.

Lemma get_app_stored (key : string) (fields more : list (string * Orchestrator.json N)) :
  Orchestrator.has_key key fields = true →
  Orchestrator.get key (fields ++ more) = Orchestrator.get key fields.
Proof.
  induction fields as [|[k v] fields IH]; [done|]. simpl.
  destruct (decide (k = key)) as [->|Hne]; [done|].
  rewrite bool_decide_eq_false_2 by done. apply IH.
Qed.

(** What a save leaves behind is a dump, and its return when it returns. *)
Lemma save_json_holders_events holders_data :
  let out := Orchestrator.save_json_holders holders_data in
  (out.1 = Orchestrator.Done () →
     out.2 = [Orchestrator.Dumped holders_data; Orchestrator.Saved holders_data]) ∧
  (∀ e, out.1 = Orchestrator.Escaped e → out.2 = [Orchestrator.Dumped holders_data]).
Proof.
  cbv zeta. unfold Orchestrator.save_json_holders.
  destruct (Orchestrator.addresses_of_all _ _) as [all|e]; [|by split].
  by destruct (Orchestrator.sortable all).
Qed.

Lemma save_and_count_events holders_data :
  let out := Orchestrator.save_and_count holders_data in
  (out.1 = Orchestrator.Done () →
     out.2 = [Orchestrator.Dumped holders_data; Orchestrator.Saved holders_data]) ∧
  (∀ ev, ev ∈ out.2 →
     ev = Orchestrator.Dumped holders_data ∨ ev = Orchestrator.Saved holders_data) ∧
  Orchestrator.Dumped holders_data ∈ out.2.
Proof.
  pose proof (save_json_holders_events holders_data) as Hsave. cbv zeta in Hsave |- *.
  unfold Orchestrator.save_and_count.
  destruct (Orchestrator.save_json_holders holders_data) as [[[]|e] events];
    cbn [fst snd] in *.
  - destruct Hsave as [Hsave _]. rewrite (Hsave eq_refl).
    destruct (Orchestrator.total_wallets holders_data); cbn [fst snd];
      (split_and!; [done| |set_solver]);
      intros ev [->|[->|[]%elem_of_nil]%elem_of_cons]%elem_of_cons; auto.
  - destruct Hsave as [_ Hsave]. rewrite (Hsave e eq_refl).
    split_and!; [done| |set_solver].
    intros ev [->|[]%elem_of_nil]%elem_of_cons; auto.
Qed.

Lemma collect_from_spec (answers : nat → nat → Orchestrator.answer N)
    (max_retries : Z) (tokens : list (Orchestrator.json N)) :
  ∀ i holders_data,
  let out := Orchestrator.collect_from answers max_retries i tokens holders_data in
  (∀ j a, Orchestrator.Fetched j a ∈ out.2 →
     Orchestrator.has_key a holders_data = false ∧ a ≠ "" ∧ i ≤ j ∧
     ∃ token_fields, tokens !! (j - i) = Some (Orchestrator.JObject token_fields) ∧
       Orchestrator.get "tokenAddress" token_fields = Orchestrator.JString a) ∧
  (∀ saved, Orchestrator.shown out saved →
     ∃ added, saved = holders_data ++ added ∧
       ∀ a v, (a, v) ∈ added →
         Orchestrator.has_key a holders_data = false ∧
         ∃ j holders, v = Orchestrator.JArray holders ∧
           Orchestrator.Fetched j a ∈ out.2 ∧
           (Orchestrator.get_token_holders (answers j) max_retries).1
             = Orchestrator.Done (Some holders)) ∧
  (∀ final, out.1 = Orchestrator.Done final →
     ∀ saved, Orchestrator.shown out saved → saved `prefix_of` final) ∧
  (NoDup holders_data.*1 → ∀ saved, Orchestrator.shown out saved → NoDup saved.*1).
Proof.
  induction tokens as [|token tokens IH]; intros i holders_data out; subst out.
  { cbn [Orchestrator.collect_from fst snd]. unfold Orchestrator.shown. cbn [fst snd].
    split_and!.
    - by intros j a ?%elem_of_nil.
    - intros saved [[]%elem_of_nil|[[]%elem_of_nil|[= <-]]].
      exists []. rewrite app_nil_r. split; [done|]. by intros a v ?%elem_of_nil.
    - intros final [= <-] saved [[]%elem_of_nil|[[]%elem_of_nil|[= <-]]]. done.
    - intros Hnd saved [[]%elem_of_nil|[[]%elem_of_nil|[= <-]]]. done. }
  assert (Hskip :
    let out := Orchestrator.collect_from answers max_retries (S i) tokens holders_data in
    (∀ j a, Orchestrator.Fetched j a ∈ out.2 →
       Orchestrator.has_key a holders_data = false ∧ a ≠ "" ∧ i ≤ j ∧
       ∃ token_fields,
         (token :: tokens) !! (j - i) = Some (Orchestrator.JObject token_fields) ∧
         Orchestrator.get "tokenAddress" token_fields = Orchestrator.JString a) ∧
    (∀ saved, Orchestrator.shown out saved →
       ∃ added, saved = holders_data ++ added ∧
         ∀ a v, (a, v) ∈ added →
           Orchestrator.has_key a holders_data = false ∧
           ∃ j holders, v = Orchestrator.JArray holders ∧
             Orchestrator.Fetched j a ∈ out.2 ∧
             (Orchestrator.get_token_holders (answers j) max_retries).1
               = Orchestrator.Done (Some holders)) ∧
    (∀ final, out.1 = Orchestrator.Done final →
       ∀ saved, Orchestrator.shown out saved → saved `prefix_of` final) ∧
    (NoDup holders_data.*1 → ∀ saved, Orchestrator.shown out saved → NoDup saved.*1)).
  { pose proof (IH (S i) holders_data) as IHs. cbv zeta in IHs |- *.
    destruct IHs as (Hf & Hs & Hp & Hn). split_and!; [|done..].
    intros j a Hj. destruct (Hf j a Hj) as (? & ? & ? & tf & Hl & ?).
    split_and!; [done|done|lia|]. exists tf. split; [|done].
    by replace (j - i) with (S (j - S i)) by lia. }
  assert (Hnone : ∀ e,
    let out : Orchestrator.collecting N := (Orchestrator.Escaped e, []) in
    (∀ j a, Orchestrator.Fetched j a ∈ out.2 →
       Orchestrator.has_key a holders_data = false ∧ a ≠ "" ∧ i ≤ j ∧
       ∃ token_fields,
         (token :: tokens) !! (j - i) = Some (Orchestrator.JObject token_fields) ∧
         Orchestrator.get "tokenAddress" token_fields = Orchestrator.JString a) ∧
    (∀ saved, Orchestrator.shown out saved →
       ∃ added, saved = holders_data ++ added ∧
         ∀ a v, (a, v) ∈ added →
           Orchestrator.has_key a holders_data = false ∧
           ∃ j holders, v = Orchestrator.JArray holders ∧
             Orchestrator.Fetched j a ∈ out.2 ∧
             (Orchestrator.get_token_holders (answers j) max_retries).1
               = Orchestrator.Done (Some holders)) ∧
    (∀ final, out.1 = Orchestrator.Done final →
       ∀ saved, Orchestrator.shown out saved → saved `prefix_of` final) ∧
    (NoDup holders_data.*1 → ∀ saved, Orchestrator.shown out saved → NoDup saved.*1)).
  { intros e. cbv zeta. unfold Orchestrator.shown. cbn [fst snd]. split_and!.
    - by intros j a ?%elem_of_nil.
    - by intros saved [[]%elem_of_nil|[[]%elem_of_nil|?]].
    - done.
    - by intros _ saved [[]%elem_of_nil|[[]%elem_of_nil|?]]. }
  cbv zeta in Hskip, Hnone.
  destruct token as [| | | | |token_fields]; try apply Hnone.
  cbn [Orchestrator.collect_from].
  destruct (Orchestrator.json_truthy _) eqn:Htruthy; [|apply Hskip].
  destruct (Orchestrator.get "tokenAddress" token_fields) as [| | |a0| |] eqn:Hget;
    try apply Hnone.
  destruct (Orchestrator.has_key a0 holders_data) eqn:Hkey; [apply Hskip|].
  assert (Ha0 : a0 ≠ "").
  { intros ->. done. }
  assert (Hhere : ∃ token_fields0,
    (Orchestrator.JObject token_fields :: tokens) !! (i - i)
      = Some (Orchestrator.JObject token_fields0) ∧
    Orchestrator.get "tokenAddress" token_fields0 = Orchestrator.JString a0).
  { exists token_fields. by replace (i - i) with 0 by lia. }
  clear Hskip Hnone.
  destruct (Orchestrator.get_token_holders (answers i) max_retries).1
    as [[holders|]|e] eqn:Hfetch.
  - (* the holders are stored and saved *)
    set (stored := holders_data ++ [(a0, Orchestrator.JArray holders)]).
    pose proof (save_and_count_events stored) as Hsave. cbv zeta in Hsave.
    destruct Hsave as (Hdone & Hevents & Hdump).
    pose proof (IH (S i) stored) as IHs. cbv zeta in IHs.
    destruct IHs as (Hf & Hs & Hp & Hn).
    assert (Hstored : ∀ a v, (a, v) ∈ [(a0, Orchestrator.JArray holders)] →
      a = a0 ∧ v = Orchestrator.JArray holders).
    { by intros a v [= -> ->]%list_elem_of_singleton. }
    assert (Hnd : NoDup holders_data.*1 → NoDup stored.*1).
    { intros Hnd. subst stored. rewrite fmap_app. apply NoDup_app. split_and!; [done| |].
      - intros k Hk Hone. apply list_elem_of_singleton in Hone. simpl in Hone. subst k.
        apply list_elem_of_fmap in Hk as ([k' v] & Heq & Hin). simpl in Heq. subst k'.
        assert (Orchestrator.has_key a0 holders_data = true); [|congruence].
        apply existsb_exists. exists (a0, v). split; [by apply list_elem_of_In|].
        by apply bool_decide_eq_true.
      - apply NoDup_singleton. }
    destruct (Orchestrator.save_and_count stored) as [[[]|e] events] eqn:Hsc;
      cbn [fst snd] in *.
    + set (later := Orchestrator.collect_from answers max_retries (S i) tokens stored) in *.
      assert (Hshown : ∀ saved,
        Orchestrator.shown (later.1, Orchestrator.Fetched i a0 :: events ++ later.2) saved →
        saved = stored ∨ Orchestrator.shown later saved).
      { unfold Orchestrator.shown. cbn [fst snd]. intros saved [Hd|[Hd|Hd]].
        - apply elem_of_cons in Hd as [[=]|Hd].
          apply elem_of_app in Hd as [Hd|Hd]; [|by right; left].
          destruct (Hevents _ Hd) as [[= ->]|[=]]. by left.
        - apply elem_of_cons in Hd as [[=]|Hd].
          apply elem_of_app in Hd as [Hd|Hd]; [|by right; right; left].
          destruct (Hevents _ Hd) as [[=]|[= ->]]. by left.
        - by right; right; right. }
      split_and!.
      * intros j a [[= -> ->]|[Hj|Hj]%elem_of_app]%elem_of_cons.
        -- split_and!; [done|done|lia|done].
        -- by destruct (Hevents _ Hj).
        -- destruct (Hf j a Hj) as (Hk & ? & ? & tf & Hl & ?).
           subst stored. rewrite has_key_app in Hk. apply orb_false_iff in Hk as [Hk _].
           split_and!; [done|done|lia|]. exists tf. split; [|done].
           by replace (j - i) with (S (j - S i)) by lia.
      * intros saved [->|Hsh]%Hshown.
        -- exists [(a0, Orchestrator.JArray holders)]. split; [done|].
           intros a v [-> ->]%Hstored. split; [done|]. exists i, holders.
           split_and!; [done|by constructor|done].
        -- destruct (Hs saved Hsh) as (added & -> & Hadded).
           exists ((a0, Orchestrator.JArray holders) :: added).
           split; [by subst stored; rewrite <- app_assoc|].
           intros a v [[= -> ->]|Hin]%elem_of_cons.
           ++ split; [done|]. exists i, holders. split_and!; [done|by constructor|done].
           ++ destruct (Hadded a v Hin) as (Hk & j & hs & -> & Hj & Hg).
              subst stored. rewrite has_key_app in Hk.
              apply orb_false_iff in Hk as [Hk _]. split; [done|].
              exists j, hs. split_and!; [done| |done].
              apply elem_of_cons. right. apply elem_of_app. by right.
      * intros final Hfinal saved [->|Hsh]%Hshown.
        -- destruct (Hs final) as (added & -> & _); [by right; right|].
           by exists added.
        -- by apply Hp.
      * intros Hnd0 saved [->|Hsh]%Hshown; [by apply Hnd|].
        apply Hn; [by apply Hnd|done].
    + assert (Hshown : ∀ saved,
        Orchestrator.shown (@Orchestrator.Escaped (list (string * Orchestrator.json N)) e,
               Orchestrator.Fetched i a0 :: events) saved →
        saved = stored).
      { unfold Orchestrator.shown. cbn [fst snd]. intros saved [Hd|[Hd|Hd]]; [| |done].
        - apply elem_of_cons in Hd as [[=]|Hd].
          by destruct (Hevents _ Hd) as [[= ->]|[=]].
        - apply elem_of_cons in Hd as [[=]|Hd].
          by destruct (Hevents _ Hd) as [[=]|[= ->]]. }
      split_and!.
      * intros j a [[= -> ->]|Hj]%elem_of_cons.
        -- split_and!; [done|done|lia|done].
        -- by destruct (Hevents _ Hj).
      * intros saved ->%Hshown.
        exists [(a0, Orchestrator.JArray holders)]. split; [done|].
        intros a v [-> ->]%Hstored. split; [done|]. exists i, holders.
        split_and!; [done|by constructor|done].
      * done.
      * intros Hnd0 saved ->%Hshown. by apply Hnd.
  - (* no holders: the loop goes on *)
    pose proof (IH (S i) holders_data) as IHs. cbv zeta in IHs |- *.
    destruct IHs as (Hf & Hs & Hp & Hn).
    set (later := Orchestrator.collect_from answers max_retries (S i) tokens holders_data)
      in *.
    assert (Hshown : ∀ saved,
      Orchestrator.shown (later.1, Orchestrator.Fetched i a0 :: later.2) saved → Orchestrator.shown later saved).
    { unfold Orchestrator.shown. cbn [fst snd]. intros saved [Hd|[Hd|Hd]].
      - apply elem_of_cons in Hd as [[=]|Hd]. by left.
      - apply elem_of_cons in Hd as [[=]|Hd]. by right; left.
      - by right; right. }
    cbn [fst snd]. split_and!.
    + intros j a [[= -> ->]|Hj]%elem_of_cons.
      * split_and!; [done|done|lia|done].
      * destruct (Hf j a Hj) as (? & ? & ? & tf & Hl & ?).
        split_and!; [done|done|lia|]. exists tf. split; [|done].
        by replace (j - i) with (S (j - S i)) by lia.
    + intros saved Hsh%Hshown. destruct (Hs saved Hsh) as (added & -> & Hadded).
      exists added. split; [done|]. intros a v Hin.
      destruct (Hadded a v Hin) as (Hk & j & hs & -> & Hj & Hg). split; [done|].
      exists j, hs. split_and!; [done| |done]. apply elem_of_cons. by right.
    + intros final Hfinal saved Hsh%Hshown. by apply Hp.
    + intros Hnd saved Hsh%Hshown. by apply Hn.
  - (* the request raises *)
    unfold Orchestrator.shown. cbn [fst snd]. split_and!.
    + intros j a [= -> ->]%list_elem_of_singleton. split_and!; [done|done|lia|done].
    + by intros saved [[=]%list_elem_of_singleton|[[=]%list_elem_of_singleton|?]].
    + done.
    + by intros _ saved [[=]%list_elem_of_singleton|[[=]%list_elem_of_singleton|?]].
Qed.

(** *** When nothing raises *)

Lemma add_to_text (owners : list (Orchestrator.json N)) (s : string) :
  forallb Orchestrator.is_text owners = true →
  ∃ owners', Orchestrator.add_to owners (Orchestrator.JString s) = Orchestrator.Done owners'
    ∧ forallb Orchestrator.is_text owners' = true.
Proof.
  intros Ho. unfold Orchestrator.add_to. cbn [Orchestrator.hashable].
  destruct (existsb _ owners); eexists; (split; [done|]); [done|].
  rewrite forallb_app, Ho. done.
Qed.

Lemma addresses_of_token_kept (holders : list (Orchestrator.json N)) :
  forallb Orchestrator.kept_holder holders = true →
  ∀ all, forallb Orchestrator.is_text all = true →
  ∃ all', Orchestrator.addresses_of_token all holders = Orchestrator.Done all'
    ∧ forallb Orchestrator.is_text all' = true.
Proof.
  induction holders as [|holder holders IH]; intros Hk all Hall; [by exists all|].
  cbn [forallb] in Hk. apply andb_true_iff in Hk as [Hh Hk].
  destruct holder as [| | | | |fields]; try done.
  cbn [Orchestrator.kept_holder] in Hh. apply andb_true_iff in Hh as [Hkey Htext].
  cbn [Orchestrator.addresses_of_token Orchestrator.contains_text
       Orchestrator.subscript]. rewrite Hkey. simpl.
  unfold Orchestrator.textual_owner in Htext.
  destruct (Orchestrator.get "ownerAddress" fields) as [| | |s| |]; try done.
  - simpl. by apply IH.
  - cbn [Orchestrator.json_truthy]. destruct (negb (is_empty s)); [|by apply IH].
    destruct (add_to_text all s Hall) as (all' & -> & Hall'). simpl. by apply IH.
Qed.

Lemma addresses_of_all_kept (values : list (Orchestrator.json N)) :
  forallb Orchestrator.kept_holders values = true →
  ∀ all, forallb Orchestrator.is_text all = true →
  ∃ all', Orchestrator.addresses_of_all all values = Orchestrator.Done all'
    ∧ forallb Orchestrator.is_text all' = true.
Proof.
  induction values as [|t values IH]; intros Hk all Hall; [by exists all|].
  cbn [forallb] in Hk. apply andb_true_iff in Hk as [Ht Hk].
  destruct t as [| | | |holders|]; try done. cbn [Orchestrator.kept_holders] in Ht.
  cbn [Orchestrator.addresses_of_all Orchestrator.iterate]. simpl.
  destruct (addresses_of_token_kept holders Ht all Hall) as (all' & -> & Hall').
  simpl. by apply IH.
Qed.

Lemma owners_of_token_kept (holders : list (Orchestrator.json N)) :
  forallb Orchestrator.kept_holder holders = true →
  ∀ owners, ∃ owners',
    Orchestrator.owners_of_token owners holders = Orchestrator.Done owners'.
Proof.
  induction holders as [|holder holders IH]; intros Hk owners; [by exists owners|].
  cbn [forallb] in Hk. apply andb_true_iff in Hk as [Hh Hk].
  destruct holder as [| | | | |fields]; try done.
  cbn [Orchestrator.kept_holder] in Hh. apply andb_true_iff in Hh as [Hkey Htext].
  cbn [Orchestrator.owners_of_token Orchestrator.subscript]. rewrite Hkey. simpl.
  unfold Orchestrator.textual_owner in Htext. unfold Orchestrator.add_to.
  destruct (Orchestrator.get "ownerAddress" fields) as [| | |s| |]; try done;
    cbn [Orchestrator.hashable]; simpl; by apply IH.
Qed.

Lemma owners_of_all_kept (values : list (Orchestrator.json N)) :
  forallb Orchestrator.kept_holders values = true →
  ∀ owners, ∃ owners',
    Orchestrator.owners_of_all owners values = Orchestrator.Done owners'.
Proof.
  induction values as [|t values IH]; intros Hk owners; [by exists owners|].
  cbn [forallb] in Hk. apply andb_true_iff in Hk as [Ht Hk].
  destruct t as [| | | |holders|]; try done. cbn [Orchestrator.kept_holders] in Ht.
  cbn [Orchestrator.owners_of_all Orchestrator.iterate]. simpl.
  destruct (owners_of_token_kept holders Ht owners) as (owners' & ->).
  simpl. by apply IH.
Qed.

Lemma save_and_count_kept holders_data :
  forallb Orchestrator.kept_holders holders_data.*2 = true →
  Orchestrator.save_and_count holders_data =
    (Orchestrator.Done (),
     [Orchestrator.Dumped holders_data; Orchestrator.Saved holders_data]).
Proof.
  intros Hk. unfold Orchestrator.save_and_count, Orchestrator.save_json_holders,
    Orchestrator.total_wallets.
  destruct (addresses_of_all_kept _ Hk [] eq_refl) as (all & -> & Hall).
  assert (Orchestrator.sortable all = true) as ->.
  { unfold Orchestrator.sortable. apply orb_true_iff. left. exact Hall. }
  destruct (owners_of_all_kept _ Hk []) as (owners & ->). done.
Qed.

Lemma collect_from_completes (answers : nat → nat → Orchestrator.answer N)
    (max_retries : Z) (tokens : list (Orchestrator.json N)) :
  forallb Orchestrator.readable_token tokens = true →
  (∀ j, match (Orchestrator.get_token_holders (answers j) max_retries).1 with
        | Orchestrator.Done (Some holders) =>
            forallb Orchestrator.kept_holder holders = true
        | Orchestrator.Done None => True
        | Orchestrator.Escaped _ => False
        end) →
  ∀ i holders_data,
    forallb Orchestrator.kept_holders holders_data.*2 = true →
    ∃ final,
      (Orchestrator.collect_from answers max_retries i tokens holders_data).1
        = Orchestrator.Done final
      ∧ forallb Orchestrator.kept_holders final.*2 = true.
Proof.
  intros Hread Hanswers.
  induction tokens as [|token tokens IH]; intros i holders_data Hk; [by exists holders_data|].
  cbn [forallb] in Hread. apply andb_true_iff in Hread as [Ht Hread].
  destruct token as [| | | | |token_fields]; try done.
  cbn [Orchestrator.readable_token] in Ht.
  cbn [Orchestrator.collect_from].
  destruct (Orchestrator.get "tokenAddress" token_fields) as [| | |a| |]; try done.
  { simpl. by apply IH. }
  destruct (Orchestrator.json_truthy _); [|by apply IH].
  destruct (Orchestrator.has_key a holders_data); [by apply IH|].
  specialize (Hanswers i).
  destruct (Orchestrator.get_token_holders (answers i) max_retries).1
    as [[holders|]|e]; [| |done].
  - assert (Hk' : forallb Orchestrator.kept_holders
                    (holders_data ++ [(a, Orchestrator.JArray holders)]).*2 = true).
    { rewrite fmap_app, forallb_app, Hk. simpl. by rewrite Hanswers. }
    rewrite (save_and_count_kept _ Hk'). cbn [fst snd]. by apply IH.
  - cbn [fst snd]. by apply IH.
Qed.

End collecting.

Section collect_holders.
Context {N : Type} `{Orchestrator.PyNumber N}.

(** The final save adds to what the loop did, and shows no other dict. *)
Lemma collect_holders_after_loop (answers : nat → nat → Orchestrator.answer N)
    (max_retries resume_from : Z) (tokens : list (Orchestrator.json N))
    (holders_data : list (string * Orchestrator.json N)) :
  let start_index := Orchestrator.start_index resume_from in
  let looped := Orchestrator.collect_from answers max_retries start_index
                  (drop start_index tokens) holders_data in
  let out := Orchestrator.collect_holders answers max_retries resume_from tokens
               holders_data in
  ∃ saving, out.2 = looped.2 ++ saving ∧
    (∀ ev, ev ∈ saving →
       ∃ final, looped.1 = Orchestrator.Done final ∧
         (ev = Orchestrator.Dumped final ∨ ev = Orchestrator.Saved final)) ∧
    (∀ final, out.1 = Orchestrator.Done final →
       looped.1 = Orchestrator.Done final ∧
       saving = [Orchestrator.Dumped final; Orchestrator.Saved final]) ∧
    (∀ final, looped.1 = Orchestrator.Done final →
       (Orchestrator.save_and_count final).1 = Orchestrator.Done () →
       out.1 = Orchestrator.Done final).
Proof.
  cbv zeta. unfold Orchestrator.collect_holders.
  destruct (Orchestrator.collect_from _ _ _ _ _) as [[final|e] events]; cbn [fst snd].
  - pose proof (save_and_count_events final) as Hsave. cbv zeta in Hsave.
    destruct Hsave as (Hdone & Hevents & _).
    destruct (Orchestrator.save_and_count final) as [[[]|e] saving] eqn:Hsc;
      cbn [fst snd] in *.
    + exists saving. split_and!; [done| | |].
      * intros ev Hev. exists final. split; [done|]. by apply Hevents.
      * intros final' [= <-]. split; [done|]. by apply Hdone.
      * by intros final' [= <-] _.
    + exists saving. split_and!; [done| |done|].
      * intros ev Hev. exists final. split; [done|]. by apply Hevents.
      * intros final' [= <-] Hd. by rewrite Hsc in Hd.
  - exists []. rewrite app_nil_r. split_and!; [done| |done|done].
    by intros ev ?%elem_of_nil.
Qed.

End collect_holders.
(** X16.  Collecting holders with resume, in [run_complete_workflow], on the
    decoded values.  A request is made only for a token from the resume
    index on whose address is a non-empty [str] that is no key of the dict
    loaded.  Every dict that is dumped or saved, and the dict at the end, is
    the loaded dict followed by new keys, each with the list that a request
    for that token returned; so what was stored before stays as it was, and
    with each key once in the loaded dict each key is there once.  When the
    steps return, every dict dumped before is a part of the final one and the
    last thing done is the save of the final one.  They return when the
    tokens from the resume index on are dicts with a [str] or no address, no
    request raises, and the holders stored and fetched are dicts with an
    owner address that is a [str] or [null].  They need not: a first token
    that is no dict lets an [AttributeError] leave them, and one whose
    address is a number other than zero a [TypeError], before any request; so
    does a request that reads a [result] that is [null], and a stored value
    that is [null], once the dict is dumped; and a stored holder without an
    owner address, which the progress line asks for, lets a [KeyError] leave
    them after the dict was saved. *)
Theorem collect_keeps_stored {N : Type} `{Orchestrator.PyNumber N}
    (answers : nat → nat → Orchestrator.answer N) (max_retries resume_from : Z)
    (tokens : list (Orchestrator.json N))
    (holders_data : list (string * Orchestrator.json N)) :
  let out := Orchestrator.collect_holders answers max_retries resume_from tokens
               holders_data in
  (∀ j a, Orchestrator.Fetched j a ∈ out.2 →
     Orchestrator.has_key a holders_data = false ∧ a ≠ "" ∧
     Orchestrator.start_index resume_from ≤ j ∧
     ∃ token_fields, tokens !! j = Some (Orchestrator.JObject token_fields) ∧
       Orchestrator.get "tokenAddress" token_fields = Orchestrator.JString a) ∧
  (∀ saved, Orchestrator.shown out saved →
     ∃ added, saved = holders_data ++ added ∧
       ∀ a v, (a, v) ∈ added →
         Orchestrator.has_key a holders_data = false ∧
         ∃ j holders, v = Orchestrator.JArray holders ∧
           Orchestrator.Fetched j a ∈ out.2 ∧
           (Orchestrator.get_token_holders (answers j) max_retries).1
             = Orchestrator.Done (Some holders)) ∧
  (∀ saved a, Orchestrator.shown out saved → Orchestrator.has_key a holders_data = true →
     Orchestrator.has_key a saved = true ∧
     Orchestrator.get a saved = Orchestrator.get a holders_data) ∧
  (NoDup holders_data.*1 → ∀ saved, Orchestrator.shown out saved → NoDup saved.*1) ∧
  (∀ final, out.1 = Orchestrator.Done final →
     (∀ saved, Orchestrator.shown out saved → saved `prefix_of` final) ∧
     last out.2 = Some (Orchestrator.Saved final)) ∧
  (forallb Orchestrator.readable_token
     (drop (Orchestrator.start_index resume_from) tokens) = true →
   (∀ j, match (Orchestrator.get_token_holders (answers j) max_retries).1 with
         | Orchestrator.Done (Some holders) =>
             forallb Orchestrator.kept_holder holders = true
         | Orchestrator.Done None => True
         | Orchestrator.Escaped _ => False
         end) →
   forallb Orchestrator.kept_holders holders_data.*2 = true →
   ∃ final, out.1 = Orchestrator.Done final) ∧
  (∀ token rest,
     (∀ token_fields, token ≠ Orchestrator.JObject token_fields) →
     Orchestrator.collect_holders answers max_retries 0 (token :: rest) holders_data
     = (Orchestrator.Escaped Orchestrator.AttributeError, [])) ∧
  (∀ x rest,
     Orchestrator.num_truthy x = true →
     Orchestrator.collect_holders answers max_retries 0
       (Orchestrator.JObject [("tokenAddress", Orchestrator.JNumber x)] :: rest)
       holders_data
     = (Orchestrator.Escaped Orchestrator.TypeError, [])) ∧
  Orchestrator.collect_holders answers max_retries 0 [] [("s", Orchestrator.JNull)]
  = (Orchestrator.Escaped Orchestrator.TypeError,
     [Orchestrator.Dumped [("s", Orchestrator.JNull)]]) ∧
  Orchestrator.collect_holders
    (λ _ _, Orchestrator.Body (Orchestrator.JObject [("result", Orchestrator.JNull)]))
    0 0 [Orchestrator.JObject [("tokenAddress", Orchestrator.JString "t")]] []
  = (Orchestrator.Escaped Orchestrator.TypeError, [Orchestrator.Fetched 0 "t"]) ∧
  (let stored := [("s", Orchestrator.JArray [Orchestrator.JObject []]);
                  ("t", Orchestrator.JArray [])] in
   Orchestrator.collect_holders
     (λ _ _, Orchestrator.Body
               (Orchestrator.JObject [("result", Orchestrator.JArray [])]))
     0 0 [Orchestrator.JObject [("tokenAddress", Orchestrator.JString "t")]]
     [("s", Orchestrator.JArray [Orchestrator.JObject []])]
   = (Orchestrator.Escaped Orchestrator.KeyError,
      [Orchestrator.Fetched 0 "t"; Orchestrator.Dumped stored;
       Orchestrator.Saved stored])).
Proof.
  intros out.
  pose proof (collect_holders_after_loop answers max_retries resume_from tokens
                holders_data) as Hafter.
  pose proof (collect_from_spec answers max_retries
                (drop (Orchestrator.start_index resume_from) tokens)
                (Orchestrator.start_index resume_from) holders_data) as Hspec.
  cbv zeta in Hafter, Hspec. fold out in Hafter.
  set (s := Orchestrator.start_index resume_from) in *.
  set (looped := Orchestrator.collect_from answers max_retries s (drop s tokens)
                   holders_data) in *.
  destruct Hafter as (saving & Hout & Hsaving & Hdone & Hsaved).
  destruct Hspec as (Hf & Hs & Hp & Hn).
  assert (Hshown : ∀ saved, Orchestrator.shown out saved → Orchestrator.shown looped saved).
  { unfold Orchestrator.shown. rewrite Hout.
    intros saved [Hd|[Hd|Hd]].
    - apply elem_of_app in Hd as [Hd|Hd]; [by left|].
      destruct (Hsaving _ Hd) as (final & Hl & [[= ->]|[=]]). by right; right.
    - apply elem_of_app in Hd as [Hd|Hd]; [by right; left|].
      destruct (Hsaving _ Hd) as (final & Hl & [[=]|[= ->]]). by right; right.
    - right; right. by apply Hdone. }
  assert (Hfetched : ∀ j a, Orchestrator.Fetched j a ∈ out.2 ↔
                            Orchestrator.Fetched j a ∈ looped.2).
  { intros j a. rewrite Hout, elem_of_app. split; [|by left].
    intros [?|Hd]; [done|]. by destruct (Hsaving _ Hd) as (final & _ & [[=]|[=]]). }
  assert (Hadded : ∀ saved, Orchestrator.shown out saved →
    ∃ added, saved = holders_data ++ added ∧
      ∀ a v, (a, v) ∈ added →
        Orchestrator.has_key a holders_data = false ∧
        ∃ j holders, v = Orchestrator.JArray holders ∧
          Orchestrator.Fetched j a ∈ out.2 ∧
          (Orchestrator.get_token_holders (answers j) max_retries).1
            = Orchestrator.Done (Some holders)).
  { intros saved Hsh%Hshown. destruct (Hs saved Hsh) as (added & -> & Hadded).
    exists added. split; [done|]. intros a v Hin.
    destruct (Hadded a v Hin) as (Hk & j & holders & -> & Hj & Hg). split; [done|].
    exists j, holders. split_and!; [done| |done]. by apply Hfetched. }
  split_and!.
  - intros j a Hj%Hfetched. destruct (Hf j a Hj) as (? & ? & ? & tf & Hl & ?).
    split_and!; [done..|]. exists tf. split; [|done].
    rewrite lookup_drop in Hl. by replace (s + (j - s)) with j in Hl by lia.
  - exact Hadded.
  - intros saved a Hsh Hk. destruct (Hadded saved Hsh) as (added & -> & _).
    split; [by rewrite has_key_app, Hk|by apply get_app_stored].
  - intros Hnd saved Hsh%Hshown. by apply Hn.
  - intros final Hfinal. destruct (Hdone final Hfinal) as [Hl ->]. split.
    + intros saved Hsh%Hshown. by apply Hp.
    + rewrite Hout. by rewrite (last_app_cons _ [_]).
  - intros Hread Hanswers Hkept.
    destruct (collect_from_completes answers max_retries (drop s tokens) Hread
                Hanswers s holders_data Hkept) as (final & Hl & Hk).
    exists final. apply Hsaved; [done|]. by rewrite (save_and_count_kept _ Hk).
  - intros token rest Htoken. destruct token; try reflexivity. by destruct (Htoken fields).
  - intros x rest Hx. unfold Orchestrator.collect_holders.
    cbn -[Orchestrator.num_truthy].
    destruct (decide ("tokenAddress" = "tokenAddress")); [|done].
    cbn -[Orchestrator.num_truthy]. by rewrite Hx.
  - reflexivity.
  - reflexivity.
  - reflexivity.
Qed.
(** * Runs on the text of the ledger *)

(** ** Appending to a text and reading it by line *)

Lemma append_empty_r s : s +:+ "" = s.
Proof. induction s as [|c s IH]; [done|]. by rewrite (append_cons c), IH. Qed.

Lemma lines_after_carriage s :
  (∀ s', s ≠ String LF s') → lines_after true s = lines_after false s.
Proof.
  destruct s as [|c s]; [done|]. intros Hc. rewrite !lines_after_cons.
  destruct (decide (c = LF)) as [->|?]; [by destruct (Hc s)|done].
Qed.

Lemma lines_after_app_break cr s1 s2 :
  ends_with_break s1 = true → (∀ s', s2 ≠ String LF s') →
  lines_after cr (s1 +:+ s2) = lines_after cr s1 ++ lines_after false s2.
Proof.
  intros Hend Hs2. revert cr Hend.
  induction s1 as [|c s1 IH]; intros cr Hend; [done|].
  destruct s1 as [|c' s1].
  - simpl in Hend. apply bool_decide_eq_true in Hend.
    rewrite (append_cons c), append_nil, !lines_after_cons.
    destruct (decide (c = LF)) as [->|Hlf]; [by destruct cr|].
    destruct Hend as [? | ->]; [done|]. rewrite decide_True by done.
    simpl. by rewrite lines_after_carriage.
  - change (ends_with_break (String c (String c' s1)))
      with (ends_with_break (String c' s1)) in Hend.
    rewrite (append_cons c), !(lines_after_cons _ c).
    destruct (decide (c = LF)); [destruct cr; by rewrite IH|].
    destruct (decide (c = CR)); [by rewrite IH|].
    rewrite IH by done. apply cons_line_app, lines_after_nonempty.
Qed.

Lemma has_char_app c s1 s2 :
  has_char c (s1 +:+ s2) = has_char c s1 || has_char c s2.
Proof.
  induction s1 as [|a s1 IH]; [done|]. rewrite (append_cons a), !has_char_cons, IH.
  by case_decide.
Qed.

(** A line without a line break, followed by its line feed, is one line. *)
Lemma lines_of_unbroken l :
  has_char LF l = false → has_char CR l = false →
  lines_after false (l +:+ newline) = [l +:+ newline].
Proof.
  induction l as [|c l IH]; [done|]. rewrite !has_char_cons.
  destruct (decide (c = LF)); [done|]. destruct (decide (c = CR)); [done|].
  intros Hlf Hcr. rewrite (append_cons c), lines_after_cons, IH by done.
  by rewrite !decide_False.
Qed.

Lemma written_cons line lines :
  written (line :: lines) = (line +:+ newline) +:+ written lines.
Proof. unfold written. simpl. by rewrite append_assoc. Qed.

Lemma lines_of_written lines :
  Forall (λ l, has_char LF l = false ∧ has_char CR l = false) lines →
  lines_after false (written lines) = (λ l, l +:+ newline) <$> lines.
Proof.
  induction 1 as [|l lines [Hlf Hcr] _ IH]; [done|].
  rewrite written_cons, lines_after_app by apply ends_with_lf_line.
  by rewrite lines_of_unbroken, IH.
Qed.

(** What is appended to a text whose last line is complete is read as lines
    of its own, after the lines of the text. *)
Lemma readlines_appended text lines :
  last_line_complete text = true →
  Forall (λ l, has_char LF l = false ∧ has_char CR l = false ∧ l ≠ "") lines →
  readlines (text +:+ written lines) =
    readlines text ++ ((λ l, l +:+ newline) <$> lines).
Proof.
  intros Hc Hl. unfold readlines.
  assert (Hw : lines_after false (written lines) = (λ l, l +:+ newline) <$> lines).
  { apply lines_of_written. eapply Forall_impl; [exact Hl|]. naive_solver. }
  unfold last_line_complete in Hc. apply orb_true_iff in Hc as [He|Hb].
  { destruct text; [|done]. by rewrite append_nil. }
  rewrite lines_after_app_break, Hw; [done|done|].
  intros s' Hs. destruct Hl as [|l lines (Hlf & _ & Hne) _]; [done|].
  rewrite written_cons in Hs. destruct l as [|c l]; [done|].
  rewrite !(append_cons c) in Hs. injection Hs as -> _.
  by rewrite has_char_cons, decide_True in Hlf.
Qed.

(** The text after the calls of [save_scanned_wallet], one after the other. *)
Lemma appended_one_by_one text (ws : list string) (tss : list Z) :
  foldl (λ content p, append_scanned_wallet p.1 p.2 content) text (zip ws tss)
  = text +:+ written (zip_with ledger_line ws tss).
Proof.
  revert text tss. induction ws as [|w ws IH]; intros text [|ts tss]; simpl;
    try by rewrite append_empty_r.
  rewrite IH. unfold append_scanned_wallet. fold (written (zip_with ledger_line ws tss)).
  by rewrite !append_assoc.
Qed.

(** ** The line of an address *)

Lemma lstrip_length s : String.length (lstrip s) ≤ String.length s.
Proof.
  induction s as [|c s IH]; [done|]. rewrite lstrip_cons.
  destruct (py_isspace c); simpl; lia.
Qed.

Lemma lstrip_fixed c s : lstrip (String c s) = String c s → py_isspace c = false.
Proof.
  rewrite lstrip_cons. destruct (py_isspace c); [|done]. intros Heq.
  pose proof (lstrip_length s) as Hle. rewrite Heq in Hle. simpl in Hle. lia.
Qed.

Lemma rstrip_app_kept s1 s2 :
  is_empty (rstrip s2) = false → rstrip (s1 +:+ s2) = s1 +:+ rstrip s2.
Proof.
  intros Hne. induction s1 as [|c s1 IH]; [done|].
  rewrite !(append_cons c), rstrip_cons, IH.
  destruct (s1 +:+ rstrip s2) eqn:Hs; [|done].
  destruct s1; [|done]. rewrite append_nil in Hs. by rewrite Hs in Hne.
Qed.

Lemma before_char_app c s1 s2 :
  has_char c s1 = false → before_char c (s1 +:+ String c s2) = s1.
Proof.
  induction s1 as [|a s1 IH].
  - intros _. by rewrite append_nil, before_char_cons, decide_True.
  - rewrite has_char_cons. case_decide; [done|]. intros Hs.
    by rewrite (append_cons a), before_char_cons, decide_False, IH.
Qed.

Lemma ledger_safe_parts w :
  ledger_safe w = true →
  has_char "|" w = false ∧ has_char LF w = false ∧ has_char CR w = false ∧
  lstrip w = w.
Proof.
  unfold ledger_safe. rewrite !andb_true_iff, !negb_true_iff, bool_decide_eq_true.
  tauto.
Qed.

Lemma spaceless_has_char c s :
  py_isspace c = true → spaceless s = true → has_char c s = false.
Proof.
  intros Hc. induction s as [|a s IH]; [done|]. intros [Ha Hs]%spaceless_cons.
  rewrite has_char_cons. case_decide; [congruence|by apply IH].
Qed.

(** The line written for an address holds no line break and is not empty. *)
Lemma ledger_line_unbroken w timestamp :
  ledger_safe w = true →
  has_char LF (ledger_line w timestamp) = false ∧
  has_char CR (ledger_line w timestamp) = false ∧
  ledger_line w timestamp ≠ "".
Proof.
  intros (_ & Hlf & Hcr & _)%ledger_safe_parts. unfold ledger_line.
  rewrite !has_char_app, Hlf, Hcr.
  rewrite !(spaceless_has_char _ (pretty timestamp)) by (done || apply pretty_Z_spaceless).
  split_and!; [done..|]. by destruct w.
Qed.

(** The line as it is read, with its line feed, stands for the address. *)
Lemma ledger_entry_safe w timestamp :
  ledger_safe w = true → ledger_entry (ledger_line w timestamp +:+ newline) = Some w.
Proof.
  intros (Hbar & _ & _ & Hl)%ledger_safe_parts.
  unfold ledger_entry, ledger_line, strip. rewrite !append_assoc.
  change ("|" +:+ pretty timestamp +:+ newline)
    with (String "|" (pretty timestamp +:+ newline)).
  assert (Hfront : lstrip (w +:+ String "|" (pretty timestamp +:+ newline))
                   = w +:+ String "|" (pretty timestamp +:+ newline)).
  { destruct w as [|c w]; [done|]. apply lstrip_fixed in Hl.
    by rewrite (append_cons c), lstrip_cons, Hl. }
  assert (Hback : rstrip (String "|" (pretty timestamp +:+ newline))
                  = String "|" (pretty timestamp)).
  { by rewrite rstrip_cons, rstrip_line, bar_not_space, andb_false_r
      by apply pretty_Z_spaceless. }
  rewrite Hfront, rstrip_app_kept by (by rewrite Hback). rewrite Hback.
  rewrite has_char_app, has_char_cons, decide_True, orb_true_r by done.
  rewrite before_char_app by done. by destruct w.
Qed.
(** ** The second run *)

Section text_runs.
Context `{PyLib}.

Lemma load_appended text lines w :
  last_line_complete text = true →
  Forall (λ l, has_char LF l = false ∧ has_char CR l = false ∧ l ≠ "") lines →
  w ∈ load_scanned_wallets (readlines (text +:+ written lines)) ↔
  w ∈ load_scanned_wallets (readlines text) ∨
  ∃ l, l ∈ lines ∧ ledger_entry (l +:+ newline) = Some w.
Proof.
  intros Hc Hl. rewrite readlines_appended, load_scanned_wallets_app, elem_of_union by done.
  apply or_iff_compat_l. rewrite elem_of_load. split.
  - intros (line & (l & -> & Hin)%list_elem_of_fmap & He). eauto.
  - intros (l & Hin & He). exists (l +:+ newline). split; [|done].
    apply list_elem_of_fmap. eauto.
Qed.

(** After the lines of the wallets [new] have been appended, a wallet is in
    the ledger when it was there before or is one of [new]. *)
Lemma load_after_run text (new : list string) (tss : list Z) w :
  last_line_complete text = true →
  Forall (λ w, ledger_safe w = true) new →
  length tss = length new →
  w ∈ load_scanned_wallets (readlines text) ∨ w ∈ new →
  w ∈ load_scanned_wallets (readlines (text +:+ written (zip_with ledger_line new tss))).
Proof.
  intros Hc Hsafe Hlen Hw. apply load_appended; [done| |].
  - apply Forall_forall. intros l Hl.
    apply list_elem_of_lookup in Hl as [i Hi].
    apply lookup_zip_with_Some in Hi as (w' & ts & -> & Hw' & _).
    apply ledger_line_unbroken. apply (proj1 (Forall_forall _ _) Hsafe).
    by eapply list_elem_of_lookup_2.
  - destruct Hw as [?|Hin]; [by left|right].
    apply list_elem_of_lookup in Hin as [i Hi].
    destruct (lookup_lt_is_Some_2 tss i) as [ts Hts].
    { rewrite Hlen. by eapply lookup_lt_Some. }
    exists (ledger_line w ts). split.
    + apply list_elem_of_lookup. exists i. apply lookup_zip_with_Some. eauto.
    + apply ledger_entry_safe. apply (proj1 (Forall_forall _ _) Hsafe).
      by eapply list_elem_of_lookup_2.
Qed.

(** With every configured wallet in the ledger, the analyzer returns before
    distributing anything. *)
Lemma analyzer_run_nothing pg cfg clock sched fs :
  (∀ w, w ∈ Analyzer.wallets cfg → w ∈ load_scanned_wallets (Analyzer.ledger_file fs)) →
  Analyzer.run pg cfg clock sched fs =
    Some (fs, {| Analyzer.success := true; Analyzer.total_scanned := 0;
                 Analyzer.total_passed := 0; Analyzer.good_wallets_found := [] |}).
Proof.
  intros Hall. unfold Analyzer.run, Analyzer._load_unscanned_wallets.
  cbv beta iota zeta. rewrite filter_none; [done|].
  intros w Hw Hnot. by apply Hnot, Hall.
Qed.

(** A run on the text that leaves the by-line ledger as it was leaves the
    text as it was. *)
Lemma analyzer_text_run_same pg clock cfg sched text output s :
  Analyzer.run pg cfg clock sched
    {| Analyzer.ledger_file := readlines text; Analyzer.output_file := output |}
  = Some ({| Analyzer.ledger_file := readlines text; Analyzer.output_file := output |}, s) →
  OnText.analyzer_run pg clock cfg sched text output = Some (text, output, s).
Proof.
  intros Hrun. unfold OnText.analyzer_run. cbv zeta. rewrite Hrun. simpl.
  by rewrite drop_all, append_empty_r.
Qed.

Lemma analyzer_text_second_run pg pg' clock clock' cfg sched1 sched2
    text output text1 output1 s1 :
  Forall (λ w, ledger_safe w = true) (Analyzer.wallets cfg) →
  last_line_complete text = true →
  OnText.analyzer_run pg clock cfg sched1 text output = Some (text1, output1, s1) →
  (∃ new timestamps,
     length timestamps = length new ∧
     new ≡ₚ (if Analyzer.success s1
             then filter (λ w, w ∉ load_scanned_wallets (readlines text))
                    (Analyzer.wallets cfg)
             else []) ∧
     text1 = foldl (λ content p, append_scanned_wallet p.1 p.2 content) text
               (zip new timestamps)) ∧
  ∃ s2, OnText.analyzer_run pg' clock' cfg sched2 text1 output1
          = Some (text1, output1, s2) ∧
        Analyzer.total_scanned s2 = 0 ∧ Analyzer.total_passed s2 = 0.
Proof.
  intros Hsafe Hc Hrun. unfold OnText.analyzer_run in Hrun. cbv zeta in Hrun.
  set (fs := {| Analyzer.ledger_file := readlines text;
                Analyzer.output_file := output |}) in *.
  destruct (Analyzer.run pg cfg clock sched1 fs) as [[fs' s]|] eqn:Hr; [|done].
  injection Hrun as <- <- <-.
  unfold Analyzer.run, Analyzer._load_unscanned_wallets in Hr.
  cbv beta iota zeta in Hr.
  change (Analyzer.ledger_file fs) with (readlines text) in *.
  destruct (filter _ (Analyzer.wallets cfg)) as [|w0 ws] eqn:Hun.
  { simpl in Hr. injection Hr as <- <-. simpl.
    rewrite drop_all, append_empty_r. split.
    - exists [], []. by split_and!.
    - exists {| Analyzer.success := true; Analyzer.total_scanned := 0;
                Analyzer.total_passed := 0; Analyzer.good_wallets_found := [] |}.
      split; [|done]. apply analyzer_text_run_same.
      apply analyzer_run_nothing. intros w Hw. simpl.
      destruct (decide (w ∈ load_scanned_wallets (readlines text))) as [?|Hnot]; [done|].
      exfalso. eapply (filter_nil_not_elem_of _ _ w Hun); done. }
  simpl negb in Hr. cbv iota in Hr.
  destruct (Analyzer._distribute_wallets (w0 :: ws) (Analyzer.num_pages cfg))
    as [wallet_chunks|e] eqn:Hd.
  2:{ injection Hr as <- <-. simpl. rewrite drop_all, append_empty_r. split.
      - exists [], []. by split_and!.
      - exists {| Analyzer.success := false; Analyzer.total_scanned := 0;
                  Analyzer.total_passed := 0; Analyzer.good_wallets_found := [] |}.
        split; [|done]. apply analyzer_text_run_same.
        unfold Analyzer.run, Analyzer._load_unscanned_wallets. cbv beta iota zeta.
        cbn [Analyzer.ledger_file]. rewrite Hun. simpl negb. cbv iota. by rewrite Hd. }
  destruct (Analyzer.finished _) eqn:Hfin; [|done].
  destruct (analyzer_run_books pg cfg clock _ (w0 :: ws) wallet_chunks fs sched1
              ltac:(done) Hd Hfin) as (Hperm & (tss & Htl & Hl) & _).
  injection Hr as <- <-. cbn [Analyzer.ledger_file Analyzer.output_file Analyzer.success].
  rewrite Hl. change (Analyzer.ledger_file fs) with (readlines text).
  rewrite drop_app_length.
  set (new := ledgered _) in *.
  assert (Hnew : Forall (λ w, ledger_safe w = true) new).
  { apply Forall_forall. intros w Hw. rewrite Hperm, <- Hun in Hw.
    apply list_elem_of_filter in Hw as [_ Hw].
    by apply (proj1 (Forall_forall _ _) Hsafe). }
  split.
  - exists new, tss. split_and!; [done|done|]. by rewrite appended_one_by_one.
  - exists {| Analyzer.success := true; Analyzer.total_scanned := 0;
              Analyzer.total_passed := 0; Analyzer.good_wallets_found := [] |}.
    split; [|done]. apply analyzer_text_run_same, analyzer_run_nothing.
    intros w Hw. cbn [Analyzer.ledger_file]. apply load_after_run; try done.
    destruct (decide (w ∈ load_scanned_wallets (readlines text))) as [?|Hnot]; [by left|].
    right. rewrite Hperm, <- Hun. by apply list_elem_of_filter.
Qed.

(** The same for the scanner. *)
Lemma load_existing_output (fs fs2 : Scanner.files) :
  Scanner.output_file fs = Scanner.output_file fs2 →
  Scanner.load_existing_results fs = Scanner.load_existing_results fs2.
Proof. unfold Scanner.load_existing_results. by intros ->. Qed.

Lemma scanner_text_run_same pg clock min_winrate min_pnl num_pages sched input text
    output s :
  Scanner.run pg min_winrate min_pnl clock num_pages sched
    {| Scanner.input_file := input; Scanner.ledger_file := readlines text;
       Scanner.output_file := output |}
  = Some (Returned ({| Scanner.input_file := input; Scanner.ledger_file := readlines text;
                       Scanner.output_file := output |}, s)) →
  OnText.scanner_run pg clock min_winrate min_pnl num_pages sched input text output
    = Some (Returned (text, output, s)).
Proof.
  intros Hrun. unfold OnText.scanner_run. cbv zeta. rewrite Hrun. simpl.
  by rewrite drop_all, append_empty_r.
Qed.

Lemma scanner_text_second_run pg pg' clock clock' min_winrate min_pnl num_pages
    sched1 sched2 input text output text1 output1 s1 :
  Forall (λ w, ledger_safe w = true)
    (Scanner.load_wallets {| Scanner.input_file := input;
                             Scanner.ledger_file := readlines text;
                             Scanner.output_file := output |}) →
  last_line_complete text = true →
  OnText.scanner_run pg clock min_winrate min_pnl num_pages sched1 input text output
    = Some (Returned (text1, output1, s1)) →
  (∃ new timestamps,
     length timestamps = length new ∧ length new = Scanner.processed s1 ∧
     text1 = foldl (λ content p, append_scanned_wallet p.1 p.2 content) text
               (zip new timestamps)) ∧
  OnText.scanner_run pg' clock' min_winrate min_pnl num_pages sched2 input text1 output1
    = Some (Returned (text1, output1,
                      {| Scanner.processed := 0; Scanner.passed := 0;
                         Scanner.skipped := 0 |})).
Proof.
  intros Hsafe Hc Hrun. unfold OnText.scanner_run in Hrun. cbv zeta in Hrun.
  set (fs := {| Scanner.input_file := input; Scanner.ledger_file := readlines text;
                Scanner.output_file := output |}) in *.
  destruct (Scanner.run pg min_winrate min_pnl clock num_pages sched1 fs)
    as [[[fs' s]|e]|] eqn:Hr; [|done..].
  injection Hrun as <- <- <-.
  unfold Scanner.run in Hr. cbv zeta in Hr.
  set (scanned0 := Scanner.load_existing_results fs
                   ∪ load_scanned_wallets (Scanner.ledger_file fs)) in *.
  assert (Hnothing :
    (∀ w, w ∈ Scanner.load_wallets fs → w ∈ scanned0) →
    Some (Returned (fs, {| Scanner.processed := 0; Scanner.passed := 0;
                           Scanner.skipped := 0 |})) = Some (Returned (fs', s)) →
    (∃ new timestamps,
       length timestamps = length new ∧ length new = Scanner.processed s ∧
       text +:+ written (drop (length (readlines text)) (Scanner.ledger_file fs'))
       = foldl (λ content p, append_scanned_wallet p.1 p.2 content) text
           (zip new timestamps)) ∧
    OnText.scanner_run pg' clock' min_winrate min_pnl num_pages sched2 input
      (text +:+ written (drop (length (readlines text)) (Scanner.ledger_file fs')))
      (Scanner.output_file fs')
    = Some (Returned (text +:+ written (drop (length (readlines text))
                                          (Scanner.ledger_file fs')),
                      Scanner.output_file fs',
                      {| Scanner.processed := 0; Scanner.passed := 0;
                         Scanner.skipped := 0 |}))).
  { intros Hall [= <- <-]. simpl. rewrite drop_all, append_empty_r. split.
    - exists [], []. by split_and!.
    - apply scanner_text_run_same. by apply scanner_run_nothing. }
  destruct (truthy (Scanner.load_wallets fs)) eqn:Hany; simpl negb in Hr; cbv iota in Hr.
  2:{ apply Hnothing; [|done]. intros w Hw.
      destruct (Scanner.load_wallets fs); [by apply elem_of_nil in Hw|done]. }
  destruct (filter (λ w, w ∉ scanned0) (Scanner.load_wallets fs)) as [|w0 ws] eqn:Hun;
    simpl negb in Hr; cbv iota in Hr.
  { apply Hnothing; [|done]. intros w Hw.
    destruct (decide (w ∈ scanned0)) as [?|Hnot]; [done|].
    exfalso. eapply (filter_nil_not_elem_of _ _ w Hun); done. }
  clear Hnothing.
  destruct (Scanner.distribute_wallets num_pages (w0 :: ws)) as [wallet_chunks|e] eqn:Hd;
    [|done].
  destruct (Scanner.finished _) eqn:Hfin; [|done].
  destruct (scanner_run_books pg min_winrate min_pnl clock num_pages scanned0 (w0 :: ws)
              wallet_chunks fs sched1 ltac:(done) Hd Hfin)
    as (_ & Hin & Hcov & (tss & Htl & Hl) & Hpr & _).
  injection Hr as <- <-.
  rewrite save_results_ledger. cbn [Scanner.ledger_file Scanner.processed].
  rewrite Hl. change (Scanner.ledger_file fs) with (readlines text).
  rewrite drop_app_length.
  set (st := Scanner.exec _ _ _ _ _ _) in *.
  set (new := ledgered (Scanner.trace st)) in *.
  assert (Hnew : Forall (λ w, ledger_safe w = true) new).
  { apply Forall_forall. intros w Hw. apply Hin in Hw as [Hw _].
    rewrite <- Hun in Hw. apply list_elem_of_filter in Hw as [_ Hw].
    by apply (proj1 (Forall_forall _ _) Hsafe). }
  split.
  - exists new, tss. split_and!; [done|done|]. by rewrite appended_one_by_one.
  - apply scanner_text_run_same, scanner_run_nothing.
    intros w Hw. cbn [Scanner.ledger_file].
    change (w ∈ Scanner.load_wallets fs) in Hw.
    destruct (decide (w ∈ scanned0)) as [Hs|Hnot].
    + apply elem_of_union in Hs as [Hs|Hs].
      * apply elem_of_union_l.
        rewrite (load_existing_output _
                   (Scanner.save_results (Scanner.results st)
                      {| Scanner.input_file := input;
                         Scanner.ledger_file :=
                           readlines text ++ zip_with ledger_line new tss;
                         Scanner.output_file := output |})) by reflexivity.
        apply save_results_existing. exact Hs.
      * apply elem_of_union_r. apply load_after_run; try done. by left.
    + apply elem_of_union_r. apply load_after_run; try done. right.
      apply Hcov; [|done]. rewrite <- Hun. by apply list_elem_of_filter.
Qed.

End text_runs.
(** ** Claims about the second run *)

(** C5 fails for an address that contains the ledger separator: the line
    written for [a|b] is [a|b|<timestamp>], which is read back as [a], so the
    second run does not find [a|b] in the ledger and evaluates it again.
    This is so by line and on the text of the ledger alike. *)
Lemma separator_in_address_rescanned :
  let cfg := Demo.defaults 1 ["a|b"] in
  (∃ fs1 s1 fs2 s2,
     Analyzer.run Demo.scenario_a cfg Demo.clock [0; 0; 0; 0] Demo.fresh = Some (fs1, s1) ∧
     Analyzer.ledger_file fs1 = ["a|b|1759406403"] ∧
     load_scanned_wallets (Analyzer.ledger_file fs1) = {["a"]} ∧
     Analyzer.run Demo.scenario_a cfg Demo.clock [0; 0; 0; 0] fs1 = Some (fs2, s2) ∧
     Analyzer.total_scanned s2 = 1) ∧
  ∃ output1 s1 text2 output2 s2,
    ledger_safe "a|b" = false ∧
    OnText.analyzer_run Demo.scenario_a Demo.clock cfg [0; 0; 0; 0] "" None
      = Some ("a|b|1759406403" +:+ newline, output1, s1) ∧
    OnText.analyzer_run Demo.scenario_a Demo.clock cfg [0; 0; 0; 0]
      ("a|b|1759406403" +:+ newline) output1 = Some (text2, output2, s2) ∧
    Analyzer.total_scanned s2 = 1.
Proof.
  intros cfg. split.
  - destruct (Analyzer.run Demo.scenario_a cfg Demo.clock [0; 0; 0; 0] Demo.fresh)
      as [[fs1 s1]|] eqn:Hrun1; vm_compute in Hrun1; [|done].
    injection Hrun1 as <- <-.
    eexists _, _, _, _. split_and!; [reflexivity|reflexivity| |by vm_compute|reflexivity].
    apply set_eq. intros w. rewrite elem_of_load, elem_of_singleton. split.
    + intros (line & ->%list_elem_of_singleton & Hl). vm_compute in Hl. congruence.
    + intros ->. exists "a|b|1759406403". split; [apply list_elem_of_here|reflexivity].
  - eexists _, _, _, _, _. split_and!; [reflexivity|by vm_compute|by vm_compute|reflexivity].
Qed.

(** The ledger must end in a line break for what is appended to be read
    back: after [x|1] without one, the line of [w] is glued to it and reads
    as [x], and the second run evaluates [w] again. *)
Lemma unterminated_ledger_rescanned :
  let cfg := Demo.defaults 1 ["w"] in
  ∃ output1 s1 text2 output2 s2,
    ledger_safe "w" = true ∧ last_line_complete "x|1" = false ∧
    OnText.analyzer_run Demo.scenario_a Demo.clock cfg [0; 0; 0; 0] "x|1" None
      = Some ("x|1w|1759406403" +:+ newline, output1, s1) ∧
    OnText.analyzer_run Demo.scenario_a Demo.clock cfg [0; 0; 0; 0]
      ("x|1w|1759406403" +:+ newline) output1 = Some (text2, output2, s2) ∧
    Analyzer.total_scanned s2 = 1.
Proof.
  intros cfg. eexists _, _, _, _, _.
  split_and!; [reflexivity|reflexivity|by vm_compute|by vm_compute|reflexivity].
Qed.

(** C5 (amended).  For every wallet set whose addresses contain neither the
    ledger separator [|] nor a line break and do not begin with white space,
    and a ledger file that is empty or ends in a line break, once a run of
    the engine has returned, a second run on the same wallets with the ledger
    left as the first run wrote it evaluates no wallet: its processed count
    is 0 and it leaves the files as they are, because every wallet the first
    run took was recorded in the ledger and is filtered out before
    distribution.  The ledger is the text of the file here: the first run
    leaves the text it found followed by what its calls of
    [save_scanned_wallet] appended, one after the other.  This holds for the
    analyzer and for the scanner, whatever the page and the schedule of
    either run. *)
Theorem second_run_processes_nothing `{PyLib} (pg pg' : page) (clock clock' : nat → Z)
    (sched1 sched2 : list nat) :
  (∀ cfg text output text1 output1 s1,
     Forall (λ w, ledger_safe w = true) (Analyzer.wallets cfg) →
     last_line_complete text = true →
     OnText.analyzer_run pg clock cfg sched1 text output = Some (text1, output1, s1) →
     (∃ new timestamps,
        length timestamps = length new ∧
        new ≡ₚ (if Analyzer.success s1
                then filter (λ w, w ∉ load_scanned_wallets (readlines text))
                       (Analyzer.wallets cfg)
                else []) ∧
        text1 = foldl (λ content p, append_scanned_wallet p.1 p.2 content) text
                  (zip new timestamps)) ∧
     ∃ s2, OnText.analyzer_run pg' clock' cfg sched2 text1 output1
             = Some (text1, output1, s2) ∧
           Analyzer.total_scanned s2 = 0 ∧ Analyzer.total_passed s2 = 0) ∧
  (∀ min_winrate min_pnl num_pages input text output text1 output1 s1,
     Forall (λ w, ledger_safe w = true)
       (Scanner.load_wallets {| Scanner.input_file := input;
                                Scanner.ledger_file := readlines text;
                                Scanner.output_file := output |}) →
     last_line_complete text = true →
     OnText.scanner_run pg clock min_winrate min_pnl num_pages sched1 input text output
       = Some (Returned (text1, output1, s1)) →
     (∃ new timestamps,
        length timestamps = length new ∧ length new = Scanner.processed s1 ∧
        text1 = foldl (λ content p, append_scanned_wallet p.1 p.2 content) text
                  (zip new timestamps)) ∧
     OnText.scanner_run pg' clock' min_winrate min_pnl num_pages sched2 input text1 output1
       = Some (Returned (text1, output1,
                         {| Scanner.processed := 0; Scanner.passed := 0;
                            Scanner.skipped := 0 |}))).
Proof.
  split.
  - intros cfg text output text1 output1 s1. apply analyzer_text_second_run.
  - intros min_winrate min_pnl num_pages input text output text1 output1 s1.
    apply scanner_text_second_run.
Qed.

Lemma second_run_processes_nothing_witness :
  let cfg := Demo.defaults 2 ["w0"; "w1"; "w2"] in
  let sched := [0; 1; 0; 1; 0; 1; 0; 1; 0; 0; 0; 0] in
  ∃ text1 output1 s1 s2,
    OnText.analyzer_run Demo.scenario_a Demo.clock cfg sched "" None
      = Some (text1, output1, s1) ∧
    Analyzer.total_scanned s1 = 3 ∧
    OnText.analyzer_run Demo.scenario_b Demo.clock cfg [] text1 output1
      = Some (text1, output1, s2) ∧
    Analyzer.total_scanned s2 = 0.
Proof.
  intros cfg sched.
  assert (Hsafe : Forall (λ w, ledger_safe w = true) (Analyzer.wallets cfg))
    by (repeat constructor).
  destruct (second_run_processes_nothing Demo.scenario_a Demo.scenario_b
              Demo.clock Demo.clock sched []) as [Ha _].
  destruct (OnText.analyzer_run Demo.scenario_a Demo.clock cfg sched "" None)
    as [[[text1 output1] s1]|] eqn:Hrun; [|vm_compute in Hrun; discriminate Hrun].
  destruct (Ha cfg "" None text1 output1 s1 Hsafe eq_refl Hrun)
    as [_ (s2 & Hrun2 & Hz & _)].
  exists text1, output1, s1, s2.
  split; [reflexivity|]. split; [|split; [exact Hrun2|exact Hz]].
  vm_compute in Hrun. injection Hrun as _ _ <-. reflexivity.
Defined.
